(** * RUNSTR Android asset scripts: a shallow embedding and its properties

    The three scripts under [scripts/assets] (circular launcher icons,
    splash logos, icon upscaler) are embedded here as functions over an
    explicit world (a file system keyed by path strings and the lines
    printed to the console).  Every call into the imaging library is a call
    to an operation of this file: image allocation, drawing and pasting are
    written out on pixel buffers with the integer arithmetic of the library;
    decoding, mode conversion, Lanczos resampling, ellipse rasterisation and
    PNG encoding are operations of the interface [Imaging], constrained by
    laws, with one executable instance at the end of the definitions. *)

From Stdlib Require Import ZArith Lia SpecFloat Ascii String.
From stdpp Require Import base option list gmap strings pretty.

Open Scope Z_scope.

(** ** Pixels and pixel buffers *)

(** An RGBA pixel: four 8-bit channels, kept as integers. *)
Record rgba := Rgba { red : Z; green : Z; blue : Z; alpha : Z }.

#[global] Instance rgba_eq_dec : EqDecision rgba.
Proof. solve_decision. Defined.

(** [(0, 0, 0, 0)], the fill colour of every canvas the scripts allocate. *)
Definition transparent : rgba := Rgba 0 0 0 0.

(** ['#000000'] as ink on an RGBA image: opaque black. *)
Definition black : rgba := Rgba 0 0 0 255.

Definition is_byte (v : Z) : Prop := 0 ≤ v ≤ 255.

Definition rgba_bytes (p : rgba) : Prop :=
  is_byte (red p) ∧ is_byte (green p) ∧ is_byte (blue p) ∧ is_byte (alpha p).

(** The mode tag of an image object. *)
Inductive pil_mode := ModeL | ModeP | ModeRGB | ModeRGBA | ModeOther.

#[global] Instance pil_mode_eq_dec : EqDecision pil_mode.
Proof. solve_decision. Defined.

(** An image object: mode, size and a row-major pixel buffer.  ['RGBA']
    images hold [rgba] pixels, ['L'] images hold one integer per pixel. *)
Record image (P : Type) := Image {
  mode : pil_mode;
  width : Z;
  height : Z;
  data : list P
}.
Arguments Image {P} _ _ _ _.
Arguments mode {P} _.
Arguments width {P} _.
Arguments height {P} _.
Arguments data {P} _.

(** Row-major buffer of a [w] by [h] image whose pixel at column [x], row
    [y] is [f x y]. *)
Definition tabulate {P} (w h : Z) (f : Z → Z → P) : list P :=
  (λ i, f (i `mod` w) (i `div` w)) <$> seqZ 0 (Z.max 0 w * Z.max 0 h).

Definition in_bounds {P} (im : image P) (x y : Z) : bool :=
  bool_decide (0 ≤ x < width im ∧ 0 ≤ y < height im).

(** The pixel at column [x], row [y]; [d] outside the image. *)
Definition pixel_at {P} (d : P) (im : image P) (x y : Z) : P :=
  if in_bounds im x y
  then default d (data im !! Z.to_nat (y * width im + x))
  else d.

Definition pixel (im : image rgba) (x y : Z) : rgba := pixel_at transparent im x y.
Definition level (im : image Z) (x y : Z) : Z := pixel_at 0 im x y.

(** A well-formed RGBA image: non-negative size, a buffer of exactly
    [width * height] pixels, every channel a byte. *)
Definition wf_image (im : image rgba) : Prop :=
  0 ≤ width im ∧ 0 ≤ height im ∧
  length (data im) = Z.to_nat (width im * height im) ∧
  Forall rgba_bytes (data im).

(** ** Exceptions *)

Inductive exn :=
  | ValueError
  | OverflowError
  | MemoryError
  | FileNotFoundError
  | NotADirectoryError
  | IsADirectoryError
  | UnidentifiedImageError.

Inductive result (A : Type) :=
  | Ok (a : A)
  | Raise (e : exn).
Arguments Ok {A} _.
Arguments Raise {A} _.

(** ** Image operations with integer semantics *)

(** The largest width the library allocates: [(INT_MAX / 4) - 1]. *)
Definition MAX_WIDTH : Z := (2 ^ 31 - 1) `div` 4 - 1.

(** [Image.new(mode, (w, h), color)]: a negative size raises, a size that
    does not fit a C [int] raises, and so does a width whose line would
    overflow. *)
Definition Image_new {P} (m : pil_mode) (size : Z * Z) (color : P) : result (image P) :=
  let '(w, h) := size in
  if bool_decide (w < 0 ∨ h < 0) then Raise ValueError
  else if bool_decide (2 ^ 31 ≤ w ∨ 2 ^ 31 ≤ h) then Raise OverflowError
  else if bool_decide (MAX_WIDTH < w) then Raise MemoryError
  else Ok (Image m w h (tabulate w h (λ _ _, color))).

(** The 8-bit blend of the paste loops: [DIV255] is the shift-and-add
    division by 255 with rounding, and the result is stored in a byte. *)
Definition DIV255 (a : Z) : Z :=
  let tmp := a + 128 in Z.shiftr (Z.shiftr tmp 8 + tmp) 8.

Definition BLEND8 (mask in1 in2 : Z) : Z :=
  DIV255 (in1 * (255 - mask) + in2 * mask) `mod` 256.

(** All four channels of the destination are blended with the same mask
    value. *)
Definition blend_rgba (mask : Z) (out inp : rgba) : rgba :=
  Rgba (BLEND8 mask (red out) (red inp))
       (BLEND8 mask (green out) (green inp))
       (BLEND8 mask (blue out) (blue inp))
       (BLEND8 mask (alpha out) (alpha inp)).

(** The core of [paste]: the source is placed with its top-left corner at
    [(dx, dy)]; the part falling outside the destination is clipped; inside,
    every destination pixel is blended with the source pixel under the mask
    value [mval] read at the source coordinates. *)
Definition paste_core (dst src : image rgba) (dx dy : Z) (mval : Z → Z → Z)
  : image rgba :=
  Image (mode dst) (width dst) (height dst)
    (tabulate (width dst) (height dst) (λ x y,
       if in_bounds src (x - dx) (y - dy)
       then blend_rgba (mval (x - dx) (y - dy)) (pixel dst x y)
                       (pixel src (x - dx) (y - dy))
       else pixel dst x y)).

(** [dst.paste(src, (dx, dy), mask)] with an ['RGBA'] mask: the mask's alpha
    band is used.  A mask of another size than the source raises. *)
Definition paste_mask_RGBA (dst src : image rgba) (pos : Z * Z) (mask : image rgba)
  : result (image rgba) :=
  if bool_decide (width mask = width src ∧ height mask = height src)
  then Ok (paste_core dst src pos.1 pos.2 (λ x y, alpha (pixel mask x y)))
  else Raise ValueError.

(** [dst.paste(src, (dx, dy), mask)] with an ['L'] mask. *)
Definition paste_mask_L (dst src : image rgba) (pos : Z * Z) (mask : image Z)
  : result (image rgba) :=
  if bool_decide (width mask = width src ∧ height mask = height src)
  then Ok (paste_core dst src pos.1 pos.2 (λ x y, level mask x y))
  else Raise ValueError.

(** ** The imaging library's interface

    What the scripts use of the imaging library beyond the integer
    operations above.  [decode] is [Image.open] on a file's contents (the
    image in the file's own mode), [convert_RGBA] is [convert('RGBA')],
    [resample_LANCZOS] is the resampling behind [resize] with
    [Image.Resampling.LANCZOS], [ellipse_covers box x y] tells whether the
    filled ellipse drawn for the bounding box [box] covers the pixel at
    column [x], row [y], and [png_encode] is the byte stream
    [save(..., 'PNG', optimize=True)] writes.

    Pixel [(x, y)] is the unit square with the corners [(x, y)] and
    [(x + 1, y + 1)]; a bounding box [(x0, y0, x1, y1)] names its first and
    last column and row, so the pixels of a square box form a square of
    edge [x1 - x0 + 1], and twice the offset of the centre of pixel [(x, y)]
    from the centre of that square is [(2 x - (x0 + x1), 2 y - (y0 + y1))]. *)

Definition bytes := list Byte.byte.

(** The image of one colour. *)
Definition uniform (m : pil_mode) (w h : Z) (c : rgba) : image rgba :=
  Image m w h (tabulate w h (λ _ _, c)).

Class Imaging := {
  decode : bytes → option (image rgba);
  convert_RGBA : image rgba → image rgba;
  resample_LANCZOS : image rgba → Z → Z → image rgba;
  ellipse_covers : Z * Z * Z * Z → Z → Z → bool;
  png_encode : image rgba → bytes;

  (** a decoded file is a well-formed, non-empty image *)
  decode_wf : ∀ b im, decode b = Some im →
    wf_image im ∧ 1 ≤ width im ∧ 1 ≤ height im;
  (** conversion keeps the size and yields a well-formed ['RGBA'] image *)
  convert_RGBA_spec : ∀ im, wf_image im →
    wf_image (convert_RGBA im) ∧ mode (convert_RGBA im) = ModeRGBA ∧
    width (convert_RGBA im) = width im ∧ height (convert_RGBA im) = height im;
  (** converting to the mode the image already has copies it *)
  convert_RGBA_id : ∀ im, mode im = ModeRGBA → convert_RGBA im = im;
  (** resampling yields a well-formed ['RGBA'] image of the requested size *)
  resample_spec : ∀ im w h,
    wf_image im → mode im = ModeRGBA → 1 ≤ width im → 1 ≤ height im →
    1 ≤ w → 1 ≤ h →
    wf_image (resample_LANCZOS im w h) ∧ mode (resample_LANCZOS im w h) = ModeRGBA ∧
    width (resample_LANCZOS im w h) = w ∧ height (resample_LANCZOS im w h) = h;
  (** resampling a one-colour black image of any opacity changes no value:
      the filter weights of every output pixel sum to one *)
  resample_uniform : ∀ w h a w' h',
    is_byte a → 1 ≤ w → 1 ≤ h → 1 ≤ w' → 1 ≤ h' →
    resample_LANCZOS (uniform ModeRGBA w h (Rgba 0 0 0 a)) w' h' =
    uniform ModeRGBA w' h' (Rgba 0 0 0 a);
  (** a filled ellipse drawn for a square bounding box covers pixels of
      the box only, and only pixels whose centre lies within the circle
      inscribed in the square of the pixels of the box *)
  ellipse_inscribed : ∀ x0 y0 x1 y1 x y,
    x1 - x0 = y1 - y0 →
    ellipse_covers (x0, y0, x1, y1) x y = true →
    x0 ≤ x ≤ x1 ∧ y0 ≤ y ≤ y1 ∧
    (2 * x - (x0 + x1)) ^ 2 + (2 * y - (y0 + y1)) ^ 2 ≤ (x1 - x0 + 1) ^ 2;
  (** PNG is lossless: decoding a saved ['RGBA'] image gives it back *)
  png_roundtrip : ∀ im,
    wf_image im → mode im = ModeRGBA →
    1 ≤ width im < 2 ^ 31 → 1 ≤ height im < 2 ^ 31 →
    decode (png_encode im) = Some im
}.

(** [im.resize((w, h), Image.Resampling.LANCZOS)] on an ['RGBA'] image: a
    request for the size the image already has returns a copy; otherwise
    the size is handed to the library, where a size that does not fit a C
    [int] raises, a size below one raises, and a width whose line would
    overflow raises as in [Image.new]; otherwise the image is resampled. *)
Definition Image_resize `{Imaging} (im : image rgba) (size : Z * Z)
  : result (image rgba) :=
  let '(w, h) := size in
  if bool_decide (width im = w ∧ height im = h) then Ok im
  else if bool_decide (w < - 2 ^ 31 ∨ 2 ^ 31 ≤ w ∨ h < - 2 ^ 31 ∨ 2 ^ 31 ≤ h)
       then Raise OverflowError
  else if bool_decide (w < 1 ∨ h < 1) then Raise ValueError
  else if bool_decide (MAX_WIDTH < w) then Raise MemoryError
  else Ok (resample_LANCZOS im w h).

(** [ImageDraw.Draw(im).ellipse([x0, y0, x1, y1], fill=ink)]: the covered
    pixels are overwritten with the ink, the others are kept.  A bounding
    box with [x1 < x0] or [y1 < y0] raises. *)
Definition draw_ellipse {P} `{Imaging} (im : image P) (box : Z * Z * Z * Z) (ink : P)
  : result (image P) :=
  let '(x0, y0, x1, y1) := box in
  if bool_decide (x1 < x0 ∨ y1 < y0) then Raise ValueError
  else Ok (Image (mode im) (width im) (height im)
             (tabulate (width im) (height im) (λ x y,
                if ellipse_covers box x y then ink else pixel_at ink im x y))).

(** ** Floating point: [int(n * c)] for an integer [n] and a float [c]

    binary64 arithmetic of the standard library's [SpecFloat]: the integer
    is converted with rounding to nearest even (an integer too large for a
    float raises), the product is rounded likewise, and [int] truncates
    towards zero. *)

Definition float_of_int (n : Z) : result spec_float :=
  match binary_normalize 53 1024 n 0 false with
  | S754_infinity _ => Raise OverflowError
  | f => Ok f
  end.

Definition int_of_float (f : spec_float) : result Z :=
  match f with
  | S754_zero _ => Ok 0
  | S754_finite s m e =>
      let v := if bool_decide (0 ≤ e) then Z.pos m * 2 ^ e
               else Z.pos m `div` 2 ^ (- e) in
      Ok (if s then - v else v)
  | S754_infinity _ => Raise OverflowError
  | S754_nan => Raise ValueError
  end.

Definition int_mul_float (n : Z) (c : spec_float) : result Z :=
  match float_of_int n with
  | Ok f => int_of_float (SFmul 53 1024 f c)
  | Raise e => Raise e
  end.

(** Round and sticky bits of the remainder [r] of a right shift by [n] bits,
    and the mantissa [m] shifted right by [k] bits and rounded to nearest
    even: what [shr] and [round_nearest_even] compute, in closed form. *)
Definition rs_of (r n : Z) : bool * bool :=
  if bool_decide (r = 0) then (false, false)
  else match 2 * r ?= 2 ^ n with
       | Lt => (false, true) | Eq => (true, false) | Gt => (true, true) end.

Definition loc_of_rs (rs : bool * bool) : location :=
  loc_of_shr_record (Build_shr_record 0 rs.1 rs.2).

Definition rne_shift (m k : Z) : Z :=
  round_nearest_even (m `div` 2 ^ k) (loc_of_rs (rs_of (m `mod` 2 ^ k) k)).

(** ** Paths *)

Definition slash : ascii := "/"%char.

(** [s.rstrip('/')] *)
Fixpoint rstrip_slash (s : string) : string :=
  match s with
  | EmptyString => EmptyString
  | String c rest =>
      match rstrip_slash rest with
      | EmptyString => if decide (c = slash) then EmptyString else String c EmptyString
      | rest' => String c rest'
      end
  end.

(** [(p[:i], p[i:])] for [i = p.rfind('/') + 1] *)
Fixpoint rsplit_slash (p : string) : string * string :=
  match p with
  | EmptyString => (EmptyString, EmptyString)
  | String c rest =>
      let '(h, t) := rsplit_slash rest in
      match h with
      | EmptyString =>
          if decide (c = slash) then (String c EmptyString, t)
          else (EmptyString, String c t)
      | _ => (String c h, t)
      end
  end.

(** [os.path.dirname]: the head up to the last slash, without its trailing
    slashes unless it consists of slashes only. *)
Definition dirname (p : string) : string :=
  let head := (rsplit_slash p).1 in
  match rstrip_slash head with
  | EmptyString => head
  | stripped => stripped
  end.

(** [os.path.basename] *)
Definition basename (p : string) : string := (rsplit_slash p).2.

Definition ends_with_slash (a : string) : bool :=
  match String.rev a with
  | String c _ => bool_decide (c = slash)
  | EmptyString => false
  end.

(** [os.path.join(a, b)] *)
Definition path_join (a b : string) : string :=
  match b with
  | String c _ =>
      if decide (c = slash) then b
      else if decide (a = EmptyString) then b
      else if ends_with_slash a then a +:+ b
      else a +:+ "/" +:+ b
  | EmptyString =>
      if decide (a = EmptyString) then b
      else if ends_with_slash a then a
      else a +:+ "/"
  end.

(** [os.path.expanduser] on a path of the form [~] or [~/...]: the tilde is
    replaced by the home directory [home] (from the environment or the
    password database) without its trailing slashes, and a path that the
    lookup cannot resolve ([home = None]) is returned as it is.  Other
    paths, among them those not starting with a tilde, are returned
    unchanged. *)
Definition expanduser (home : option string) (path : string) : string :=
  match path with
  | String "~"%char rest =>
      match rest, home with
      | EmptyString, Some h | String "/"%char _, Some h =>
          match rstrip_slash h +:+ rest with
          | EmptyString => "/"
          | r => r
          end
      | _, _ => path
      end
  | _ => path
  end.

(** [t.endswith(s)] *)
Fixpoint has_suffix (s t : string) : bool :=
  bool_decide (t = s) ||
  match t with
  | EmptyString => false
  | String _ t' => has_suffix s t'
  end.

(** ** The world: file system and console *)

Inductive node :=
  | Dir
  | File (content : bytes).

Record world := World {
  fs : gmap string node;
  stdout : list string
}.

(** A script step: runs in a world, returns or raises, and leaves a world
    behind in both cases. *)
Definition M (A : Type) : Type := world → result A * world.

#[global] Instance M_ret : MRet M := λ A a w, (Ok a, w).

#[global] Instance M_bind : MBind M := λ A B f c w,
  match c w with
  | (Ok a, w') => f a w'
  | (Raise e, w') => (Raise e, w')
  end.

(** An operation that may raise, run as a step that leaves the world alone. *)
Definition lift {A} (r : result A) : M A := λ w, (r, w).

(** [print(line)] *)
Definition print (line : string) : M unit :=
  λ w, (Ok (), World (fs w) (stdout w ++ [line])).

(** [os.path.exists(p)] *)
Definition path_exists (p : string) : M bool :=
  λ w, (Ok (bool_decide (is_Some (fs w !! p))), w).

(** [Image.open(p)]: the file is read and decoded. *)
Definition Image_open `{Imaging} (p : string) : M (image rgba) :=
  λ w, match fs w !! p with
       | None => (Raise FileNotFoundError, w)
       | Some Dir => (Raise IsADirectoryError, w)
       | Some (File b) =>
           match decode b with
           | Some im => (Ok im, w)
           | None => (Raise UnidentifiedImageError, w)
           end
       end.

(** Opening [p] for writing and storing [b]: the directory of [p] has to
    exist and be a directory, [p] itself must not be one. *)
Definition write_file (p : string) (b : bytes) : M unit :=
  λ w,
    let parent_ok : result unit :=
      match dirname p with
      | EmptyString => Ok ()
      | d => match fs w !! d with
             | Some Dir => Ok ()
             | Some (File _) => Raise NotADirectoryError
             | None => Raise FileNotFoundError
             end
      end in
    match parent_ok with
    | Raise e => (Raise e, w)
    | Ok _ =>
        match fs w !! p with
        | Some Dir => (Raise IsADirectoryError, w)
        | _ => (Ok (), World (<[p := File b]> (fs w)) (stdout w))
        end
    end.

(** [im.save(p, 'PNG', optimize=True)] *)
Definition Image_save `{Imaging} (im : image rgba) (p : string) : M unit :=
  write_file p (png_encode im).

(** [for x in l: body(x)] *)
Fixpoint for_each {A} (l : list A) (body : A → M unit) : M unit :=
  match l with
  | [] => mret ()
  | x :: l' => body x ;; for_each l' body
  end.

(** The newline inside a printed line. *)
Definition nl : string := String (ascii_of_nat 10) EmptyString.

(** ** scripts/assets/create_circular_android_icons.py *)

Module CircularIcons.
Section script.
Context `{Imaging}.
Variable home : option string.

Definition SOURCE_LOGO : string :=
  expanduser home "~/Desktop/RUNSTR LOGO FINAL/expo/icon.png".

Definition ICON_SIZES : list (string * Z) :=
  [("mdpi", 48); ("hdpi", 72); ("xhdpi", 96); ("xxhdpi", 144); ("xxxhdpi", 192)].

Definition BASE_PATH : string := "android/app/src/main/res".

(** [0.72], the double nearest to it: [6485183463413514 * 2^-53]. *)
Definition LOGO_SCALE : spec_float := S754_finite false 6485183463413514 (-53).

(** The compositing of [create_circular_icon], from the allocation of the
    canvas to the image that is saved, for a logo already opened and
    converted. *)
Definition compose_circular_icon (logo : image rgba) (size : Z) (is_round : bool)
  : result (image rgba) :=
  match Image_new ModeRGBA (size, size) transparent with Raise e => Raise e | Ok canvas =>
  match draw_ellipse canvas (0, 0, size - 1, size - 1) black with Raise e => Raise e | Ok canvas =>
  match int_mul_float size LOGO_SCALE with Raise e => Raise e | Ok logo_size =>
  match Image_resize logo (logo_size, logo_size) with Raise e => Raise e | Ok logo_resized =>
  let position := ((size - logo_size) `div` 2, (size - logo_size) `div` 2) in
  match paste_mask_RGBA canvas logo_resized position logo_resized with Raise e => Raise e | Ok canvas =>
  if is_round then
    match Image_new ModeL (size, size) 0 with Raise e => Raise e | Ok mask =>
    match draw_ellipse mask (0, 0, size - 1, size - 1) 255 with Raise e => Raise e | Ok mask =>
    match Image_new ModeRGBA (size, size) transparent with Raise e => Raise e | Ok output_img =>
    paste_mask_L output_img canvas (0, 0) mask
    end end end
  else Ok canvas
  end end end end end.

(** The line [create_circular_icon] prints once the icon is saved. *)
Definition created_message (output_path : string) (size : Z) (is_round : bool)
  : string :=
  let density := basename (dirname output_path) in
  let icon_type := if is_round then "round" else "standard" in
  "✓ Created circular " +:+ icon_type +:+ " icon for " +:+ density +:+
  " - " +:+ pretty size +:+ "x" +:+ pretty size +:+ "px".

Definition create_circular_icon (source_path output_path : string) (size : Z)
    (is_round : bool) : M unit :=
  canvas ← lift (Image_new ModeRGBA (size, size) transparent);
  canvas ← lift (draw_ellipse canvas (0, 0, size - 1, size - 1) black);
  logo ← Image_open source_path;
  let logo := convert_RGBA logo in
  logo_size ← lift (int_mul_float size LOGO_SCALE);
  logo_resized ← lift (Image_resize logo (logo_size, logo_size));
  let position := ((size - logo_size) `div` 2, (size - logo_size) `div` 2) in
  canvas ← lift (paste_mask_RGBA canvas logo_resized position logo_resized);
  canvas ← (if is_round then
              mask ← lift (Image_new ModeL (size, size) 0);
              mask ← lift (draw_ellipse mask (0, 0, size - 1, size - 1) 255);
              output_img ← lift (Image_new ModeRGBA (size, size) transparent);
              lift (paste_mask_L output_img canvas (0, 0) mask)
            else mret canvas);
  Image_save canvas output_path;;
  print (created_message output_path size is_round).

Definition mipmap_dir (density : string) : string :=
  path_join BASE_PATH ("mipmap-" +:+ density).

Definition standard_path (density : string) : string :=
  path_join (mipmap_dir density) "ic_launcher.png".

Definition round_path (density : string) : string :=
  path_join (mipmap_dir density) "ic_launcher_round.png".

Definition warning (dir : string) : string :=
  "⚠ Warning: " +:+ dir +:+ " not found, skipping...".

(** The body of the loop over the densities. *)
Definition main_body (item : string * Z) : M unit :=
  let '(density, size) := item in
  (found ← path_exists (mipmap_dir density);
   if found : bool
   then create_circular_icon SOURCE_LOGO (standard_path density) size false
   else print (warning (mipmap_dir density)));;
  (found ← path_exists (mipmap_dir density);
   if found : bool
   then create_circular_icon SOURCE_LOGO (round_path density) size true
   else mret ()).

Definition source_error : string :=
  "❌ Error: Source logo not found at " +:+ SOURCE_LOGO.

Definition main : M unit :=
  found ← path_exists SOURCE_LOGO;
  if negb found then print source_error
  else
    print ("🎨 Creating circular Android icons with black background..." +:+ nl);;
    print "📐 Icon specifications:";;
    print "   - Black circular background";;
    print "   - White RUNSTR logo at 60% scale (fits within 66% safe zone)";;
    print ("   - Transparent corners for adaptive icon system" +:+ nl);;
    for_each ICON_SIZES main_body;;
    print (nl +:+ "✅ All circular Android icons created successfully!");;
    print "🎯 Benefits:";;
    print "   - Logo perfectly fits Android's circular adaptive icon mask";;
    print "   - Black background matches your dark theme";;
    print "   - No white corners showing through";;
    print "   - Professional appearance on all Android launchers";;
    print (nl +:+ "📱 Rebuild the Android app to see the circular RUNSTR logo.").

End script.
End CircularIcons.

(** ** scripts/assets/generate_splash_screens.py *)

Module SplashScreens.
Section script.
Context `{Imaging}.
Variable home : option string.

Definition SOURCE_LOGO : string :=
  expanduser home "~/Desktop/RUNSTR LOGO FINAL/expo/splash-icon.png".

Definition SPLASH_SIZES : list (string * Z) :=
  [("mdpi", 300); ("hdpi", 450); ("xhdpi", 600); ("xxhdpi", 900); ("xxxhdpi", 1200)].

Definition BASE_PATH : string := "android/app/src/main/res".

(** The image [generate_splash_logo] saves, for the image [Image.open]
    returned. *)
Definition resize_splash_logo (img : image rgba) (size : Z) : result (image rgba) :=
  let img := if bool_decide (mode img ≠ ModeRGBA) then convert_RGBA img else img in
  Image_resize img (size, size).

(** The line [generate_splash_logo] prints once the logo is saved. *)
Definition generated_message (output_path : string) (size : Z) : string :=
  let density := basename (dirname output_path) in
  "✓ Generated splash logo for " +:+ density +:+ " - " +:+
  pretty size +:+ "x" +:+ pretty size +:+ "px".

Definition generate_splash_logo (source_path output_path : string) (size : Z) : M unit :=
  img ← Image_open source_path;
  let img := if bool_decide (mode img ≠ ModeRGBA) then convert_RGBA img else img in
  img_resized ← lift (Image_resize img (size, size));
  Image_save img_resized output_path;;
  print (generated_message output_path size).

Definition regular_dir (density : string) : string :=
  path_join BASE_PATH ("drawable-" +:+ density).

Definition regular_path (density : string) : string :=
  path_join (regular_dir density) "splashscreen_logo.png".

Definition dark_dir (density : string) : string :=
  path_join BASE_PATH ("drawable-night-" +:+ density).

Definition dark_path (density : string) : string :=
  path_join (dark_dir density) "splashscreen_logo.png".

Definition warning (dir : string) : string :=
  "⚠ Warning: " +:+ dir +:+ " not found, skipping...".

(** One destination of one density: write when the directory exists, warn
    otherwise. *)
Definition destination (dir path : string) (size : Z) : M unit :=
  found ← path_exists dir;
  if found : bool then generate_splash_logo SOURCE_LOGO path size
  else print (warning dir).

(** The body of the loop over the densities. *)
Definition main_body (item : string * Z) : M unit :=
  let '(density, size) := item in
  destination (regular_dir density) (regular_path density) size;;
  destination (dark_dir density) (dark_path density) size.

Definition source_error : string :=
  "❌ Error: Source logo not found at " +:+ SOURCE_LOGO.

Definition main : M unit :=
  found ← path_exists SOURCE_LOGO;
  if negb found then print source_error
  else
    print ("🎨 Generating Android splash screen logos from RUNSTR logo..." +:+ nl);;
    for_each SPLASH_SIZES main_body;;
    print (nl +:+ "✅ All splash screen logos generated successfully!");;
    print "🚀 The splash screen will now show the full RUNSTR logo on a black background.";;
    print "📱 Rebuild the Android app to see the updated splash screen.".

End script.
End SplashScreens.

(** ** scripts/assets/scale_android_icons.py *)

Module ScaleIcons.
Section script.
Context `{Imaging}.

Definition DENSITIES : list (string * Z) :=
  [("mdpi", 48); ("hdpi", 72); ("xhdpi", 96); ("xxhdpi", 144); ("xxxhdpi", 192)].

(** [2.0]: [2^52 * 2^-51]. *)
Definition SCALE_FACTOR : spec_float := S754_finite false 4503599627370496 (-51).

(** The image [scale_icon] saves, for the icon already opened and
    converted. *)
Definition compose_scaled_icon (img : image rgba) (canvas_size : Z)
  : result (image rgba) :=
  match int_mul_float canvas_size SCALE_FACTOR with Raise e => Raise e | Ok new_size =>
  match Image_resize img (new_size, new_size) with Raise e => Raise e | Ok img_scaled =>
  match Image_new ModeRGBA (canvas_size, canvas_size) transparent with Raise e => Raise e | Ok canvas =>
  let offset := (canvas_size - new_size) `div` 2 in
  paste_mask_RGBA canvas img_scaled (offset, offset) img_scaled
  end end end.

(** The line [scale_icon] prints once the icon is saved. *)
Definition scaled_message (input_path : string) (canvas_size : Z) : string :=
  "✓ Scaled " +:+ basename input_path +:+ " - " +:+
  pretty canvas_size +:+ "x" +:+ pretty canvas_size +:+ "px".

Definition scale_icon (input_path output_path : string) (canvas_size : Z) : M unit :=
  img ← Image_open input_path;
  let img := convert_RGBA img in
  new_size ← lift (int_mul_float canvas_size SCALE_FACTOR);
  img_scaled ← lift (Image_resize img (new_size, new_size));
  canvas ← lift (Image_new ModeRGBA (canvas_size, canvas_size) transparent);
  let offset := (canvas_size - new_size) `div` 2 in
  canvas ← lift (paste_mask_RGBA canvas img_scaled (offset, offset) img_scaled);
  Image_save canvas output_path;;
  print (scaled_message input_path canvas_size).

Definition base_path : string := "android/app/src/main/res".

Definition icon_path (density icon_name : string) : string :=
  path_join (path_join base_path ("mipmap-" +:+ density)) icon_name.

Definition warning (path : string) : string :=
  "⚠ Warning: " +:+ path +:+ " not found, skipping...".

Definition icon_names : list string := ["ic_launcher.png"; "ic_launcher_round.png"].

(** The body of the inner loop over the two icon names. *)
Definition icon_body (density : string) (size : Z) (icon_name : string) : M unit :=
  found ← path_exists (icon_path density icon_name);
  if found : bool
  then scale_icon (icon_path density icon_name) (icon_path density icon_name) size
  else print (warning (icon_path density icon_name)).

(** The body of the loop over the densities. *)
Definition main_body (item : string * Z) : M unit :=
  let '(density, size) := item in
  for_each icon_names (icon_body density size).

Definition main : M unit :=
  print ("🔧 Scaling Android app icons to make RUNSTR logo larger..." +:+ nl);;
  for_each DENSITIES main_body;;
  print (nl +:+ "✅ All Android icons scaled successfully!");;
  print "📱 Rebuild the Android app to see the larger RUNSTR logo.".

End script.
End ScaleIcons.

(** ** Closed forms of the composited pixels

    What the compositing steps of the scripts amount to, pixel by pixel.
    The properties below relate the images the scripts save to them. *)

Section closed_forms.
Context `{Imaging}.

(** The bounding box both ellipses of the icon generator are drawn for. *)
Definition circle_box (size : Z) : Z * Z * Z * Z := (0, 0, size - 1, size - 1).

(** Pixel [(x, y)] of a canvas of [size] by [size] pixels lies outside the
    circle inscribed in the canvas: its centre [(x + 1/2, y + 1/2)] is
    farther than [size / 2] from the centre [(size / 2, size / 2)] of the
    canvas (all lengths doubled).  A pixel no point of which is in the
    circle is among them. *)
Definition outside_inscribed_circle (size x y : Z) : Prop :=
  size ^ 2 < (2 * x + 1 - size) ^ 2 + (2 * y + 1 - size) ^ 2.

(** The canvas after the black disc has been drawn. *)
Definition background_pixel (size x y : Z) : rgba :=
  if ellipse_covers (circle_box size) x y then black else transparent.

(** The canvas after the logo [logo_resized] has been pasted with its
    top-left corner at [(pos, pos)] under its own alpha band. *)
Definition standard_pixel (logo_resized : image rgba) (pos size x y : Z) : rgba :=
  if in_bounds logo_resized (x - pos) (y - pos)
  then blend_rgba (alpha (pixel logo_resized (x - pos) (y - pos)))
                  (background_pixel size x y)
                  (pixel logo_resized (x - pos) (y - pos))
  else background_pixel size x y.

(** The round variant: the composite pasted onto a transparent image under
    the disc-shaped mask. *)
Definition round_pixel (logo_resized : image rgba) (pos size x y : Z) : rgba :=
  blend_rgba (if ellipse_covers (circle_box size) x y then 255 else 0)
             transparent (standard_pixel logo_resized pos size x y).

(** The upscaler's canvas after the scaled icon has been pasted at
    [(offset, offset)] under its own alpha band. *)
Definition scaled_pixel (img_scaled : image rgba) (offset x y : Z) : rgba :=
  if in_bounds img_scaled (x - offset) (y - offset)
  then blend_rgba (alpha (pixel img_scaled (x - offset) (y - offset)))
                  transparent
                  (pixel img_scaled (x - offset) (y - offset))
  else transparent.

End closed_forms.

(** ** The runs as lists of guarded writes

    A run of one of the scripts that raises nothing amounts to a list of
    items, each writing one file when the path it checks exists and printing
    a line: this is the form the properties of whole runs are stated on.
    The lemmas [main_refines] relate the scripts' [main] to it. *)

Record item := Item {
  guard : string;           (* the path tested with [os.path.exists] *)
  target : string;          (* the file written *)
  payload : bytes;          (* its new contents *)
  done_line : string;       (* the line printed after the write *)
  skip_lines : list string  (* the lines printed when the item is skipped *)
}.

Definition apply_item (acc : world) (it : item) : world :=
  if bool_decide (is_Some (fs acc !! guard it))
  then World (<[target it := File (payload it)]> (fs acc)) (stdout acc ++ [done_line it])
  else World (fs acc) (stdout acc ++ skip_lines it).

Definition apply_items (acc : world) (l : list item) : world :=
  foldl apply_item acc l.

Definition print_lines (acc : world) (lines : list string) : world :=
  World (fs acc) (stdout acc ++ lines).

Section plans.
Context `{Imaging}.

(** The bytes of the icon of one size and variant, for the decoded logo. *)
Definition icon_file (logo : image rgba) (size : Z) (is_round : bool) : bytes :=
  match CircularIcons.compose_circular_icon (convert_RGBA logo) size is_round with
  | Ok img => png_encode img
  | Raise _ => []
  end.

Definition circular_items (logo : image rgba) (entry : string * Z) : list item :=
  let '(density, size) := entry in
  [Item (CircularIcons.mipmap_dir density) (CircularIcons.standard_path density)
        (icon_file logo size false)
        (CircularIcons.created_message (CircularIcons.standard_path density) size false)
        [CircularIcons.warning (CircularIcons.mipmap_dir density)];
   Item (CircularIcons.mipmap_dir density) (CircularIcons.round_path density)
        (icon_file logo size true)
        (CircularIcons.created_message (CircularIcons.round_path density) size true)
        []].

Definition circular_plan (logo : image rgba) : list item :=
  flat_map (circular_items logo) CircularIcons.ICON_SIZES.

(** The bytes of the splash logo of one size, for the decoded source. *)
Definition splash_file (img : image rgba) (size : Z) : bytes :=
  match SplashScreens.resize_splash_logo img size with
  | Ok out => png_encode out
  | Raise _ => []
  end.

Definition splash_items (img : image rgba) (entry : string * Z) : list item :=
  let '(density, size) := entry in
  [Item (SplashScreens.regular_dir density) (SplashScreens.regular_path density)
        (splash_file img size)
        (SplashScreens.generated_message (SplashScreens.regular_path density) size)
        [SplashScreens.warning (SplashScreens.regular_dir density)];
   Item (SplashScreens.dark_dir density) (SplashScreens.dark_path density)
        (splash_file img size)
        (SplashScreens.generated_message (SplashScreens.dark_path density) size)
        [SplashScreens.warning (SplashScreens.dark_dir density)]].

Definition splash_plan (img : image rgba) : list item :=
  flat_map (splash_items img) SplashScreens.SPLASH_SIZES.

(** The bytes of the upscaled icon, for the bytes of the icon file read. *)
Definition scaled_file (old : option node) (canvas_size : Z) : bytes :=
  match old with
  | Some (File b) =>
      match decode b with
      | Some img =>
          match ScaleIcons.compose_scaled_icon (convert_RGBA img) canvas_size with
          | Ok out => png_encode out
          | Raise _ => []
          end
      | None => []
      end
  | _ => []
  end.

Definition scale_items (fs0 : gmap string node) (entry : string * Z) : list item :=
  let '(density, size) := entry in
  (λ icon_name,
     let path := ScaleIcons.icon_path density icon_name in
     Item path path (scaled_file (fs0 !! path) size)
          (ScaleIcons.scaled_message path size) [ScaleIcons.warning path])
  <$> ScaleIcons.icon_names.

Definition scale_plan (fs0 : gmap string node) : list item :=
  flat_map (scale_items fs0) ScaleIcons.DENSITIES.

(** What a run needs to raise nothing: the source is a file that decodes,
    and every directory tested is absent, or is a directory in which the
    file to write is not itself a directory. *)
Definition source_decodes (source_path : string) (w : world) (img : image rgba) : Prop :=
  ∃ b, fs w !! source_path = Some (File b) ∧ decode b = Some img.

Definition tree_ok (l : list item) (w : world) : Prop :=
  Forall (λ it, fs w !! guard it = None ∨
                (fs w !! guard it = Some Dir ∧ fs w !! target it ≠ Some Dir)) l.

(** For the upscaler: every icon file that exists decodes and lies in a
    directory. *)
Definition icons_ok (l : list item) (w : world) : Prop :=
  Forall (λ it, fs w !! target it = None ∨
                ((∃ b img, fs w !! target it = Some (File b) ∧ decode b = Some img) ∧
                 fs w !! dirname (target it) = Some Dir)) l.

(** The lines the scripts print before and after their loops. *)
Definition circular_banner : list string :=
  ["🎨 Creating circular Android icons with black background..." +:+ nl;
   "📐 Icon specifications:";
   "   - Black circular background";
   "   - White RUNSTR logo at 60% scale (fits within 66% safe zone)";
   "   - Transparent corners for adaptive icon system" +:+ nl].

Definition circular_footer : list string :=
  [nl +:+ "✅ All circular Android icons created successfully!";
   "🎯 Benefits:";
   "   - Logo perfectly fits Android's circular adaptive icon mask";
   "   - Black background matches your dark theme";
   "   - No white corners showing through";
   "   - Professional appearance on all Android launchers";
   nl +:+ "📱 Rebuild the Android app to see the circular RUNSTR logo."].

Definition splash_banner : list string :=
  ["🎨 Generating Android splash screen logos from RUNSTR logo..." +:+ nl].

Definition splash_footer : list string :=
  [nl +:+ "✅ All splash screen logos generated successfully!";
   "🚀 The splash screen will now show the full RUNSTR logo on a black background.";
   "📱 Rebuild the Android app to see the updated splash screen."].

Definition scale_banner : list string :=
  ["🔧 Scaling Android app icons to make RUNSTR logo larger..." +:+ nl].

Definition scale_footer : list string :=
  [nl +:+ "✅ All Android icons scaled successfully!";
   "📱 Rebuild the Android app to see the larger RUNSTR logo."].

End plans.

(** ** The part of a loop that runs before an exception

    The elements of [l] up to and including the first that [stop] selects. *)
Fixpoint up_to_first {A} (stop : A → bool) (l : list A) : list A :=
  match l with
  | [] => []
  | a :: l' => a :: (if stop a then [] else up_to_first stop l')
  end.

(** ** What a run may change

    [only_writes paths w w']: from [w] to [w'] every path of the file system
    is as it was, or is one of [paths] and holds a file.  [only_rewrites] is
    the same for paths that held a file before. *)

Definition only_writes (paths : list string) (w w' : world) : Prop :=
  ∀ p, fs w' !! p = fs w !! p ∨ (p ∈ paths ∧ ∃ b, fs w' !! p = Some (File b)).

Definition only_rewrites (paths : list string) (w w' : world) : Prop :=
  ∀ p, fs w' !! p = fs w !! p ∨
       (p ∈ paths ∧ (∃ b0, fs w !! p = Some (File b0)) ∧ ∃ b, fs w' !! p = Some (File b)).

(** ** An executable instance of the interface

    Nearest-neighbour resampling, the library's rasteriser of filled
    ellipses, and an uncompressed container (two 32-bit big-endian
    sizes, then four bytes per pixel) in place of PNG.  It shows the laws of
    [Imaging] to be satisfiable and lets the scripts run on concrete
    worlds. *)

Module Reference.

Definition byte_of_Z (v : Z) : Byte.byte :=
  default Byte.x00 (Byte.of_N (Z.to_N (v `mod` 256))).

Definition Z_of_byte (b : Byte.byte) : Z := Z.of_N (Byte.to_N b).

Definition be32 (v : Z) : bytes :=
  [byte_of_Z (v `div` 16777216); byte_of_Z (v `div` 65536);
   byte_of_Z (v `div` 256); byte_of_Z v].

Definition of_be32 (b3 b2 b1 b0 : Byte.byte) : Z :=
  ((Z_of_byte b3 * 256 + Z_of_byte b2) * 256 + Z_of_byte b1) * 256 + Z_of_byte b0.

Fixpoint encode_pixels (l : list rgba) : bytes :=
  match l with
  | [] => []
  | p :: l' =>
      byte_of_Z (red p) :: byte_of_Z (green p) :: byte_of_Z (blue p) ::
      byte_of_Z (alpha p) :: encode_pixels l'
  end.

Fixpoint decode_pixels (b : bytes) : option (list rgba) :=
  match b with
  | [] => Some []
  | r :: g :: b' :: a :: rest =>
      match decode_pixels rest with
      | Some l => Some (Rgba (Z_of_byte r) (Z_of_byte g) (Z_of_byte b') (Z_of_byte a) :: l)
      | None => None
      end
  | _ => None
  end.

Definition encode (im : image rgba) : bytes :=
  be32 (width im) ++ be32 (height im) ++ encode_pixels (data im).

Definition decode (b : bytes) : option (image rgba) :=
  match b with
  | w3 :: w2 :: w1 :: w0 :: h3 :: h2 :: h1 :: h0 :: rest =>
      let w := of_be32 w3 w2 w1 w0 in
      let h := of_be32 h3 h2 h1 h0 in
      match decode_pixels rest with
      | Some px =>
          if bool_decide (1 ≤ w ∧ 1 ≤ h ∧ length px = Z.to_nat (w * h))
          then Some (Image ModeRGBA w h px)
          else None
      | None => None
      end
  | _ => None
  end.

Definition convert_RGBA (im : image rgba) : image rgba :=
  Image ModeRGBA (width im) (height im) (data im).

Definition resample (im : image rgba) (w h : Z) : image rgba :=
  Image ModeRGBA w h
    (tabulate w h (λ x y,
       pixel im ((x * width im) `div` w) ((y * height im) `div` h))).

(** The rasteriser's walk along a quarter of the ellipse with the
    diameters [a] and [b], in doubled coordinates relative to the centre:
    from [(a, b mod 2)] to [(a mod 2, b)], each step to the neighbour (up,
    up and left, or left) that deviates least from the ideal ellipse. *)
Definition quarter_delta (a b x y : Z) : Z :=
  Z.abs (a * a * y * y + b * b * x * x - a * a * (b * b)).

Definition quarter_next (a b : Z) (c : Z * Z) : Z * Z :=
  let '(cx, cy) := c in
  let ndelta := quarter_delta a b cx (cy + 2) in
  if bool_decide (1 < cx) then
    let d1 := quarter_delta a b (cx - 2) (cy + 2) in
    let n1 := if bool_decide (d1 < ndelta) then (cx - 2, cy + 2) else (cx, cy + 2) in
    let ndelta1 := if bool_decide (d1 < ndelta) then d1 else ndelta in
    let d2 := quarter_delta a b (cx - 2) cy in
    if bool_decide (d2 < ndelta1) then (cx - 2, cy) else n1
  else (cx, cy + 2).

Fixpoint quarter_points (fuel : nat) (a b : Z) (c : Z * Z) : list (Z * Z) :=
  c :: match fuel with
       | O => []
       | S n => if bool_decide (c = (a `mod` 2, b)) then []
                else quarter_points n a b (quarter_next a b c)
       end.

(** The filled ellipse: in each row, the span between the outermost point
    of the walk in that row and its mirror image. *)
Definition ellipse_covers (box : Z * Z * Z * Z) (x y : Z) : bool :=
  let '(x0, y0, x1, y1) := box in
  let a := x1 - x0 in
  let b := y1 - y0 in
  bool_decide (x0 ≤ x ≤ x1 ∧ y0 ≤ y ≤ y1) &&
  existsb (λ c : Z * Z,
             bool_decide (Z.abs (2 * (y - y0) - b) = c.2 ∧ Z.abs (2 * (x - x0) - a) ≤ c.1))
          (quarter_points (Z.to_nat (a + b)) a b (a, b `mod` 2)).

End Reference.

(** What the walk keeps on a circle of diameter [a]: the point stays in the
    quarter, on the grid of the parity of [a], and within the circle of
    diameter [a + 1]. *)
Definition on_quarter (a : Z) (c : Z * Z) : Prop :=
  0 ≤ c.1 ≤ a ∧ 0 ≤ c.2 ≤ a ∧
  c.1 `mod` 2 = a `mod` 2 ∧ c.2 `mod` 2 = a `mod` 2 ∧
  c.1 * c.1 + c.2 * c.2 ≤ (a + 1) * (a + 1).

(** A file system for examples: the directories named in [dirs], and the
    files of [files]. *)
Definition make_fs (dirs : list string) (files : list (string * bytes))
  : gmap string node :=
  list_to_map ((λ d, (d, Dir)) <$> dirs) ∪ list_to_map ((λ f, (f.1, File f.2)) <$> files).

(** An opaque white logo of two by two pixels, and a world that holds it as
    [logo.png] in the current directory. *)
Definition white : rgba := Rgba 255 255 255 255.

Definition example_logo : image rgba := uniform ModeRGBA 2 2 white.

Definition example_world : world :=
  World (make_fs [] [("logo.png", Reference.encode example_logo)]) [].

(** ** Worlds for examples

    A home directory, and two resource trees below the current directory.
    [example_tree] holds both source logos, the three [mdpi] directories and
    one launcher icon; [broken_tree] holds source logos that are no images,
    and the [hdpi] directories. *)

Definition example_home : option string := Some "/home/dev".

Definition example_icon : image rgba := uniform ModeRGBA 2 2 (Rgba 0 0 0 128).

Definition example_tree : world :=
  World (make_fs
           ["android/app/src/main/res/mipmap-mdpi";
            "android/app/src/main/res/drawable-mdpi";
            "android/app/src/main/res/drawable-night-mdpi"]
           [("/home/dev/Desktop/RUNSTR LOGO FINAL/expo/icon.png",
             Reference.encode example_logo);
            ("/home/dev/Desktop/RUNSTR LOGO FINAL/expo/splash-icon.png",
             Reference.encode example_logo);
            ("android/app/src/main/res/mipmap-mdpi/ic_launcher.png",
             Reference.encode example_icon)])
        [].

Definition broken_tree : world :=
  World (make_fs
           ["android/app/src/main/res/mipmap-hdpi";
            "android/app/src/main/res/drawable-night-hdpi"]
           [("/home/dev/Desktop/RUNSTR LOGO FINAL/expo/icon.png", []);
            ("/home/dev/Desktop/RUNSTR LOGO FINAL/expo/splash-icon.png", [])])
        [].

(** A white logo of two by two pixels of half opacity, in a world of its
    own; and a launcher icon of the [mdpi] size, black of half opacity, in
    its directory. *)
Definition faint_logo : image rgba := uniform ModeRGBA 2 2 (Rgba 255 255 255 128).

Definition faint_world : world :=
  World (make_fs [] [("logo.png", Reference.encode faint_logo)]) [].

Definition faint_launcher : image rgba := uniform ModeRGBA 48 48 (Rgba 0 0 0 128).

Definition launcher_tree : world :=
  World (make_fs
           ["android/app/src/main/res/mipmap-mdpi"]
           [("android/app/src/main/res/mipmap-mdpi/ic_launcher.png",
             Reference.encode faint_launcher)])
        [].

(** ** Basic facts on buffers and blending *)

Lemma length_tabulate {P} w h (f : Z → Z → P) :
  length (tabulate w h f) = Z.to_nat (Z.max 0 w * Z.max 0 h).
Proof. unfold tabulate. by rewrite length_fmap, length_seqZ. Qed.

Lemma lookup_tabulate {P} w h (f : Z → Z → P) x y :
  0 ≤ x < w → 0 ≤ y < h →
  tabulate w h f !! Z.to_nat (y * w + x) = Some (f x y).
Proof.
  intros Hx Hy. unfold tabulate.
  rewrite list_lookup_fmap.
  rewrite (lookup_seqZ_lt 0 _ (Z.to_nat (y * w + x))) by nia.
  simpl. f_equal. rewrite Z2Nat.id by nia. rewrite Z.add_0_l.
  f_equal.
  - rewrite Z.add_comm, Z.mod_add by lia. apply Z.mod_small; lia.
  - rewrite Z.add_comm, Z.div_add by lia. rewrite Z.div_small by lia. lia.
Qed.

Lemma pixel_at_tabulate {P} (d : P) m w h f x y :
  0 ≤ x < w → 0 ≤ y < h →
  pixel_at d (Image m w h (tabulate w h f)) x y = f x y.
Proof.
  intros Hx Hy. unfold pixel_at, in_bounds. simpl.
  rewrite bool_decide_eq_true_2 by done.
  by rewrite lookup_tabulate.
Qed.

Lemma pixel_at_outside {P} (d : P) im x y :
  ¬ (0 ≤ x < width im ∧ 0 ≤ y < height im) → pixel_at d im x y = d.
Proof.
  intros H. unfold pixel_at, in_bounds. by rewrite bool_decide_eq_false_2.
Qed.

(** Facts on bytes are settled by running through the 256 values. *)
Lemma byte_cases (P : Z → bool) :
  forallb P (seqZ 0 256) = true → ∀ v, is_byte v → P v = true.
Proof.
  intros HP v Hv. rewrite forallb_forall in HP. apply HP.
  apply list_elem_of_In, elem_of_seqZ. unfold is_byte in Hv. lia.
Qed.

Lemma DIV255_times_255 v : is_byte v → DIV255 (v * 255) = v.
Proof.
  intros Hv.
  apply (byte_cases (λ v, bool_decide (DIV255 (v * 255) = v))) in Hv.
  - by apply bool_decide_eq_true_1 in Hv.
  - by vm_compute.
Qed.

Lemma BLEND8_mask_0 m v : is_byte v → BLEND8 0 v m = v.
Proof.
  intros Hv. unfold BLEND8.
  replace (v * (255 - 0) + m * 0) with (v * 255) by lia.
  rewrite DIV255_times_255 by done. apply Z.mod_small. unfold is_byte in Hv. lia.
Qed.

Lemma BLEND8_mask_255 m v : is_byte v → BLEND8 255 m v = v.
Proof.
  intros Hv. unfold BLEND8.
  replace (m * (255 - 255) + v * 255) with (v * 255) by lia.
  rewrite DIV255_times_255 by done. apply Z.mod_small. unfold is_byte in Hv. lia.
Qed.

Lemma BLEND8_onto_0 v : BLEND8 0 0 v = 0.
Proof. unfold BLEND8. by replace (0 * (255 - 0) + v * 0) with 0 by lia. Qed.

Lemma BLEND8_is_byte m a b : is_byte (BLEND8 m a b).
Proof. unfold BLEND8, is_byte. pose proof (Z.mod_pos_bound (DIV255 (a * (255 - m) + b * m)) 256). lia. Qed.

Lemma tabulate_ext {P} w h (f g : Z → Z → P) :
  (∀ x y, 0 ≤ x < w → 0 ≤ y < h → f x y = g x y) →
  tabulate w h f = tabulate w h g.
Proof.
  intros Hfg. unfold tabulate.
  apply list_fmap_ext. intros i v Hv.
  apply lookup_seqZ in Hv as [-> Hi].
  destruct (decide (0 < w)) as [Hw|Hw]; [|nia].
  destruct (decide (0 < h)) as [Hh|Hh]; [|nia].
  apply Hfg.
  - apply Z.mod_pos_bound. lia.
  - split; [apply Z.div_pos; lia|]. apply Z.div_lt_upper_bound; nia.
Qed.

Lemma Forall_tabulate {P} (Q : P → Prop) w h (f : Z → Z → P) :
  (∀ x y, 0 ≤ x < w → 0 ≤ y < h → Q (f x y)) →
  Forall Q (tabulate w h f).
Proof.
  intros Hf. unfold tabulate.
  apply Forall_fmap, Forall_forall. intros v Hv.
  apply elem_of_seqZ in Hv. simpl.
  destruct (decide (0 < w)) as [Hw|Hw]; [|nia].
  destruct (decide (0 < h)) as [Hh|Hh]; [|nia].
  apply Hf.
  - apply Z.mod_pos_bound. lia.
  - split; [apply Z.div_pos; lia|]. apply Z.div_lt_upper_bound; nia.
Qed.

Lemma transparent_bytes : rgba_bytes transparent.
Proof. unfold rgba_bytes, is_byte. simpl. lia. Qed.

Lemma black_bytes : rgba_bytes black.
Proof. unfold rgba_bytes, is_byte. simpl. lia. Qed.

Lemma pixel_bytes im x y : wf_image im → rgba_bytes (pixel im x y).
Proof.
  intros (_ & _ & _ & Hall). unfold pixel, pixel_at.
  destruct (in_bounds im x y); [|apply transparent_bytes].
  destruct (data im !! Z.to_nat (y * width im + x)) as [p|] eqn:Hp; simpl.
  - rewrite Forall_forall in Hall. apply Hall. by eapply list_elem_of_lookup_2.
  - apply transparent_bytes.
Qed.

Lemma wf_tabulate m w h f :
  0 ≤ w → 0 ≤ h →
  (∀ x y, 0 ≤ x < w → 0 ≤ y < h → rgba_bytes (f x y)) →
  wf_image (Image m w h (tabulate w h f)).
Proof.
  intros Hw Hh Hf. unfold wf_image. simpl.
  repeat split; try done.
  - rewrite length_tabulate. f_equal. lia.
  - by apply Forall_tabulate.
Qed.

Lemma blend_rgba_bytes m a b : rgba_bytes (blend_rgba m a b).
Proof. unfold rgba_bytes, blend_rgba. simpl. repeat split; apply BLEND8_is_byte. Qed.

Lemma wf_paste_core dst src dx dy mval :
  wf_image dst → wf_image (paste_core dst src dx dy mval).
Proof.
  intros Hdst. pose proof Hdst as (Hw & Hh & _).
  unfold paste_core. apply wf_tabulate; try done.
  intros x y _ _. destruct (in_bounds src _ _).
  - apply blend_rgba_bytes.
  - by apply pixel_bytes.
Qed.

(** *** The laws of the executable instance *)

Lemma Z_of_byte_of_Z v : is_byte v → Reference.Z_of_byte (Reference.byte_of_Z v) = v.
Proof.
  intros Hv. unfold is_byte in Hv.
  unfold Reference.Z_of_byte, Reference.byte_of_Z.
  rewrite Z.mod_small by lia.
  destruct (Byte.of_N (Z.to_N v)) as [b|] eqn:Hb; simpl.
  - apply Byte.to_of_N in Hb. rewrite Hb. lia.
  - apply Byte.of_N_None_iff in Hb. lia.
Qed.

Lemma Z_of_byte_is_byte b : is_byte (Reference.Z_of_byte b).
Proof.
  unfold is_byte, Reference.Z_of_byte.
  pose proof (Byte.to_N_bounded b). lia.
Qed.

Lemma Z_of_byte_of_Z_mod v :
  Reference.Z_of_byte (Reference.byte_of_Z v) = v `mod` 256.
Proof.
  pose proof (Z.mod_pos_bound v 256).
  rewrite <- (Z_of_byte_of_Z (v `mod` 256)) by (unfold is_byte; lia).
  unfold Reference.byte_of_Z. by rewrite Z.mod_mod by lia.
Qed.

Lemma of_be32_be32 v b3 b2 b1 b0 :
  0 ≤ v < 2 ^ 32 → Reference.be32 v = [b3; b2; b1; b0] →
  Reference.of_be32 b3 b2 b1 b0 = v.
Proof.
  intros Hv Heq. unfold Reference.be32 in Heq.
  injection Heq as <- <- <- <-.
  unfold Reference.of_be32. rewrite !Z_of_byte_of_Z_mod.
  change (2 ^ 32) with 4294967296 in Hv.
  rewrite (Z.mod_small (v `div` 16777216)) by
    (split; [apply Z.div_pos; lia | apply Z.div_lt_upper_bound; lia]).
  pose proof (Z.div_mod v 256 ltac:(lia)) as H0.
  pose proof (Z.div_mod (v `div` 256) 256 ltac:(lia)) as H1.
  pose proof (Z.div_mod ((v `div` 256) `div` 256) 256 ltac:(lia)) as H2.
  rewrite Z.div_div in H1, H2 by lia. rewrite Z.div_div in H2 by lia.
  change (256 * 256) with 65536 in *. change (65536 * 256) with 16777216 in *.
  lia.
Qed.

Lemma decode_encode_pixels l :
  Forall rgba_bytes l →
  Reference.decode_pixels (Reference.encode_pixels l) = Some l.
Proof.
  induction 1 as [|p l (Hr & Hg & Hb & Ha) _ IH]; [done|].
  cbn [Reference.encode_pixels Reference.decode_pixels].
  rewrite IH, !Z_of_byte_of_Z by done. by destruct p.
Qed.

Lemma decode_pixels_bytes b l :
  Reference.decode_pixels b = Some l → Forall rgba_bytes l.
Proof.
  remember (length b) as n eqn:Hn.
  assert (Hle : (length b ≤ n)%nat) by lia. clear Hn.
  revert b l Hle. induction n as [|n IH]; intros b l Hle Hl.
  - destruct b; simplify_eq/=; [constructor | lia].
  - destruct b as [|r [|g [|b' [|a rest]]]]; simplify_eq/=; [constructor|].
    destruct (Reference.decode_pixels rest) as [l'|] eqn:Hrest; simplify_eq.
    constructor.
    + repeat split; apply Z_of_byte_is_byte.
    + eapply IH; [|done]. lia.
Qed.

Lemma reference_decode_wf b im :
  Reference.decode b = Some im → wf_image im ∧ 1 ≤ width im ∧ 1 ≤ height im.
Proof.
  unfold Reference.decode. intros Hd.
  destruct b as [|w3 [|w2 [|w1 [|w0 [|h3 [|h2 [|h1 [|h0 rest]]]]]]]]; try done.
  destruct (Reference.decode_pixels rest) as [px|] eqn:Hpx; [|done].
  case_bool_decide as Hb; [|done]. simplify_eq. simpl.
  destruct Hb as (Hw & Hh & Hlen).
  unfold wf_image. simpl. repeat split; try lia; try done.
  by eapply decode_pixels_bytes.
Qed.

Lemma reference_convert_spec im :
  wf_image im →
  wf_image (Reference.convert_RGBA im) ∧ mode (Reference.convert_RGBA im) = ModeRGBA ∧
  width (Reference.convert_RGBA im) = width im ∧
  height (Reference.convert_RGBA im) = height im.
Proof. intros Hwf. split; [|done]. apply Hwf. Qed.

Lemma reference_convert_id im :
  mode im = ModeRGBA → Reference.convert_RGBA im = im.
Proof. destruct im; simpl; intros ->; done. Qed.

Lemma reference_resample_spec im w h :
  wf_image im → mode im = ModeRGBA → 1 ≤ width im → 1 ≤ height im →
  1 ≤ w → 1 ≤ h →
  wf_image (Reference.resample im w h) ∧ mode (Reference.resample im w h) = ModeRGBA ∧
  width (Reference.resample im w h) = w ∧ height (Reference.resample im w h) = h.
Proof.
  intros Hwf _ _ _ Hw Hh. split; [|done].
  apply wf_tabulate; [lia..|]. intros x y _ _. by apply pixel_bytes.
Qed.

Lemma reference_resample_uniform w h a w' h' :
  is_byte a → 1 ≤ w → 1 ≤ h → 1 ≤ w' → 1 ≤ h' →
  Reference.resample (uniform ModeRGBA w h (Rgba 0 0 0 a)) w' h' =
  uniform ModeRGBA w' h' (Rgba 0 0 0 a).
Proof.
  intros _ Hw Hh Hw' Hh'. unfold Reference.resample, uniform. simpl.
  f_equal. apply tabulate_ext. intros x y Hx Hy.
  unfold pixel. rewrite pixel_at_tabulate; [done| |].
  - split; [apply Z.div_pos; nia | apply Z.div_lt_upper_bound; nia].
  - split; [apply Z.div_pos; nia | apply Z.div_lt_upper_bound; nia].
Qed.

Lemma reference_roundtrip im :
  wf_image im → mode im = ModeRGBA →
  1 ≤ width im < 2 ^ 31 → 1 ≤ height im < 2 ^ 31 →
  Reference.decode (Reference.encode im) = Some im.
Proof.
  intros (_ & _ & Hlen & Hall) Hmode Hw Hh.
  destruct im as [m w h px]. simpl in *. subst m.
  assert (Ew : 0 ≤ w < 2 ^ 32) by (change (2 ^ 32) with (2 * 2 ^ 31); lia).
  assert (Eh : 0 ≤ h < 2 ^ 32) by (change (2 ^ 32) with (2 * 2 ^ 31); lia).
  unfold Reference.encode, Reference.be32.
  cbn [app Reference.decode width height data].
  rewrite decode_encode_pixels by done. cbv zeta.
  rewrite !(of_be32_be32 w _ _ _ _ Ew eq_refl), !(of_be32_be32 h _ _ _ _ Eh eq_refl).
  rewrite bool_decide_eq_true_2; [done|]. lia.
Qed.

(** *** The rasterised disc lies within the inscribed circle *)

Lemma quarter_delta_circle a x y :
  Reference.quarter_delta a a x y = a * a * Z.abs (x * x + y * y - a * a).
Proof.
  unfold Reference.quarter_delta.
  replace (a * a * y * y + a * a * x * x - a * a * (a * a))
    with (a * a * (x * x + y * y - a * a)) by ring.
  rewrite Z.abs_mul. f_equal. apply Z.abs_eq. apply Z.square_nonneg.
Qed.

Lemma on_quarter_start a : 0 ≤ a → on_quarter a (a, a `mod` 2).
Proof.
  intros Ha. unfold on_quarter. cbn [fst snd].
  pose proof (Z.mod_pos_bound a 2 ltac:(lia)) as Hm.
  rewrite Z.mod_mod by lia.
  assert (Hsq : a `mod` 2 * (a `mod` 2) ≤ 1).
  { assert (a `mod` 2 = 0 ∨ a `mod` 2 = 1) as [->| ->] by lia; lia. }
  assert (a `mod` 2 ≤ a).
  { destruct (decide (a = 0)) as [->|]; [done|lia]. }
  split_and!; try done; try lia.
Qed.

Lemma on_quarter_next a c :
  on_quarter a c → c ≠ (a `mod` 2, a) → on_quarter a (Reference.quarter_next a a c).
Proof.
  destruct c as [cx cy]. unfold on_quarter. cbn [fst snd].
  intros (Hx & Hy & Hpx & Hpy & Hin) Hne.
  assert (Hcy2 : (cy + 2) `mod` 2 = a `mod` 2).
  { rewrite <- Hpy. replace (cy + 2) with (cy + 1 * 2) by lia. by rewrite Z.mod_add by lia. }
  assert (Hcx2 : (cx - 2) `mod` 2 = a `mod` 2).
  { rewrite <- Hpx. replace (cx - 2) with (cx + -1 * 2) by lia. by rewrite Z.mod_add by lia. }
  assert (Hup : cy ≠ a → cy + 2 ≤ a).
  { intros Hcy. pose proof (Z.div_mod cy 2 ltac:(lia)). pose proof (Z.div_mod a 2 ltac:(lia)).
    lia. }
  unfold Reference.quarter_next.
  case_bool_decide as Hcx.
  - (* three candidates *)
    assert (Ha : 0 < a * a) by nia.
    rewrite !quarter_delta_circle.
    set (D := cx * cx + cy * cy - a * a) in *.
    replace (cx * cx + (cy + 2) * (cy + 2) - a * a) with (D + 4 * cy + 4) by (unfold D; ring).
    replace ((cx - 2) * (cx - 2) + (cy + 2) * (cy + 2) - a * a)
      with (D + 4 * cy + 4 - 4 * cx + 4) by (unfold D; ring).
    replace ((cx - 2) * (cx - 2) + cy * cy - a * a)
      with (D - 4 * cx + 4) by (unfold D; ring).
    assert (HD : D ≤ 2 * a + 1) by (unfold D; lia).
    assert (Htop : cy = a → D = cx * cx) by (intros ->; unfold D; lia).
    pose proof (Z.square_nonneg cx) as Hsq.
    pose proof (Z.square_nonneg (cx - 2)) as Hsq2.
    set (dn := Z.abs (D + 4 * cy + 4)).
    set (d1 := Z.abs (D + 4 * cy + 4 - 4 * cx + 4)).
    set (d2 := Z.abs (D - 4 * cx + 4)).
    assert (Hlt : ∀ u v, a * a * u < a * a * v ↔ u < v).
    { intros u v. symmetry. by apply Z.mul_lt_mono_pos_l. }
    destruct (decide (d1 < dn)) as [H1|H1].
    + rewrite !(bool_decide_eq_true_2 (a * a * d1 < a * a * dn)) by (by apply Hlt).
      destruct (decide (d2 < d1)) as [H2|H2].
      * rewrite bool_decide_eq_true_2 by (by apply Hlt). cbn [fst snd].
        split_and!; try done; try lia; unfold d1, d2, dn, D in *; lia.
      * rewrite bool_decide_eq_false_2 by (by rewrite Hlt). cbn [fst snd].
        assert (cy ≠ a).
        { intros ->. specialize (Htop eq_refl). unfold d1, d2 in *. lia. }
        specialize (Hup ltac:(done)).
        split_and!; try done; try lia; unfold d1, d2, dn, D in *; lia.
    + rewrite !(bool_decide_eq_false_2 (a * a * d1 < a * a * dn)) by (by rewrite Hlt).
      destruct (decide (d2 < dn)) as [H2|H2].
      * rewrite bool_decide_eq_true_2 by (by apply Hlt). cbn [fst snd].
        split_and!; try done; try lia; unfold d1, d2, dn, D in *; lia.
      * rewrite bool_decide_eq_false_2 by (by rewrite Hlt). cbn [fst snd].
        assert (cy ≠ a).
        { intros ->. specialize (Htop eq_refl). unfold d1, d2, dn in *. lia. }
        specialize (Hup ltac:(done)).
        split_and!; try done; try lia; unfold d1, d2, dn, D in *; lia.
  - (* the last column: straight up *)
    cbn [fst snd].
    assert (Hcxa : cx = a `mod` 2).
    { pose proof (Z.mod_pos_bound a 2 ltac:(lia)).
      rewrite <- Hpx. symmetry. apply Z.mod_small. lia. }
    assert (cy ≠ a) by (intros ->; apply Hne; by rewrite Hcxa).
    specialize (Hup ltac:(done)).
    assert (cx * cx ≤ 1) by (assert (cx = 0 ∨ cx = 1) as [->| ->] by lia; lia).
    pose proof (Z.mul_le_mono_nonneg (cy + 2) a (cy + 2) a ltac:(lia) ltac:(lia)
                  ltac:(lia) ltac:(lia)).
    split_and!; try done; try lia.
Qed.

Lemma on_quarter_points fuel a c :
  on_quarter a c → Forall (on_quarter a) (Reference.quarter_points fuel a a c).
Proof.
  revert c. induction fuel as [|n IH]; intros c Hc; cbn [Reference.quarter_points];
    (apply Forall_cons; split; [done|]).
  - apply Forall_nil_2.
  - case_bool_decide; [apply Forall_nil_2|].
    apply IH. by apply on_quarter_next.
Qed.

(** A pixel the rasteriser covers for a square bounding box lies in the
    box, and its centre lies within the circle inscribed in the square of
    the pixels of the box. *)
Lemma reference_ellipse_inscribed x0 y0 x1 y1 x y :
  x1 - x0 = y1 - y0 →
  Reference.ellipse_covers (x0, y0, x1, y1) x y = true →
  x0 ≤ x ≤ x1 ∧ y0 ≤ y ≤ y1 ∧
  (2 * x - (x0 + x1)) ^ 2 + (2 * y - (y0 + y1)) ^ 2 ≤ (x1 - x0 + 1) ^ 2.
Proof.
  intros Hsq. unfold Reference.ellipse_covers. rewrite <- Hsq.
  set (a := x1 - x0) in *.
  intros Hc. apply andb_true_iff in Hc as [Hbox Hex].
  apply bool_decide_eq_true_1 in Hbox. split; [lia|]. split; [lia|].
  apply existsb_exists in Hex as (c & Hin & Hc).
  apply bool_decide_eq_true_1 in Hc. destruct Hc as [Hy Hx].
  assert (0 ≤ a) by lia.
  pose proof (on_quarter_points (Z.to_nat (a + a)) a (a, a `mod` 2) (on_quarter_start a ltac:(done)))
    as Hall.
  rewrite Forall_forall in Hall. apply list_elem_of_In in Hin.
  destruct (Hall _ Hin) as (Hcx & Hcy & _ & _ & Hle).
  replace (2 * x - (x0 + x1)) with (2 * (x - x0) - a) by (unfold a; lia).
  replace (2 * y - (y0 + y1)) with (2 * (y - y0) - a) by (unfold a; lia).
  set (X := 2 * (x - x0) - a) in *. set (Y := 2 * (y - y0) - a) in *.
  assert (X * X ≤ c.1 * c.1).
  { rewrite <- Z.abs_square. apply Z.mul_le_mono_nonneg; lia. }
  assert (Y * Y = c.2 * c.2).
  { rewrite <- Z.abs_square. by rewrite Hy. }
  rewrite !Z.pow_2_r. lia.
Qed.

#[global] Instance reference_imaging : Imaging := {|
  decode := Reference.decode;
  convert_RGBA := Reference.convert_RGBA;
  resample_LANCZOS := Reference.resample;
  ellipse_covers := Reference.ellipse_covers;
  png_encode := Reference.encode;
  decode_wf := reference_decode_wf;
  convert_RGBA_spec := reference_convert_spec;
  convert_RGBA_id := reference_convert_id;
  resample_spec := reference_resample_spec;
  resample_uniform := reference_resample_uniform;
  ellipse_inscribed := reference_ellipse_inscribed;
  png_roundtrip := reference_roundtrip
|}.

(** *** Binary64 rounding, in integers *)

Lemma digits2_pos_bounds p :
  2 ^ (Z.pos (digits2_pos p) - 1) ≤ Z.pos p < 2 ^ Z.pos (digits2_pos p).
Proof.
  induction p as [p IH|p IH|]; cbn [digits2_pos].
  - rewrite Pos2Z.inj_succ.
    replace (Z.succ (Z.pos (digits2_pos p)) - 1) with (Z.succ (Z.pos (digits2_pos p) - 1)) by lia.
    rewrite !Z.pow_succ_r by lia. lia.
  - rewrite Pos2Z.inj_succ.
    replace (Z.succ (Z.pos (digits2_pos p)) - 1) with (Z.succ (Z.pos (digits2_pos p) - 1)) by lia.
    rewrite !Z.pow_succ_r by lia. lia.
  - simpl. lia.
Qed.

Lemma digits2_pos_unique p d :
  2 ^ (d - 1) ≤ Z.pos p < 2 ^ d → Z.pos (digits2_pos p) = d.
Proof.
  intros [Hlo Hhi]. pose proof (digits2_pos_bounds p) as [Hlo' Hhi'].
  destruct (decide (d ≤ 0)) as [Hd|Hd].
  { assert (2 ^ d ≤ 2 ^ 0) by (destruct (decide (d < 0)); [rewrite Z.pow_neg_r by lia; simpl; lia | apply Z.pow_le_mono_r; lia]).
    simpl in *. lia. }
  destruct (Z.lt_trichotomy (Z.pos (digits2_pos p)) d) as [Hlt|[Heq|Hgt]]; [|done|].
  - assert (2 ^ Z.pos (digits2_pos p) ≤ 2 ^ (d - 1)) by (apply Z.pow_le_mono_r; lia). lia.
  - assert (2 ^ d ≤ 2 ^ (Z.pos (digits2_pos p) - 1)) by (apply Z.pow_le_mono_r; lia). lia.
Qed.

Lemma iter_pos_nat {A} (f : A → A) p x :
  SpecFloat.iter_pos f p x = Nat.iter (Pos.to_nat p) f x.
Proof.
  revert x. induction p as [p IH|p IH|]; intros x; cbn [SpecFloat.iter_pos].
  - rewrite !IH. rewrite Pos2Nat.inj_xI.
    replace (S (2 * Pos.to_nat p)) with (Pos.to_nat p + S (Pos.to_nat p))%nat by lia.
    rewrite Nat.iter_add. by rewrite Nat.iter_succ_r.
  - rewrite !IH. rewrite Pos2Nat.inj_xO.
    replace (2 * Pos.to_nat p)%nat with (Pos.to_nat p + Pos.to_nat p)%nat by lia.
    by rewrite Nat.iter_add.
  - done.
Qed.

Lemma shr_1_nonneg m r s :
  0 ≤ m → shr_1 (Build_shr_record m r s) = Build_shr_record (m `div` 2) (Z.odd m) (r || s).
Proof.
  intros Hm. destruct m as [|[p|p|]|]; try done; cbn [shr_1].
  - f_equal. rewrite Pos2Z.inj_xI. apply Z.div_unique with 1; lia.
  - f_equal. rewrite Pos2Z.inj_xO. apply Z.div_unique with 0; lia.
Qed.

Lemma shr_iter m n :
  0 ≤ m →
  Nat.iter n shr_1 (Build_shr_record m false false) =
  Build_shr_record (m `div` 2 ^ Z.of_nat n)
    (rs_of (m `mod` 2 ^ Z.of_nat n) (Z.of_nat n)).1
    (rs_of (m `mod` 2 ^ Z.of_nat n) (Z.of_nat n)).2.
Proof.
  intros Hm. induction n as [|n IH].
  - simpl. rewrite Z.div_1_r, Z.mod_1_r. done.
  - rewrite Nat.iter_succ, IH. clear IH.
    rewrite shr_1_nonneg by (apply Z.div_pos; lia).
    rewrite Nat2Z.inj_succ. set (k := Z.of_nat n). assert (0 ≤ k) by lia.
    rewrite Z.pow_succ_r by done.
    assert (Hp : 0 < 2 ^ k) by (apply Z.pow_pos_nonneg; lia).
    set (q := m `div` 2 ^ k). set (r := m `mod` 2 ^ k).
    assert (Hm' : m = 2 ^ k * q + r) by (apply Z.div_mod; lia).
    assert (Hr : 0 ≤ r < 2 ^ k) by (apply Z.mod_pos_bound; lia).
    assert (Hq : q = 2 * (q `div` 2) + (if Z.odd q then 1 else 0)).
    { rewrite <- Z.div2_div. apply Z.div2_odd. }
    replace (m `div` (2 * 2 ^ k)) with (q `div` 2)
      by (unfold q; rewrite Z.div_div by lia; f_equal; lia).
    assert (Hmod : m `mod` (2 * 2 ^ k) = r + (if Z.odd q then 2 ^ k else 0)).
    { symmetry. apply Z.mod_unique with (q `div` 2); destruct (Z.odd q); nia. }
    rewrite Hmod. f_equal.
    + unfold rs_of. rewrite ?Z.pow_succ_r by done.
      destruct (Z.odd q); repeat case_bool_decide;
        repeat (match goal with |- context [?a ?= ?b] => destruct (Z.compare_spec a b) end);
        simpl; try done; try lia.
    + unfold rs_of. rewrite ?Z.pow_succ_r by done.
      destruct (Z.odd q); repeat case_bool_decide;
        repeat (match goal with |- context [?a ?= ?b] => destruct (Z.compare_spec a b) end);
        simpl; try done; try lia.
Qed.

Lemma shr_fexp_normal (m : positive) e k :
  k = Z.pos (digits2_pos m) - 53 → 0 ≤ k → -1074 ≤ e + k →
  shr_fexp 53 1024 (Z.pos m) e loc_Exact =
  (Build_shr_record (Z.pos m `div` 2 ^ k)
     (rs_of (Z.pos m `mod` 2 ^ k) k).1 (rs_of (Z.pos m `mod` 2 ^ k) k).2, e + k).
Proof.
  intros Hk Hk0 He. unfold shr_fexp, fexp, emin. cbn [Zdigits2 shr_record_of_loc].
  replace (Z.max (Z.pos (digits2_pos m) + e - 53) (3 - 1024 - 53) - e) with k by lia.
  destruct k as [|k'|k']; [| |lia].
  - cbn [shr]. rewrite Z.add_0_r. simpl. rewrite Z.div_1_r, Z.mod_1_r. done.
  - cbn [shr]. rewrite iter_pos_nat, shr_iter by lia.
    by rewrite positive_nat_Z.
Qed.

Lemma binary_round_aux_normal s (m : positive) e k :
  k = Z.pos (digits2_pos m) - 53 → 0 ≤ k → -1074 ≤ e + k → e + k ≤ 971 →
  2 ^ 52 ≤ rne_shift (Z.pos m) k < 2 ^ 53 →
  binary_round_aux 53 1024 s (Z.pos m) e loc_Exact =
  S754_finite s (Z.to_pos (rne_shift (Z.pos m) k)) (e + k).
Proof.
  intros Hk Hk0 He1 He2 Hq. unfold binary_round_aux.
  rewrite (shr_fexp_normal m e k) by done.
  cbn [shr_m]. fold (loc_of_rs (rs_of (Z.pos m `mod` 2 ^ k) k)).
  replace (loc_of_shr_record _) with (loc_of_rs (rs_of (Z.pos m `mod` 2 ^ k) k))
    by (unfold loc_of_rs; by destruct (rs_of _ _) as [[] []]).
  fold (rne_shift (Z.pos m) k).
  destruct (rne_shift (Z.pos m) k) as [|q|q] eqn:Eq; [simpl in Hq; lia| |lia].
  rewrite (shr_fexp_normal q (e + k) 0); [| |lia|lia].
  - cbn [shr_m]. rewrite Z.div_1_r, Z.add_0_r.
    rewrite (proj2 (Z.leb_le _ _)) by lia. done.
  - rewrite (digits2_pos_unique q 53); [lia|]. simpl (53 - 1). lia.
Qed.

Lemma pos_iter_xO p c : Z.pos (Pos.iter xO p c) = Z.pos p * 2 ^ Z.pos c.
Proof.
  induction c as [|c IH] using Pos.peano_ind.
  - simpl. lia.
  - rewrite Pos.iter_succ, Pos2Z.inj_xO, IH, Pos2Z.inj_succ, Z.pow_succ_r by lia. lia.
Qed.

Lemma binary_normalize_pos (n : Z) c :
  0 < n → 0 ≤ c → 2 ^ 52 ≤ n * 2 ^ c < 2 ^ 53 →
  binary_normalize 53 1024 n 0 false = S754_finite false (Z.to_pos (n * 2 ^ c)) (- c).
Proof.
  intros Hn Hc Hb. destruct n as [|p|p]; try lia.
  cbn [binary_normalize]. unfold binary_round.
  assert (Hd : Z.pos (digits2_pos p) = 53 - c).
  { apply digits2_pos_unique.
    assert (Hp : 0 < 2 ^ c) by (apply Z.pow_pos_nonneg; lia).
    assert (c ≤ 52).
    { destruct (decide (c ≤ 52)); [done|].
      assert (2 ^ 53 ≤ 2 ^ c) by (apply Z.pow_le_mono_r; lia). nia. }
    assert (E53 : 2 ^ 53 = 2 ^ (53 - c) * 2 ^ c).
    { rewrite <- Z.pow_add_r by lia. f_equal. lia. }
    assert (E52 : 2 ^ 52 = 2 ^ (53 - c - 1) * 2 ^ c).
    { rewrite <- Z.pow_add_r by lia. f_equal. lia. }
    split; nia. }
  unfold shl_align, fexp, emin. rewrite Hd.
  replace (Z.max (53 - c + 0 - 53) (3 - 1024 - 53) - 0) with (- c) by lia.
  destruct c as [|c'|c']; [| |lia].
  - change (- 0) with 0. cbv iota beta.
    rewrite (binary_round_aux_normal false p 0 0); unfold rne_shift;
      rewrite ?Z.div_1_r, ?Z.mod_1_r; simpl; try lia.
    + by rewrite Pos.mul_1_r.
  - change (- Z.pos c') with (Z.neg c'). cbv iota beta.
    rewrite (binary_round_aux_normal false _ _ 0); unfold rne_shift;
      rewrite ?Z.div_1_r, ?Z.mod_1_r, ?pos_iter_xO; simpl round_nearest_even; try lia.
    + rewrite Z.add_0_r. replace (Z.max (53 - Z.pos c' + 0 - 53) (3 - 1024 - 53)) with (Z.neg c') by lia.
      done.
    + rewrite (digits2_pos_unique _ 53); [lia|]. rewrite pos_iter_xO. simpl (53 - 1). lia.
Qed.

Lemma rne_shift_cases m k :
  let q := m `div` 2 ^ k in
  let r := m `mod` 2 ^ k in
  q ≤ rne_shift m k ≤ q + 1 ∧
  (r = 0 → rne_shift m k = q) ∧
  (2 ^ k < 2 * r → rne_shift m k = q + 1).
Proof.
  intros q r. unfold rne_shift, loc_of_rs, rs_of. fold q r.
  case_bool_decide as Hr0; simpl.
  - repeat split; intros; lia.
  - destruct (Z.compare_spec (2 * r) (2 ^ k)) as [He|Hl|Hg]; simpl.
    + destruct (Z.even q); repeat split; intros; lia.
    + repeat split; intros; lia.
    + repeat split; intros; lia.
Qed.

Lemma shift_exists n :
  1 ≤ n < 2 ^ 31 → ∃ c, 22 ≤ c ≤ 52 ∧ 2 ^ 52 ≤ n * 2 ^ c < 2 ^ 53.
Proof.
  intros Hn. destruct n as [|p|p]; try lia.
  pose proof (digits2_pos_bounds p) as [Hlo Hhi].
  set (d := Z.pos (digits2_pos p)) in *.
  assert (Hd1 : 1 ≤ d) by (unfold d; lia).
  assert (Hd : d ≤ 31).
  { destruct (decide (d ≤ 31)); [done|].
    assert (2 ^ 31 ≤ 2 ^ (d - 1)) by (apply Z.pow_le_mono_r; lia). lia. }
  exists (53 - d). split; [lia|].
  assert (Hp : 0 < 2 ^ (53 - d)) by (apply Z.pow_pos_nonneg; lia).
  assert (E53 : 2 ^ 53 = 2 ^ d * 2 ^ (53 - d)).
  { rewrite <- Z.pow_add_r by lia. f_equal. lia. }
  assert (E52 : 2 ^ 52 = 2 ^ (d - 1) * 2 ^ (53 - d)).
  { rewrite <- Z.pow_add_r by lia. f_equal. lia. }
  rewrite E53, E52. split; nia.
Qed.

Lemma int_mul_float_SCALE_FACTOR n :
  0 ≤ n < 2 ^ 31 → int_mul_float n ScaleIcons.SCALE_FACTOR = Ok (2 * n).
Proof.
  intros Hn. unfold int_mul_float, float_of_int.
  destruct (decide (n = 0)) as [->|Hn0]; [done|].
  destruct (shift_exists n) as (c & Hc & Hb); [lia|].
  rewrite (binary_normalize_pos n c) by lia.
  set (X := n * 2 ^ c) in *.
  destruct X as [|mx|mx] eqn:EX; try lia.
  unfold ScaleIcons.SCALE_FACTOR. cbn [SFmul xorb Z.to_pos].
  change 4503599627370496%positive with (Z.to_pos (2 ^ 52)).
  assert (Hm : Z.pos (mx * Z.to_pos (2 ^ 52)) = Z.pos mx * 2 ^ 52) by (simpl; lia).
  assert (Hq : Z.pos (mx * Z.to_pos (2 ^ 52)) `div` 2 ^ 52 = Z.pos mx)
    by (rewrite Hm; apply Z.div_mul; lia).
  assert (Hr : Z.pos (mx * Z.to_pos (2 ^ 52)) `mod` 2 ^ 52 = 0)
    by (rewrite Hm; apply Z.mod_mul; lia).
  assert (Hrne : rne_shift (Z.pos (mx * Z.to_pos (2 ^ 52))) 52 = Z.pos mx).
  { destruct (rne_shift_cases (Z.pos (mx * Z.to_pos (2 ^ 52))) 52) as (_ & H0 & _).
    rewrite H0 by done. done. }
  rewrite (binary_round_aux_normal false _ _ 52); rewrite ?Hrne; try lia.
  - cbn [int_of_float Z.to_pos]. rewrite bool_decide_eq_false_2 by lia.
    f_equal. replace (- (- c + -51 + 52)) with (c - 1) by lia.
    assert (Hp : 0 < 2 ^ (c - 1)) by (apply Z.pow_pos_nonneg; lia).
    assert (Ec : 2 ^ c = 2 * 2 ^ (c - 1)).
    { rewrite <- Z.pow_succ_r by lia. f_equal. lia. }
    symmetry. apply Z.div_unique_exact; [lia|]. rewrite <- EX. unfold X. rewrite Ec. lia.
  - rewrite (digits2_pos_unique _ 105); [lia|]. rewrite Hm.
    change (2 ^ (105 - 1)) with (2 ^ 52 * 2 ^ 52).
    change (2 ^ 105) with (2 ^ 53 * 2 ^ 52). lia.
Qed.

Lemma int_of_round (m : positive) e k t :
  k = Z.pos (digits2_pos m) - 53 → 0 ≤ k → t = - (e + k) → 2 ≤ t ≤ 1074 →
  2 ^ 52 ≤ rne_shift (Z.pos m) k ≤ 2 ^ 53 →
  int_of_float (binary_round_aux 53 1024 false (Z.pos m) e loc_Exact) =
  Ok (rne_shift (Z.pos m) k `div` 2 ^ t).
Proof.
  intros Hk Hk0 Ht Ht1 Hq.
  destruct (decide (rne_shift (Z.pos m) k < 2 ^ 53)) as [Hlt|Hge].
  - rewrite (binary_round_aux_normal false m e k) by lia.
    cbn [int_of_float]. rewrite bool_decide_eq_false_2 by lia.
    rewrite Z2Pos.id by lia. do 3 f_equal. lia.
  - assert (Heq : rne_shift (Z.pos m) k = 2 ^ 53) by lia.
    unfold binary_round_aux.
    rewrite (shr_fexp_normal m e k) by lia.
    cbn [shr_m].
    replace (loc_of_shr_record _) with (loc_of_rs (rs_of (Z.pos m `mod` 2 ^ k) k))
      by (unfold loc_of_rs; by destruct (rs_of _ _) as [[] []]).
    fold (rne_shift (Z.pos m) k). rewrite Heq.
    change (2 ^ 53) with (Z.pos (Z.to_pos (2 ^ 53))).
    rewrite (shr_fexp_normal _ (e + k) 1); [|done|lia|lia].
    cbn [shr_m]. change (Z.pos (Z.to_pos (2 ^ 53)) `div` 2 ^ 1) with (Z.pos (Z.to_pos (2 ^ 52))).
    cbv iota beta. rewrite (proj2 (Z.leb_le _ _)) by lia.
    cbn [int_of_float]. rewrite bool_decide_eq_false_2 by lia.
    f_equal. replace (- (e + k + 1)) with (t - 1) by lia.
    change (Z.pos (Z.to_pos (2 ^ 53))) with (2 ^ 53).
    change (Z.pos (Z.to_pos (2 ^ 52))) with (2 ^ 52).
    destruct (decide (t ≤ 53)) as [Hle|Hgt].
    + replace (2 ^ 53) with (2 ^ (53 - t) * 2 ^ t)
        by (rewrite <- Z.pow_add_r by lia; f_equal; lia).
      replace (2 ^ 52) with (2 ^ (53 - t) * 2 ^ (t - 1))
        by (rewrite <- Z.pow_add_r by lia; f_equal; lia).
      rewrite !Z.div_mul; [done| |]; apply Z.pow_nonzero; lia.
    + rewrite !Z.div_small; [done| |]; (split; [lia|]); apply Z.pow_lt_mono_r; lia.
Qed.

Lemma int_mul_float_LOGO_SCALE n :
  0 ≤ n < 2 ^ 31 →
  int_mul_float n CircularIcons.LOGO_SCALE = Ok ((72 * n) `div` 100).
Proof.
  intros Hn. unfold int_mul_float, float_of_int.
  destruct (decide (n = 0)) as [->|Hn0]; [done|].
  destruct (shift_exists n) as (c & Hc & Hb); [lia|].
  rewrite (binary_normalize_pos n c) by lia.
  assert (HA : 2 ^ 22 ≤ 2 ^ c) by (apply Z.pow_le_mono_r; lia).
  assert (HA2 : 2 ^ (c + 1) = 2 * 2 ^ c) by (rewrite Z.pow_add_r by lia; lia).
  set (A := 2 ^ c) in *.
  set (tg := (72 * n) `div` 100).
  assert (Htg : 25 * tg ≤ 18 * n ≤ 25 * tg + 24).
  { pose proof (Z.div_mod (72 * n) 100 ltac:(lia)) as Hdm.
    pose proof (Z.mod_pos_bound (72 * n) 100 ltac:(lia)). fold tg in Hdm. lia. }
  set (X := n * A) in *. set (Y := A * tg).
  assert (HY1 : 25 * Y ≤ 18 * X ≤ 25 * Y + 24 * A) by (unfold X, Y; nia).
  assert (HY2 : 18 * n = 25 * tg → 18 * X = 25 * Y) by (unfold X, Y; nia).
  assert (HY3 : 18 * n ≠ 25 * tg → 25 * Y + A ≤ 18 * X) by (unfold X, Y; nia).
  assert (HY0 : 0 ≤ Y) by (unfold Y; apply Z.mul_nonneg_nonneg; [lia | apply Z.div_pos; lia]).
  destruct X as [|mx|mx] eqn:EX; [lia| |lia].
  unfold CircularIcons.LOGO_SCALE. cbn [SFmul xorb Z.to_pos].
  assert (Hm : Z.pos (mx * 6485183463413514) = Z.pos mx * 6485183463413514) by lia.
  set (P := Z.pos (mx * 6485183463413514)) in *.
  change (2 ^ 52) with 4503599627370496 in *.
  change (2 ^ 53) with 9007199254740992 in *.
  change (2 ^ 22) with 4194304 in *.
  destruct (decide (P < 2 ^ 105)) as [Hlt|Hge].
  - (* 105 digits: shift by 52 *)
    assert (Hd : Z.pos (digits2_pos (mx * 6485183463413514)) = 105).
    { apply digits2_pos_unique. fold P. change (2 ^ (105 - 1)) with (2 ^ 104).
      change (2 ^ 104) with 20282409603651670423947251286016.
      change (2 ^ 105) with 40564819207303340847894502572032 in *. lia. }
    change (2 ^ 105) with 40564819207303340847894502572032 in *.
    pose proof (rne_shift_cases P 52) as (Hq1 & _ & Hq3).
    pose proof (Z.div_mod P (2 ^ 52) ltac:(lia)) as Hdm.
    pose proof (Z.mod_pos_bound P (2 ^ 52) ltac:(lia)) as Hr.
    cbv zeta in Hq1, Hq3.
    set (q := P `div` 2 ^ 52) in *. set (r := P `mod` 2 ^ 52) in *.
    change (2 ^ 52) with 4503599627370496 in *.
    unfold P at 1. rewrite (int_of_round _ _ 52 (c + 1)); fold P; try lia.
    f_equal. rewrite HA2. fold A.
    destruct (decide (18 * n = 25 * tg)) as [Hdiv|Hndiv].
    + specialize (HY2 Hdiv). rewrite Hq3 by lia.
      replace (q + 1) with (tg * (2 * A)) by (unfold Y in *; lia).
      apply Z.div_mul. lia.
    + specialize (HY3 Hndiv).
      symmetry. apply Z.div_unique with (rne_shift P 52 - 2 * Y); [|unfold Y; lia].
      left. lia.
  - (* 106 digits: shift by 53 *)
    assert (Hd : Z.pos (digits2_pos (mx * 6485183463413514)) = 106).
    { apply digits2_pos_unique. fold P. change (2 ^ (106 - 1)) with (2 ^ 105).
      change (2 ^ 106) with 81129638414606681695789005144064.
      change (2 ^ 105) with 40564819207303340847894502572032 in *. lia. }
    change (2 ^ 105) with 40564819207303340847894502572032 in *.
    pose proof (rne_shift_cases P 53) as (Hq1 & _ & Hq3).
    pose proof (Z.div_mod P (2 ^ 53) ltac:(lia)) as Hdm.
    pose proof (Z.mod_pos_bound P (2 ^ 53) ltac:(lia)) as Hr.
    cbv zeta in Hq1, Hq3.
    set (q := P `div` 2 ^ 53) in *. set (r := P `mod` 2 ^ 53) in *.
    change (2 ^ 53) with 9007199254740992 in *.
    unfold P at 1. rewrite (int_of_round _ _ 53 c); fold P; try lia.
    f_equal. fold A.
    destruct (decide (18 * n = 25 * tg)) as [Hdiv|Hndiv].
    + specialize (HY2 Hdiv). rewrite Hq3 by lia.
      replace (q + 1) with (tg * A) by (unfold Y in *; lia).
      apply Z.div_mul. lia.
    + specialize (HY3 Hndiv).
      symmetry. apply Z.div_unique with (rne_shift P 53 - Y); [|unfold Y; lia].
      left. lia.
Qed.

(** *** The compositing functions, pixel by pixel *)

Section compose_facts.
Context `{Imaging}.

Lemma Image_new_Ok {P} m w h (c : P) im :
  Image_new m (w, h) c = Ok im →
  0 ≤ w ≤ MAX_WIDTH ∧ 0 ≤ h < 2 ^ 31 ∧ im = Image m w h (tabulate w h (λ _ _, c)).
Proof.
  unfold Image_new. repeat case_bool_decide; intros; simplify_eq.
  split_and!; try lia; done.
Qed.

Lemma Image_new_square {P} m size (c : P) :
  0 ≤ size ≤ MAX_WIDTH →
  Image_new m (size, size) c = Ok (Image m size size (tabulate size size (λ _ _, c))).
Proof.
  intros Hs. unfold Image_new.
  assert (MAX_WIDTH < 2 ^ 31) by (by vm_compute).
  rewrite !bool_decide_eq_false_2; [done|lia..].
Qed.

Lemma draw_ellipse_Ok {P} (im : image P) x0 y0 x1 y1 ink out :
  draw_ellipse im (x0, y0, x1, y1) ink = Ok out →
  x0 ≤ x1 ∧ y0 ≤ y1 ∧
  out = Image (mode im) (width im) (height im)
          (tabulate (width im) (height im) (λ x y,
             if ellipse_covers (x0, y0, x1, y1) x y then ink else pixel_at ink im x y)).
Proof.
  unfold draw_ellipse. case_bool_decide; intros; simplify_eq.
  split_and!; try lia; done.
Qed.

Lemma pixel_paste_core dst src dx dy mval x y :
  0 ≤ x < width dst → 0 ≤ y < height dst →
  pixel (paste_core dst src dx dy mval) x y =
  if in_bounds src (x - dx) (y - dy)
  then blend_rgba (mval (x - dx) (y - dy)) (pixel dst x y) (pixel src (x - dx) (y - dy))
  else pixel dst x y.
Proof. intros Hx Hy. unfold pixel at 1, paste_core. by rewrite pixel_at_tabulate. Qed.

Lemma MAX_WIDTH_lt : MAX_WIDTH < 2 ^ 31.
Proof. by vm_compute. Qed.

Lemma Image_resize_Ok im w h out :
  wf_image im → mode im = ModeRGBA → 1 ≤ width im → 1 ≤ height im →
  Image_resize im (w, h) = Ok out →
  1 ≤ w ∧ 1 ≤ h ∧ wf_image out ∧ mode out = ModeRGBA ∧ width out = w ∧ height out = h.
Proof.
  intros Hwf Hm Hw Hh. unfold Image_resize.
  case_bool_decide as Hsame.
  - intros [= <-]. destruct Hsame as [<- <-]. split_and!; done.
  - case_bool_decide as Hfit; [done|].
    case_bool_decide as Hsmall; [done|].
    case_bool_decide as Hline; [done|]. intros [= <-].
    destruct (resample_spec im w h) as (? & ? & ? & ?); [done|done|lia..|].
    split_and!; [lia|lia|done..].
Qed.

Lemma Image_resize_total im w h :
  1 ≤ w ≤ MAX_WIDTH → 1 ≤ h < 2 ^ 31 → ∃ out, Image_resize im (w, h) = Ok out.
Proof.
  intros Hw Hh. pose proof MAX_WIDTH_lt as HMW. unfold Image_resize.
  case_bool_decide; [by eexists|].
  rewrite !bool_decide_eq_false_2 by lia. by eexists.
Qed.

Lemma in_bounds_true {P} (im : image P) x y :
  0 ≤ x < width im → 0 ≤ y < height im → in_bounds im x y = true.
Proof. intros. unfold in_bounds. by rewrite bool_decide_eq_true_2. Qed.

Lemma compose_circular_icon_Ok logo size is_round out :
  wf_image logo → mode logo = ModeRGBA → 1 ≤ width logo → 1 ≤ height logo →
  CircularIcons.compose_circular_icon logo size is_round = Ok out →
  ∃ logo_resized,
    let logo_size := (72 * size) `div` 100 in
    2 ≤ size ≤ MAX_WIDTH ∧
    Image_resize logo (logo_size, logo_size) = Ok logo_resized ∧
    wf_image logo_resized ∧
    width logo_resized = logo_size ∧ height logo_resized = logo_size ∧
    wf_image out ∧ mode out = ModeRGBA ∧ width out = size ∧ height out = size ∧
    ∀ x y, 0 ≤ x < size → 0 ≤ y < size →
      pixel out x y =
      (if is_round then round_pixel else standard_pixel)
        logo_resized ((size - logo_size) `div` 2) size x y.
Proof.
  intros Hwf Hmode Hw Hh. unfold CircularIcons.compose_circular_icon.
  destruct (Image_new ModeRGBA (size, size) transparent) as [canvas|] eqn:Hnew; [|done].
  apply Image_new_Ok in Hnew as (Hsize & _ & ->).
  destruct (draw_ellipse _ _ black) as [canvas|] eqn:Hdraw; [|done].
  apply draw_ellipse_Ok in Hdraw as (Hs1 & _ & ->). cbn [mode width height] in *.
  pose proof MAX_WIDTH_lt as HMW.
  rewrite int_mul_float_LOGO_SCALE by lia.
  set (logo_size := (72 * size) `div` 100).
  destruct (Image_resize logo (logo_size, logo_size)) as [logo_resized|] eqn:Hres; [|done].
  pose proof Hres as Hres'.
  apply Image_resize_Ok in Hres' as (Hls & _ & Hwfr & Hmr & Hwr & Hhr); try done.
  assert (Hsize2 : 2 ≤ size).
  { destruct (decide (size = 1)) as [->|]; [|lia].
    change logo_size with 0 in Hls. lia. }
  unfold paste_mask_RGBA. rewrite bool_decide_eq_true_2 by done.
  set (pos := (size - logo_size) `div` 2). cbn [fst snd].
  set (canvas := Image ModeRGBA size size
                  (tabulate size size (λ x y, if ellipse_covers _ x y then black else _))).
  assert (Hcanvas : ∀ x y, 0 ≤ x < size → 0 ≤ y < size →
            pixel canvas x y = background_pixel size x y).
  { intros x y Hx Hy. unfold pixel, canvas. rewrite pixel_at_tabulate by done.
    unfold background_pixel, circle_box. destruct (ellipse_covers _ x y); [done|].
    by rewrite pixel_at_tabulate. }
  assert (Hwfc : wf_image canvas).
  { apply wf_tabulate; [lia..|]. intros x y Hx Hy.
    destruct (ellipse_covers _ x y); [apply black_bytes|].
    rewrite pixel_at_tabulate by done. apply transparent_bytes. }
  set (composite := paste_core canvas logo_resized pos pos _).
  assert (Hcomp : ∀ x y, 0 ≤ x < size → 0 ≤ y < size →
            pixel composite x y = standard_pixel logo_resized pos size x y).
  { intros x y Hx Hy. unfold composite. rewrite pixel_paste_core by done.
    unfold standard_pixel. by rewrite Hcanvas. }
  assert (Hwfcomp : wf_image composite) by (by apply wf_paste_core).
  destruct is_round.
  - destruct (Image_new ModeL (size, size) 0) as [mask|] eqn:Hmask; [|done].
    apply Image_new_Ok in Hmask as (_ & _ & ->).
    destruct (draw_ellipse _ _ 255) as [mask|] eqn:Hdm; [|done].
    apply draw_ellipse_Ok in Hdm as (_ & _ & ->). cbn [mode width height] in *.
    unfold paste_mask_L. cbn [mode width height fst snd].
    rewrite bool_decide_eq_true_2 by done. intros [= <-].
    exists logo_resized. split_and!; try done; try lia.
    + apply wf_paste_core, wf_tabulate; [lia..|]. intros. apply transparent_bytes.
    + intros x y Hx Hy. rewrite pixel_paste_core by done.
      rewrite !Z.sub_0_r. rewrite in_bounds_true by done.
      unfold round_pixel. rewrite Hcomp by done. f_equal.
      * unfold level. rewrite pixel_at_tabulate by done. unfold circle_box.
        destruct (ellipse_covers _ x y); [done|]. by rewrite pixel_at_tabulate.
      * unfold pixel. by rewrite pixel_at_tabulate.
  - intros [= <-]. exists logo_resized. split_and!; try done; lia.
Qed.

Lemma compose_circular_icon_total logo size is_round :
  wf_image logo → mode logo = ModeRGBA → 1 ≤ width logo → 1 ≤ height logo →
  2 ≤ size ≤ MAX_WIDTH →
  ∃ out, CircularIcons.compose_circular_icon logo size is_round = Ok out.
Proof.
  intros Hwf Hmode Hw Hh Hsize. unfold CircularIcons.compose_circular_icon.
  pose proof MAX_WIDTH_lt as HMW.
  rewrite !Image_new_square by lia.
  unfold draw_ellipse. rewrite !bool_decide_eq_false_2 by lia.
  rewrite int_mul_float_LOGO_SCALE by lia.
  assert (Hls : 1 ≤ (72 * size) `div` 100 ≤ size).
  { split; [apply Z.div_le_lower_bound; lia|].
    apply Z.div_le_upper_bound; lia. }
  destruct (Image_resize_total logo ((72 * size) `div` 100) ((72 * size) `div` 100))
    as [logo_resized ->]; [lia..|].
  unfold paste_mask_RGBA, paste_mask_L. cbn [width height].
  rewrite !bool_decide_eq_true_2 by done.
  destruct is_round; by eexists.
Qed.

Lemma compose_scaled_icon_Ok img canvas_size out :
  wf_image img → mode img = ModeRGBA → 1 ≤ width img → 1 ≤ height img →
  ScaleIcons.compose_scaled_icon img canvas_size = Ok out →
  ∃ img_scaled,
    let new_size := 2 * canvas_size in
    1 ≤ canvas_size ≤ MAX_WIDTH ∧
    int_mul_float canvas_size ScaleIcons.SCALE_FACTOR = Ok new_size ∧
    Image_resize img (new_size, new_size) = Ok img_scaled ∧
    wf_image img_scaled ∧
    width img_scaled = new_size ∧ height img_scaled = new_size ∧
    wf_image out ∧ mode out = ModeRGBA ∧
    width out = canvas_size ∧ height out = canvas_size ∧
    ∀ x y, 0 ≤ x < canvas_size → 0 ≤ y < canvas_size →
      pixel out x y = scaled_pixel img_scaled ((canvas_size - new_size) `div` 2) x y.
Proof.
  intros Hwf Hmode Hw Hh. unfold ScaleIcons.compose_scaled_icon.
  destruct (int_mul_float canvas_size _) as [new_size|] eqn:Hmul; [|done].
  destruct (Image_resize img (new_size, new_size)) as [img_scaled|] eqn:Hres; [|done].
  destruct (Image_new ModeRGBA _ transparent) as [canvas|] eqn:Hnew; [|done].
  apply Image_new_Ok in Hnew as (Hsize & _ & ->).
  pose proof MAX_WIDTH_lt as HMW.
  rewrite int_mul_float_SCALE_FACTOR in Hmul by lia. injection Hmul as <-.
  pose proof Hres as Hres'.
  apply Image_resize_Ok in Hres' as (Hns & _ & Hwfs & Hms & Hws & Hhs); try done.
  unfold paste_mask_RGBA. rewrite bool_decide_eq_true_2 by done. intros [= <-].
  exists img_scaled. cbn [fst snd mode width height].
  split_and!; try done; try lia.
  - apply wf_paste_core, wf_tabulate; [lia..|]. intros. apply transparent_bytes.
  - intros x y Hx Hy. rewrite pixel_paste_core by done.
    unfold scaled_pixel.
    assert (Hc : pixel (Image ModeRGBA canvas_size canvas_size
                   (tabulate canvas_size canvas_size (λ _ _, transparent))) x y
                 = transparent) by (unfold pixel; by rewrite pixel_at_tabulate).
    by rewrite Hc.
Qed.

Lemma compose_scaled_icon_total img canvas_size :
  1 ≤ canvas_size ∧ 2 * canvas_size ≤ MAX_WIDTH →
  ∃ out, ScaleIcons.compose_scaled_icon img canvas_size = Ok out.
Proof.
  intros Hsize. unfold ScaleIcons.compose_scaled_icon.
  pose proof MAX_WIDTH_lt as HMW.
  rewrite int_mul_float_SCALE_FACTOR by lia.
  destruct (Image_resize_total img (2 * canvas_size) (2 * canvas_size)) as [img_scaled ->];
    [lia..|].
  rewrite Image_new_square by lia.
  unfold paste_mask_RGBA. rewrite bool_decide_eq_true_2 by done. by eexists.
Qed.

Lemma resize_splash_logo_Ok img size out :
  wf_image img → 1 ≤ width img → 1 ≤ height img →
  SplashScreens.resize_splash_logo img size = Ok out →
  1 ≤ size ∧ wf_image out ∧ mode out = ModeRGBA ∧ width out = size ∧ height out = size.
Proof.
  intros Hwf Hw Hh. unfold SplashScreens.resize_splash_logo.
  destruct (convert_RGBA_spec img Hwf) as (Hwfc & Hmc & Hwc & Hhc).
  case_bool_decide as Hm; intros Hres.
  - apply Image_resize_Ok in Hres; [|done|done|lia..].
    destruct Hres as (? & ? & ? & ? & ? & ?). split_and!; done.
  - assert (Hmode : mode img = ModeRGBA) by (by destruct (decide (mode img = ModeRGBA))).
    apply Image_resize_Ok in Hres; [|done..].
    destruct Hres as (? & ? & ? & ? & ? & ?). split_and!; done.
Qed.

Lemma resize_splash_logo_total img size :
  1 ≤ size ≤ MAX_WIDTH → ∃ out, SplashScreens.resize_splash_logo img size = Ok out.
Proof.
  intros Hs. pose proof MAX_WIDTH_lt as HMW.
  unfold SplashScreens.resize_splash_logo. apply Image_resize_total; lia.
Qed.

End compose_facts.

(** *** The scripts' functions as steps on the world *)

Section step_facts.
Context `{Imaging}.

Lemma write_file_Ok p b w w' :
  write_file p b w = (Ok (), w') →
  w' = World (<[p := File b]> (fs w)) (stdout w) ∧
  fs w !! p ≠ Some Dir ∧
  (dirname p = EmptyString ∨ fs w !! dirname p = Some Dir).
Proof.
  unfold write_file. intros Hw.
  destruct (dirname p) as [|c d] eqn:Hd.
  - destruct (fs w !! p) as [[|?]|] eqn:Hp; simplify_eq; split_and!; auto.
  - destruct (fs w !! String c d) as [[|?]|] eqn:Hdir; simplify_eq.
    destruct (fs w !! p) as [[|?]|] eqn:Hp; simplify_eq; split_and!; auto.
Qed.

Lemma write_file_Raise p b w e w' :
  write_file p b w = (Raise e, w') → w' = w.
Proof.
  unfold write_file. intros Hw.
  destruct (dirname p) as [|c d] eqn:Hd.
  - destruct (fs w !! p) as [[|?]|] eqn:Hp; by simplify_eq.
  - destruct (fs w !! String c d) as [[|?]|] eqn:Hdir; simplify_eq; try done;
      destruct (fs w !! p) as [[|?]|] eqn:Hp; by simplify_eq.
Qed.

Lemma write_file_run p b w :
  dirname p = EmptyString ∨ fs w !! dirname p = Some Dir →
  fs w !! p ≠ Some Dir →
  write_file p b w = (Ok (), World (<[p := File b]> (fs w)) (stdout w)).
Proof.
  unfold write_file. intros Hd Hp.
  destruct (dirname p) as [|c d] eqn:Hdn.
  - destruct (fs w !! p) as [[|?]|]; done.
  - destruct Hd as [Hd|Hd]; [done|]. rewrite Hd. destruct (fs w !! p) as [[|?]|]; done.
Qed.

Ltac unfold_M :=
  unfold mbind, M_bind, mret, M_ret, lift, print, path_exists, Image_open, Image_save.

Lemma create_circular_icon_Ok source_path output_path size is_round w w' :
  CircularIcons.create_circular_icon source_path output_path size is_round w = (Ok (), w') →
  ∃ b logo img,
    fs w !! source_path = Some (File b) ∧ decode b = Some logo ∧
    CircularIcons.compose_circular_icon (convert_RGBA logo) size is_round = Ok img ∧
    fs w !! output_path ≠ Some Dir ∧
    (dirname output_path = EmptyString ∨ fs w !! dirname output_path = Some Dir) ∧
    w' = World (<[output_path := File (png_encode img)]> (fs w))
               (stdout w ++ [CircularIcons.created_message output_path size is_round]).
Proof.
  unfold CircularIcons.create_circular_icon, CircularIcons.compose_circular_icon.
  unfold_M. intros Hrun.
  destruct (Image_new ModeRGBA (size, size) transparent) as [canvas0|]; [|done].
  destruct (draw_ellipse canvas0 _ black) as [canvas1|]; [|done].
  destruct (fs w !! source_path) as [[|b]|] eqn:Hsrc; [done| |done].
  destruct (decode b) as [logo|] eqn:Hdec; [|done].
  exists b, logo.
  destruct (int_mul_float size _) as [logo_size|]; [|done].
  destruct (Image_resize _ _) as [logo_resized|]; [|done].
  destruct (paste_mask_RGBA _ _ _ _) as [canvas2|]; [|done].
  destruct is_round.
  - destruct (Image_new ModeL (size, size) 0) as [mask0|]; [|done].
    destruct (draw_ellipse mask0 _ 255) as [mask|]; [|done].
    destruct (paste_mask_L _ _ _ _) as [img|]; [|done].
    exists img.
    destruct (write_file output_path (png_encode img) w) as [[[]|e] w1] eqn:Hw; [|done].
    apply write_file_Ok in Hw as (-> & ? & ?). by simplify_eq/=.
  - exists canvas2.
    destruct (write_file output_path (png_encode canvas2) w) as [[[]|e] w1] eqn:Hw; [|done].
    apply write_file_Ok in Hw as (-> & ? & ?). by simplify_eq/=.
Qed.

Lemma create_circular_icon_run source_path output_path size is_round w b logo img :
  fs w !! source_path = Some (File b) → decode b = Some logo →
  CircularIcons.compose_circular_icon (convert_RGBA logo) size is_round = Ok img →
  fs w !! output_path ≠ Some Dir →
  dirname output_path = EmptyString ∨ fs w !! dirname output_path = Some Dir →
  CircularIcons.create_circular_icon source_path output_path size is_round w =
  (Ok (), World (<[output_path := File (png_encode img)]> (fs w))
                (stdout w ++ [CircularIcons.created_message output_path size is_round])).
Proof.
  unfold CircularIcons.create_circular_icon, CircularIcons.compose_circular_icon.
  unfold_M. intros Hsrc Hdec Hcomp Hout Hdir. rewrite Hsrc, Hdec.
  destruct (Image_new ModeRGBA (size, size) transparent) as [canvas0|]; [|done].
  destruct (draw_ellipse canvas0 _ black) as [canvas1|]; [|done].
  destruct (int_mul_float size _) as [logo_size|]; [|done].
  destruct (Image_resize _ _) as [logo_resized|]; [|done].
  destruct (paste_mask_RGBA _ _ _ _) as [canvas2|]; [|done].
  destruct is_round.
  - destruct (Image_new ModeL (size, size) 0) as [mask0|]; [|done].
    destruct (draw_ellipse mask0 _ 255) as [mask|]; [|done].
    rewrite Hcomp. by rewrite write_file_run.
  - simplify_eq. by rewrite write_file_run.
Qed.

Lemma create_circular_icon_Raise source_path output_path size is_round w e w' :
  CircularIcons.create_circular_icon source_path output_path size is_round w = (Raise e, w') →
  w' = w.
Proof.
  unfold CircularIcons.create_circular_icon. unfold_M. intros Hrun.
  destruct (Image_new ModeRGBA (size, size) transparent) as [canvas0|]; [|by simplify_eq].
  destruct (draw_ellipse canvas0 _ black) as [canvas1|]; [|by simplify_eq].
  destruct (fs w !! source_path) as [[|b]|] eqn:Hsrc; [by simplify_eq| |by simplify_eq].
  destruct (decode b) as [logo|] eqn:Hdec; [|by simplify_eq].
  destruct (int_mul_float size _) as [logo_size|]; [|by simplify_eq].
  destruct (Image_resize _ _) as [logo_resized|]; [|by simplify_eq].
  destruct (paste_mask_RGBA _ _ _ _) as [canvas2|]; [|by simplify_eq].
  destruct is_round.
  - destruct (Image_new ModeL (size, size) 0) as [mask0|]; [|by simplify_eq].
    destruct (draw_ellipse mask0 _ 255) as [mask|]; [|by simplify_eq].
    destruct (paste_mask_L _ _ _ _) as [img|]; [|by simplify_eq].
    destruct (write_file output_path (png_encode img) w) as [[[]|e'] w1] eqn:Hw; [done|].
    apply write_file_Raise in Hw. by simplify_eq.
  - destruct (write_file output_path (png_encode canvas2) w) as [[[]|e'] w1] eqn:Hw; [done|].
    apply write_file_Raise in Hw. by simplify_eq.
Qed.

Lemma generate_splash_logo_Ok source_path output_path size w w' :
  SplashScreens.generate_splash_logo source_path output_path size w = (Ok (), w') →
  ∃ b img out,
    fs w !! source_path = Some (File b) ∧ decode b = Some img ∧
    SplashScreens.resize_splash_logo img size = Ok out ∧
    fs w !! output_path ≠ Some Dir ∧
    (dirname output_path = EmptyString ∨ fs w !! dirname output_path = Some Dir) ∧
    w' = World (<[output_path := File (png_encode out)]> (fs w))
               (stdout w ++ [SplashScreens.generated_message output_path size]).
Proof.
  unfold SplashScreens.generate_splash_logo, SplashScreens.resize_splash_logo.
  unfold_M. intros Hrun.
  destruct (fs w !! source_path) as [[|b]|] eqn:Hsrc; [done| |done].
  destruct (decode b) as [img|] eqn:Hdec; [|done].
  exists b, img.
  destruct (Image_resize _ _) as [out|]; [|done].
  exists out.
  destruct (write_file output_path (png_encode out) w) as [[[]|e] w1] eqn:Hw; [|done].
  apply write_file_Ok in Hw as (-> & ? & ?). by simplify_eq/=.
Qed.

Lemma generate_splash_logo_run source_path output_path size w b img out :
  fs w !! source_path = Some (File b) → decode b = Some img →
  SplashScreens.resize_splash_logo img size = Ok out →
  fs w !! output_path ≠ Some Dir →
  dirname output_path = EmptyString ∨ fs w !! dirname output_path = Some Dir →
  SplashScreens.generate_splash_logo source_path output_path size w =
  (Ok (), World (<[output_path := File (png_encode out)]> (fs w))
                (stdout w ++ [SplashScreens.generated_message output_path size])).
Proof.
  unfold SplashScreens.generate_splash_logo, SplashScreens.resize_splash_logo.
  unfold_M. intros Hsrc Hdec Hres Hout Hdir. rewrite Hsrc, Hdec, Hres.
  by rewrite write_file_run.
Qed.

Lemma generate_splash_logo_Raise source_path output_path size w e w' :
  SplashScreens.generate_splash_logo source_path output_path size w = (Raise e, w') →
  w' = w.
Proof.
  unfold SplashScreens.generate_splash_logo. unfold_M. intros Hrun.
  destruct (fs w !! source_path) as [[|b]|] eqn:Hsrc; [by simplify_eq| |by simplify_eq].
  destruct (decode b) as [img|] eqn:Hdec; [|by simplify_eq].
  destruct (Image_resize _ _) as [out|]; [|by simplify_eq].
  destruct (write_file output_path (png_encode out) w) as [[[]|e'] w1] eqn:Hw; [done|].
  apply write_file_Raise in Hw. by simplify_eq.
Qed.

Lemma scale_icon_Ok input_path output_path canvas_size w w' :
  ScaleIcons.scale_icon input_path output_path canvas_size w = (Ok (), w') →
  ∃ b img out,
    fs w !! input_path = Some (File b) ∧ decode b = Some img ∧
    ScaleIcons.compose_scaled_icon (convert_RGBA img) canvas_size = Ok out ∧
    fs w !! output_path ≠ Some Dir ∧
    (dirname output_path = EmptyString ∨ fs w !! dirname output_path = Some Dir) ∧
    w' = World (<[output_path := File (png_encode out)]> (fs w))
               (stdout w ++ [ScaleIcons.scaled_message input_path canvas_size]).
Proof.
  unfold ScaleIcons.scale_icon, ScaleIcons.compose_scaled_icon.
  unfold_M. intros Hrun.
  destruct (fs w !! input_path) as [[|b]|] eqn:Hsrc; [done| |done].
  destruct (decode b) as [img|] eqn:Hdec; [|done].
  exists b, img.
  destruct (int_mul_float canvas_size _) as [new_size|]; [|done].
  destruct (Image_resize _ _) as [img_scaled|]; [|done].
  destruct (Image_new ModeRGBA _ transparent) as [canvas|]; [|done].
  destruct (paste_mask_RGBA _ _ _ _) as [out|]; [|done].
  exists out.
  destruct (write_file output_path (png_encode out) w) as [[[]|e] w1] eqn:Hw; [|done].
  apply write_file_Ok in Hw as (-> & ? & ?). by simplify_eq/=.
Qed.

Lemma scale_icon_run input_path output_path canvas_size w b img out :
  fs w !! input_path = Some (File b) → decode b = Some img →
  ScaleIcons.compose_scaled_icon (convert_RGBA img) canvas_size = Ok out →
  fs w !! output_path ≠ Some Dir →
  dirname output_path = EmptyString ∨ fs w !! dirname output_path = Some Dir →
  ScaleIcons.scale_icon input_path output_path canvas_size w =
  (Ok (), World (<[output_path := File (png_encode out)]> (fs w))
                (stdout w ++ [ScaleIcons.scaled_message input_path canvas_size])).
Proof.
  unfold ScaleIcons.scale_icon, ScaleIcons.compose_scaled_icon.
  unfold_M. intros Hsrc Hdec Hcomp Hout Hdir. rewrite Hsrc, Hdec.
  destruct (int_mul_float canvas_size _) as [new_size|]; [|done].
  destruct (Image_resize _ _) as [img_scaled|]; [|done].
  destruct (Image_new ModeRGBA _ transparent) as [canvas|]; [|done].
  rewrite Hcomp. by rewrite write_file_run.
Qed.

Lemma scale_icon_Raise input_path output_path canvas_size w e w' :
  ScaleIcons.scale_icon input_path output_path canvas_size w = (Raise e, w') → w' = w.
Proof.
  unfold ScaleIcons.scale_icon. unfold_M. intros Hrun.
  destruct (fs w !! input_path) as [[|b]|] eqn:Hsrc; [by simplify_eq| |by simplify_eq].
  destruct (decode b) as [img|] eqn:Hdec; [|by simplify_eq].
  destruct (int_mul_float canvas_size _) as [new_size|]; [|by simplify_eq].
  destruct (Image_resize _ _) as [img_scaled|]; [|by simplify_eq].
  destruct (Image_new ModeRGBA _ transparent) as [canvas|]; [|by simplify_eq].
  destruct (paste_mask_RGBA _ _ _ _) as [out|]; [|by simplify_eq].
  destruct (write_file output_path (png_encode out) w) as [[[]|e'] w1] eqn:Hw; [done|].
  apply write_file_Raise in Hw. by simplify_eq.
Qed.

End step_facts.

(** *** Lists of guarded writes *)

Section plan_facts.
Implicit Types (acc : world) (it : item) (l : list item) (p : string).

Lemma apply_items_app acc l1 l2 :
  apply_items acc (l1 ++ l2) = apply_items (apply_items acc l1) l2.
Proof. apply foldl_app. Qed.

Lemma apply_items_cons acc it l :
  apply_items acc (it :: l) = apply_items (apply_item acc it) l.
Proof. done. Qed.

Lemma fs_apply_item_ne acc it p :
  p ≠ target it → fs (apply_item acc it) !! p = fs acc !! p.
Proof.
  intros Hne. unfold apply_item. case_bool_decide; [|done].
  simpl. by rewrite lookup_insert_ne.
Qed.

Lemma fs_apply_items_other acc l p :
  p ∉ target <$> l → fs (apply_items acc l) !! p = fs acc !! p.
Proof.
  revert acc. induction l as [|it l IH]; intros acc Hp; [done|].
  rewrite fmap_cons, not_elem_of_cons in Hp. destruct Hp as [Hne Hp].
  rewrite apply_items_cons, IH by done. by apply fs_apply_item_ne.
Qed.

Lemma not_Dir_apply_item acc it p :
  fs acc !! p ≠ Some Dir → fs (apply_item acc it) !! p ≠ Some Dir.
Proof.
  intros Hp. unfold apply_item. case_bool_decide; [|done]. simpl.
  destruct (decide (target it = p)) as [->|Hne].
  - by rewrite lookup_insert_eq.
  - by rewrite lookup_insert_ne.
Qed.

Lemma not_Dir_apply_items acc l p :
  fs acc !! p ≠ Some Dir → fs (apply_items acc l) !! p ≠ Some Dir.
Proof.
  revert acc. induction l as [|it l IH]; intros acc Hp; [done|].
  rewrite apply_items_cons. by apply IH, not_Dir_apply_item.
Qed.

Lemma stdout_apply_items acc l x :
  x ∈ stdout acc → x ∈ stdout (apply_items acc l).
Proof.
  revert acc. induction l as [|it l IH]; intros acc Hx; [done|].
  rewrite apply_items_cons. apply IH. unfold apply_item.
  case_bool_decide; simpl; set_solver.
Qed.

(** An item of a list with distinct targets, whose guard no other item
    writes: the part of the list before it leaves its guard and its target
    as they were, the part after it leaves its target alone. *)
Lemma item_split l it :
  NoDup (target <$> l) → it ∈ l →
  guard it ∉ target <$> l ∨ guard it = target it →
  ∃ l1 l2, l = l1 ++ it :: l2 ∧
    target it ∉ (target <$> l1) ∧ guard it ∉ (target <$> l1) ∧
    target it ∉ (target <$> l2).
Proof.
  intros Hnd Hin Hg. apply list_elem_of_split in Hin as (l1 & l2 & ->).
  exists l1, l2. split; [done|].
  rewrite fmap_app, fmap_cons in Hnd, Hg.
  apply NoDup_app in Hnd as (_ & Hdis & Hnd2).
  apply NoDup_cons in Hnd2 as [Hn2 _].
  assert (Ht1 : target it ∉ target <$> l1).
  { intros Hin. apply (Hdis _ Hin). set_solver. }
  split_and!; [done| |done].
  destruct Hg as [Hg| ->]; [|done]. set_solver.
Qed.

Lemma fs_apply_items_target acc l it :
  NoDup (target <$> l) → it ∈ l →
  guard it ∉ target <$> l ∨ guard it = target it →
  fs (apply_items acc l) !! target it =
  if bool_decide (is_Some (fs acc !! guard it))
  then Some (File (payload it)) else fs acc !! target it.
Proof.
  intros Hnd Hin Hg.
  destruct (item_split l it Hnd Hin Hg) as (l1 & l2 & -> & Ht1 & Hg1 & Ht2).
  rewrite apply_items_app, apply_items_cons.
  rewrite fs_apply_items_other by done.
  unfold apply_item. rewrite (fs_apply_items_other acc l1 (guard it)) by done.
  case_bool_decide; simpl.
  - by rewrite lookup_insert_eq.
  - by rewrite fs_apply_items_other.
Qed.

Lemma done_line_printed acc l it :
  NoDup (target <$> l) → it ∈ l →
  guard it ∉ target <$> l ∨ guard it = target it →
  is_Some (fs acc !! guard it) →
  done_line it ∈ stdout (apply_items acc l).
Proof.
  intros Hnd Hin Hg Hex.
  destruct (item_split l it Hnd Hin Hg) as (l1 & l2 & -> & Ht1 & Hg1 & Ht2).
  rewrite apply_items_app, apply_items_cons.
  apply stdout_apply_items. unfold apply_item.
  rewrite (fs_apply_items_other acc l1 (guard it)) by done.
  rewrite bool_decide_eq_true_2 by done. simpl. set_solver.
Qed.

Lemma skip_lines_printed acc l it x :
  NoDup (target <$> l) → it ∈ l →
  guard it ∉ target <$> l ∨ guard it = target it →
  fs acc !! guard it = None → x ∈ skip_lines it →
  x ∈ stdout (apply_items acc l).
Proof.
  intros Hnd Hin Hg Hex Hx.
  destruct (item_split l it Hnd Hin Hg) as (l1 & l2 & -> & Ht1 & Hg1 & Ht2).
  rewrite apply_items_app, apply_items_cons.
  apply stdout_apply_items. unfold apply_item.
  rewrite (fs_apply_items_other acc l1 (guard it)) by done.
  rewrite bool_decide_eq_false_2 by (rewrite Hex; by intros [? ?]).
  simpl. set_solver.
Qed.

(** Applying a list of guarded writes a second time changes no file, when
    no guard is a target. *)
Lemma apply_items_twice acc l :
  NoDup (target <$> l) → Forall (λ it, guard it ∉ target <$> l) l →
  fs (apply_items (apply_items acc l) l) = fs (apply_items acc l).
Proof.
  intros Hnd Hg. apply map_eq. intros p.
  destruct (decide (p ∈ target <$> l)) as [Hin|Hnin].
  - apply list_elem_of_fmap in Hin as (it & -> & Hit).
    rewrite Forall_forall in Hg. specialize (Hg it Hit).
    rewrite !fs_apply_items_target by auto.
    rewrite (fs_apply_items_other acc l (guard it)) by done.
    by case_bool_decide.
  - by rewrite !fs_apply_items_other.
Qed.

End plan_facts.

(** *** The paths of the scripts *)

Section path_facts.
Context `{Imaging}.

Lemma has_suffix_app p s : has_suffix s (p +:+ s) = true.
Proof.
  induction p as [|c p IH]; simpl.
  - destruct s; simpl; [done|]. by rewrite bool_decide_eq_true_2.
  - rewrite IH. by rewrite orb_true_r.
Qed.

Lemma expanduser_tilde_slash home rest :
  ∃ prefix, expanduser home (String "~" (String "/" rest)) = prefix +:+ String "/" rest.
Proof.
  unfold expanduser. destruct home as [h|].
  - destruct (rstrip_slash h +:+ String "/" rest) eqn:E.
    + by destruct (rstrip_slash h).
    + exists (rstrip_slash h). by rewrite E.
  - by exists "~".
Qed.

Definition circular_targets : list string :=
  flat_map (λ entry, [CircularIcons.standard_path entry.1; CircularIcons.round_path entry.1])
           CircularIcons.ICON_SIZES.

Definition splash_targets : list string :=
  flat_map (λ entry, [SplashScreens.regular_path entry.1; SplashScreens.dark_path entry.1])
           SplashScreens.SPLASH_SIZES.

Definition scale_targets : list string :=
  flat_map (λ entry, ScaleIcons.icon_path entry.1 <$> ScaleIcons.icon_names)
           ScaleIcons.DENSITIES.

Lemma targets_circular_plan logo : target <$> circular_plan logo = circular_targets.
Proof. reflexivity. Qed.

Lemma targets_splash_plan img : target <$> splash_plan img = splash_targets.
Proof. reflexivity. Qed.

Lemma targets_scale_plan fs0 : target <$> scale_plan fs0 = scale_targets.
Proof. reflexivity. Qed.

Lemma NoDup_circular_targets : NoDup circular_targets.
Proof. apply (bool_decide_unpack _). by vm_compute. Qed.

Lemma NoDup_splash_targets : NoDup splash_targets.
Proof. apply (bool_decide_unpack _). by vm_compute. Qed.

Lemma NoDup_scale_targets : NoDup scale_targets.
Proof. apply (bool_decide_unpack _). by vm_compute. Qed.

Lemma circular_source_not_target home :
  CircularIcons.SOURCE_LOGO home ∉ circular_targets.
Proof.
  unfold CircularIcons.SOURCE_LOGO.
  destruct (expanduser_tilde_slash home "Desktop/RUNSTR LOGO FINAL/expo/icon.png")
    as [prefix Hp].
  rewrite Hp. intros Hin.
  assert (Hs : Forall (λ t, (has_suffix "/Desktop/RUNSTR LOGO FINAL/expo/icon.png" t) = false)
                 circular_targets).
  { apply (bool_decide_unpack _). by vm_compute. }
  rewrite Forall_forall in Hs. specialize (Hs _ Hin).
  by rewrite has_suffix_app in Hs.
Qed.

Lemma splash_source_not_target home :
  SplashScreens.SOURCE_LOGO home ∉ splash_targets.
Proof.
  unfold SplashScreens.SOURCE_LOGO.
  destruct (expanduser_tilde_slash home "Desktop/RUNSTR LOGO FINAL/expo/splash-icon.png")
    as [prefix Hp].
  rewrite Hp. intros Hin.
  assert (Hs : Forall (λ t, has_suffix "/Desktop/RUNSTR LOGO FINAL/expo/splash-icon.png" t = false)
                 splash_targets).
  { apply (bool_decide_unpack _). by vm_compute. }
  rewrite Forall_forall in Hs. specialize (Hs _ Hin).
  by rewrite has_suffix_app in Hs.
Qed.

Lemma circular_guards logo :
  Forall (λ it, guard it ∉ circular_targets ∧ dirname (target it) = guard it ∧
                guard it ≠ EmptyString)
         (circular_plan logo).
Proof.
  unfold circular_plan. cbn [flat_map CircularIcons.ICON_SIZES circular_items app].
  repeat (constructor; [cbn [guard target]; split_and!;
                          [apply (bool_decide_unpack _); by vm_compute
                          | by vm_compute | by vm_compute]|]).
  constructor.
Qed.

Lemma splash_guards img :
  Forall (λ it, guard it ∉ splash_targets ∧ dirname (target it) = guard it ∧
                guard it ≠ EmptyString)
         (splash_plan img).
Proof.
  unfold splash_plan. cbn [flat_map SplashScreens.SPLASH_SIZES splash_items app].
  repeat (constructor; [cbn [guard target]; split_and!;
                          [apply (bool_decide_unpack _); by vm_compute
                          | by vm_compute | by vm_compute]|]).
  constructor.
Qed.

End path_facts.

(** *** The loops of the scripts as lists of guarded writes *)

Section run_facts.
Context `{Imaging}.

Lemma for_each_apply {A} (l : list A) (body : A → M unit) (f : A → list item) w0 :
  (∀ l1 a l2, l = l1 ++ a :: l2 →
     body a (apply_items w0 (flat_map f l1)) =
     (Ok (), apply_items (apply_items w0 (flat_map f l1)) (f a))) →
  for_each l body w0 = (Ok (), apply_items w0 (flat_map f l)).
Proof.
  revert w0. induction l as [|a l IH]; intros w0 Hbody; [done|].
  cbn [for_each flat_map]. unfold mbind, M_bind.
  pose proof (Hbody [] a l eq_refl) as H0.
  cbn [flat_map apply_items foldl] in H0. rewrite H0.
  rewrite apply_items_app. apply IH.
  intros l1 a' l2 ->.
  specialize (Hbody (a :: l1) a' l2 eq_refl).
  cbn [flat_map] in Hbody. by rewrite !apply_items_app in Hbody.
Qed.

Lemma decoded_logo b logo :
  decode b = Some logo →
  wf_image (convert_RGBA logo) ∧ mode (convert_RGBA logo) = ModeRGBA ∧
  1 ≤ width (convert_RGBA logo) ∧ 1 ≤ height (convert_RGBA logo).
Proof.
  intros Hdec. apply decode_wf in Hdec as (Hwf & Hw & Hh).
  destruct (convert_RGBA_spec logo Hwf) as (? & ? & -> & ->). done.
Qed.

Lemma circular_entry_facts :
  Forall (λ entry : string * Z,
    2 ≤ entry.2 ≤ MAX_WIDTH ∧
    dirname (CircularIcons.standard_path entry.1) = CircularIcons.mipmap_dir entry.1 ∧
    dirname (CircularIcons.round_path entry.1) = CircularIcons.mipmap_dir entry.1 ∧
    CircularIcons.mipmap_dir entry.1 ≠ EmptyString ∧
    CircularIcons.standard_path entry.1 ≠ CircularIcons.mipmap_dir entry.1 ∧
    CircularIcons.round_path entry.1 ≠ CircularIcons.mipmap_dir entry.1 ∧
    CircularIcons.standard_path entry.1 ≠ CircularIcons.round_path entry.1 ∧
    CircularIcons.standard_path entry.1 ∈ circular_targets ∧
    CircularIcons.round_path entry.1 ∈ circular_targets)
  CircularIcons.ICON_SIZES.
Proof. apply (bool_decide_unpack _). by vm_compute. Qed.

Lemma circular_body_refines home b logo acc entry :
  entry ∈ CircularIcons.ICON_SIZES →
  fs acc !! CircularIcons.SOURCE_LOGO home = Some (File b) → decode b = Some logo →
  fs acc !! CircularIcons.mipmap_dir entry.1 = None ∨
    (fs acc !! CircularIcons.mipmap_dir entry.1 = Some Dir ∧
     fs acc !! CircularIcons.standard_path entry.1 ≠ Some Dir ∧
     fs acc !! CircularIcons.round_path entry.1 ≠ Some Dir) →
  CircularIcons.main_body home entry acc =
  (Ok (), apply_items acc (circular_items logo entry)).
Proof.
  intros Hin Hsrc Hdec Hdir.
  pose proof circular_entry_facts as Hfacts. rewrite Forall_forall in Hfacts.
  destruct (Hfacts _ Hin) as (Hsize & Hd1 & Hd2 & Hne & Hsd & Hrd & Hsr & Hts & Htr).
  pose proof (circular_source_not_target home) as Hsource.
  destruct entry as [density size]. cbn [fst snd] in *.
  destruct (decoded_logo b logo Hdec) as (Hwf & Hmode & Hw & Hh).
  destruct (compose_circular_icon_total (convert_RGBA logo) size false) as [std Hcs]; try done.
  destruct (compose_circular_icon_total (convert_RGBA logo) size true) as [rnd Hcr]; try done.
  unfold CircularIcons.main_body, circular_items, apply_items. cbn [foldl].
  unfold apply_item. cbn [guard target payload done_line skip_lines fs stdout].
  unfold icon_file. rewrite Hcs, Hcr.
  unfold mbind, M_bind, path_exists, mret, M_ret, print.
  destruct Hdir as [Hdir|(Hdir & Hstd & Hrnd)]; rewrite Hdir.
  - rewrite !bool_decide_eq_false_2 by (by intros [? ?]).
    cbn [fs stdout]. rewrite Hdir.
    rewrite !bool_decide_eq_false_2 by (by intros [? ?]).
    by rewrite app_nil_r.
  - rewrite !bool_decide_eq_true_2 by done.
    rewrite (create_circular_icon_run _ _ _ _ acc b logo std); try done;
      [|right; by rewrite Hd1].
    cbn [fs stdout]. rewrite lookup_insert_ne by done. rewrite Hdir.
    rewrite !bool_decide_eq_true_2 by done.
    rewrite (create_circular_icon_run _ _ _ _ _ b logo rnd); try done.
    + cbn [fs]. rewrite lookup_insert_ne; [done|]. intros Heq. apply Hsource.
      by rewrite <- Heq.
    + cbn [fs]. by rewrite lookup_insert_ne.
    + right. cbn [fs]. rewrite Hd2. by rewrite lookup_insert_ne.
Qed.

Lemma prefix_targets {A} (f : A → list item) l l1 a l2 p :
  l = l1 ++ a :: l2 → p ∉ target <$> flat_map f l → p ∉ target <$> flat_map f l1.
Proof.
  intros -> Hp Hin. apply Hp.
  rewrite flat_map_app, fmap_app. apply elem_of_app. by left.
Qed.

Lemma items_in_plan {A} (f : A → list item) l a it :
  a ∈ l → it ∈ f a → it ∈ flat_map f l.
Proof.
  intros Ha Hit. apply list_elem_of_In, in_flat_map.
  exists a. by rewrite <- !list_elem_of_In.
Qed.

Lemma circular_main_refines home w logo :
  source_decodes (CircularIcons.SOURCE_LOGO home) w logo →
  tree_ok (circular_plan logo) w →
  CircularIcons.main home w =
  (Ok (), print_lines (apply_items (print_lines w circular_banner) (circular_plan logo))
                      circular_footer).
Proof.
  intros (b & Hsrc & Hdec) Htree.
  unfold CircularIcons.main. unfold mbind at 1, M_bind at 1, path_exists.
  rewrite Hsrc, bool_decide_eq_true_2 by done. cbn [negb].
  unfold mbind, M_bind, print. cbn [fs stdout].
  set (w1 := World (fs w) _).
  assert (Hw1 : w1 = print_lines w circular_banner).
  { unfold w1, print_lines, circular_banner. f_equal. by rewrite <- !app_assoc. }
  rewrite Hw1. clear w1 Hw1.
  rewrite (for_each_apply _ _ (circular_items logo)).
  { unfold print_lines. cbn [fs stdout]. f_equal. f_equal.
    unfold circular_footer. by rewrite <- !app_assoc. }
  intros l1 entry l2 Hl.
  assert (Hin : entry ∈ CircularIcons.ICON_SIZES) by (rewrite Hl; set_solver).
  pose proof circular_entry_facts as Hfacts. rewrite Forall_forall in Hfacts.
  destruct (Hfacts _ Hin) as (_ & _ & _ & _ & _ & _ & _ & Hts & Htr).
  pose proof (circular_guards logo) as Hguards. rewrite Forall_forall in Hguards.
  unfold tree_ok in Htree. rewrite Forall_forall in Htree.
  assert (Hit1 : Item (CircularIcons.mipmap_dir entry.1) (CircularIcons.standard_path entry.1)
            (icon_file logo entry.2 false)
            (CircularIcons.created_message (CircularIcons.standard_path entry.1) entry.2 false)
            [CircularIcons.warning (CircularIcons.mipmap_dir entry.1)] ∈ circular_plan logo).
  { apply (items_in_plan _ _ entry); [done|]. destruct entry. apply list_elem_of_here. }
  assert (Hit2 : Item (CircularIcons.mipmap_dir entry.1) (CircularIcons.round_path entry.1)
            (icon_file logo entry.2 true)
            (CircularIcons.created_message (CircularIcons.round_path entry.1) entry.2 true)
            [] ∈ circular_plan logo).
  { apply (items_in_plan _ _ entry); [done|]. destruct entry.
    apply list_elem_of_further, list_elem_of_here. }
  pose proof (Htree _ Hit1) as Ht1. pose proof (Htree _ Hit2) as Ht2.
  destruct (Hguards _ Hit1) as (Hgn & _ & _).
  cbn [guard target] in *.
  assert (Hframe : ∀ p, p ∉ circular_targets →
            fs (apply_items (print_lines w circular_banner)
                  (flat_map (circular_items logo) l1)) !! p = fs w !! p).
  { intros p Hp. rewrite fs_apply_items_other; [done|].
    apply (prefix_targets _ _ _ _ _ _ Hl).
    fold (circular_plan logo). by rewrite targets_circular_plan. }
  apply (circular_body_refines home b logo); try done.
  - rewrite Hframe; [done|]. apply circular_source_not_target.
  - rewrite Hframe by done.
    destruct Ht1 as [Hnone|[Hdir Hstd]]; [by left|right].
    destruct Ht2 as [Hnone|[_ Hrnd]]; [congruence|].
    split_and!; [done|by apply not_Dir_apply_items..].
Qed.

Lemma splash_entry_facts :
  Forall (λ entry : string * Z,
    1 ≤ entry.2 ≤ MAX_WIDTH ∧
    dirname (SplashScreens.regular_path entry.1) = SplashScreens.regular_dir entry.1 ∧
    dirname (SplashScreens.dark_path entry.1) = SplashScreens.dark_dir entry.1 ∧
    SplashScreens.regular_path entry.1 ≠ SplashScreens.dark_dir entry.1 ∧
    SplashScreens.regular_path entry.1 ≠ SplashScreens.dark_path entry.1 ∧
    SplashScreens.regular_path entry.1 ∈ splash_targets ∧
    SplashScreens.dark_path entry.1 ∈ splash_targets)
  SplashScreens.SPLASH_SIZES.
Proof. apply (bool_decide_unpack _). by vm_compute. Qed.

Lemma splash_destination_run home b img out acc dir path size :
  fs acc !! SplashScreens.SOURCE_LOGO home = Some (File b) → decode b = Some img →
  SplashScreens.resize_splash_logo img size = Ok out →
  fs acc !! dir = None ∨ (fs acc !! dir = Some Dir ∧ fs acc !! path ≠ Some Dir) →
  dirname path = dir →
  SplashScreens.destination home dir path size acc =
  (Ok (), apply_item acc
            (Item dir path (png_encode out) (SplashScreens.generated_message path size)
                  [SplashScreens.warning dir])).
Proof.
  intros Hsrc Hdec Hres Hdir Hdn.
  unfold SplashScreens.destination, apply_item.
  cbn [guard target payload done_line skip_lines].
  unfold mbind, M_bind, path_exists, print.
  destruct Hdir as [Hdir|[Hdir Hpath]]; rewrite Hdir.
  - by rewrite !bool_decide_eq_false_2 by (by intros [? ?]).
  - rewrite !bool_decide_eq_true_2 by done.
    rewrite (generate_splash_logo_run _ _ _ acc b img out); try done.
    right. by rewrite Hdn.
Qed.

Lemma splash_body_refines home b img acc entry :
  entry ∈ SplashScreens.SPLASH_SIZES →
  fs acc !! SplashScreens.SOURCE_LOGO home = Some (File b) → decode b = Some img →
  fs acc !! SplashScreens.regular_dir entry.1 = None ∨
    (fs acc !! SplashScreens.regular_dir entry.1 = Some Dir ∧
     fs acc !! SplashScreens.regular_path entry.1 ≠ Some Dir) →
  fs acc !! SplashScreens.dark_dir entry.1 = None ∨
    (fs acc !! SplashScreens.dark_dir entry.1 = Some Dir ∧
     fs acc !! SplashScreens.dark_path entry.1 ≠ Some Dir) →
  SplashScreens.main_body home entry acc =
  (Ok (), apply_items acc (splash_items img entry)).
Proof.
  intros Hin Hsrc Hdec Hrdir Hddir.
  pose proof splash_entry_facts as Hfacts. rewrite Forall_forall in Hfacts.
  destruct (Hfacts _ Hin) as (Hsize & Hd1 & Hd2 & Hrd & Hrp & Htr & Htd).
  pose proof (splash_source_not_target home) as Hsource.
  destruct entry as [density size]. cbn [fst snd] in *.
  destruct (resize_splash_logo_total img size Hsize) as [out Hres].
  unfold SplashScreens.main_body, splash_items, apply_items. cbn [foldl].
  unfold splash_file. rewrite Hres.
  unfold mbind, M_bind.
  rewrite (splash_destination_run home b img out); try done.
  apply (splash_destination_run home b img out); try done.
  - rewrite fs_apply_item_ne; [done|]. cbn [target]. intros Heq. apply Hsource.
    by rewrite Heq.
  - rewrite !fs_apply_item_ne by (cbn [target]; congruence). done.
Qed.

Lemma splash_main_refines home w img :
  source_decodes (SplashScreens.SOURCE_LOGO home) w img →
  tree_ok (splash_plan img) w →
  SplashScreens.main home w =
  (Ok (), print_lines (apply_items (print_lines w splash_banner) (splash_plan img))
                      splash_footer).
Proof.
  intros (b & Hsrc & Hdec) Htree.
  unfold SplashScreens.main. unfold mbind at 1, M_bind at 1, path_exists.
  rewrite Hsrc, bool_decide_eq_true_2 by done. cbn [negb].
  unfold mbind, M_bind, print. cbn [fs stdout].
  fold (print_lines w splash_banner).
  rewrite (for_each_apply _ _ (splash_items img)).
  { unfold print_lines. cbn [fs stdout]. f_equal. f_equal.
    unfold splash_footer. by rewrite <- !app_assoc. }
  intros l1 entry l2 Hl.
  assert (Hin : entry ∈ SplashScreens.SPLASH_SIZES) by (rewrite Hl; set_solver).
  pose proof splash_entry_facts as Hfacts. rewrite Forall_forall in Hfacts.
  destruct (Hfacts _ Hin) as (_ & _ & _ & _ & _ & Htr & Htd).
  pose proof (splash_guards img) as Hguards. rewrite Forall_forall in Hguards.
  unfold tree_ok in Htree. rewrite Forall_forall in Htree.
  assert (Hit1 : Item (SplashScreens.regular_dir entry.1) (SplashScreens.regular_path entry.1)
            (splash_file img entry.2)
            (SplashScreens.generated_message (SplashScreens.regular_path entry.1) entry.2)
            [SplashScreens.warning (SplashScreens.regular_dir entry.1)] ∈ splash_plan img).
  { apply (items_in_plan _ _ entry); [done|]. destruct entry. apply list_elem_of_here. }
  assert (Hit2 : Item (SplashScreens.dark_dir entry.1) (SplashScreens.dark_path entry.1)
            (splash_file img entry.2)
            (SplashScreens.generated_message (SplashScreens.dark_path entry.1) entry.2)
            [SplashScreens.warning (SplashScreens.dark_dir entry.1)] ∈ splash_plan img).
  { apply (items_in_plan _ _ entry); [done|]. destruct entry.
    apply list_elem_of_further, list_elem_of_here. }
  pose proof (Htree _ Hit1) as Ht1. pose proof (Htree _ Hit2) as Ht2.
  destruct (Hguards _ Hit1) as (Hgn1 & _ & _).
  destruct (Hguards _ Hit2) as (Hgn2 & _ & _).
  cbn [guard target] in *.
  assert (Hframe : ∀ p, p ∉ splash_targets →
            fs (apply_items (print_lines w splash_banner)
                  (flat_map (splash_items img) l1)) !! p = fs w !! p).
  { intros p Hp. rewrite fs_apply_items_other; [done|].
    apply (prefix_targets _ _ _ _ _ _ Hl).
    fold (splash_plan img). by rewrite targets_splash_plan. }
  apply (splash_body_refines home b img); try done.
  - rewrite Hframe; [done|]. apply splash_source_not_target.
  - rewrite Hframe by done.
    destruct Ht1 as [Hnone|[Hdir Hp]]; [by left|right].
    split; [done|by apply not_Dir_apply_items].
  - rewrite Hframe by done.
    destruct Ht2 as [Hnone|[Hdir Hp]]; [by left|right].
    split; [done|by apply not_Dir_apply_items].
Qed.

Lemma prefix_targets_NoDup {A} (f : A → list item) l l1 a l2 it :
  l = l1 ++ a :: l2 → NoDup (target <$> flat_map f l) → it ∈ f a →
  target it ∉ target <$> flat_map f l1.
Proof.
  intros -> Hnd Hit Hin.
  rewrite flat_map_app, fmap_app in Hnd. apply NoDup_app in Hnd as (_ & Hdis & _).
  apply (Hdis _ Hin). cbn [flat_map]. rewrite fmap_app. apply elem_of_app. left.
  by apply list_elem_of_fmap_2.
Qed.

Lemma scale_entry_facts :
  Forall (λ entry : string * Z,
    (1 ≤ entry.2 ∧ 2 * entry.2 ≤ MAX_WIDTH) ∧
    Forall (λ name,
      dirname (ScaleIcons.icon_path entry.1 name) ∉ scale_targets ∧
      dirname (ScaleIcons.icon_path entry.1 name) ≠ EmptyString)
      ScaleIcons.icon_names ∧
    ScaleIcons.icon_path entry.1 "ic_launcher.png" ≠
      ScaleIcons.icon_path entry.1 "ic_launcher_round.png" ∧
    ScaleIcons.icon_path entry.1 "ic_launcher.png" ≠
      dirname (ScaleIcons.icon_path entry.1 "ic_launcher_round.png"))
  ScaleIcons.DENSITIES.
Proof. apply (bool_decide_unpack _). by vm_compute. Qed.

Lemma scale_icon_body_run (fs0 : gmap string node) acc density size name :
  1 ≤ size ∧ 2 * size ≤ MAX_WIDTH →
  fs acc !! ScaleIcons.icon_path density name = fs0 !! ScaleIcons.icon_path density name →
  fs acc !! ScaleIcons.icon_path density name = None ∨
    ((∃ b img, fs acc !! ScaleIcons.icon_path density name = Some (File b) ∧
               decode b = Some img) ∧
     fs acc !! dirname (ScaleIcons.icon_path density name) = Some Dir) →
  ScaleIcons.icon_body density size name acc =
  (Ok (), apply_item acc
     (Item (ScaleIcons.icon_path density name) (ScaleIcons.icon_path density name)
           (scaled_file (fs0 !! ScaleIcons.icon_path density name) size)
           (ScaleIcons.scaled_message (ScaleIcons.icon_path density name) size)
           [ScaleIcons.warning (ScaleIcons.icon_path density name)])).
Proof.
  intros Hsize Hsame Hok.
  unfold ScaleIcons.icon_body, apply_item.
  cbn [guard target payload done_line skip_lines].
  unfold mbind, M_bind, path_exists, print. rewrite <- Hsame.
  set (path := ScaleIcons.icon_path density name) in *.
  destruct Hok as [Hnone|[(b & img & Hfile & Hdec) Hdir]].
  - rewrite Hnone. by rewrite !bool_decide_eq_false_2 by (by intros [? ?]).
  - rewrite Hfile. rewrite !bool_decide_eq_true_2 by done.
    destruct (compose_scaled_icon_total (convert_RGBA img) size Hsize) as [out Hout].
    rewrite (scale_icon_run _ _ _ acc b img out); try done.
    + unfold scaled_file. by rewrite Hdec, Hout.
    + by rewrite Hfile.
    + by right.
Qed.

Lemma scale_body_refines (fs0 : gmap string node) acc entry :
  entry ∈ ScaleIcons.DENSITIES →
  Forall (λ it, fs acc !! target it = fs0 !! target it ∧
                fs acc !! dirname (target it) = fs0 !! dirname (target it))
         (scale_items fs0 entry) →
  icons_ok (scale_items fs0 entry) (World fs0 []) →
  ScaleIcons.main_body entry acc = (Ok (), apply_items acc (scale_items fs0 entry)).
Proof.
  intros Hin Hsame Hok.
  pose proof scale_entry_facts as Hfacts. rewrite Forall_forall in Hfacts.
  destruct (Hfacts _ Hin) as (Hsize & _ & Hne & Hnd).
  destruct entry as [density size]. cbn [fst snd] in *.
  unfold icons_ok, scale_items, ScaleIcons.icon_names in *.
  cbn [fmap list_fmap] in *.
  apply Forall_cons in Hsame as [[Hs1 Hd1] Hsame].
  apply Forall_cons in Hsame as [[Hs2 Hd2] _].
  apply Forall_cons in Hok as [Hok1 Hok].
  apply Forall_cons in Hok as [Hok2 _].
  cbn [target fs] in *.
  unfold ScaleIcons.main_body, ScaleIcons.icon_names, apply_items.
  cbn [for_each foldl]. unfold mbind, M_bind, mret, M_ret.
  rewrite (scale_icon_body_run fs0 acc); try done.
  2:{ rewrite Hs1, Hd1. done. }
  rewrite (scale_icon_body_run fs0); try done.
  - rewrite fs_apply_item_ne by (cbn [target]; congruence). done.
  - rewrite !fs_apply_item_ne by (cbn [target]; congruence).
    rewrite Hs2, Hd2. done.
Qed.

Lemma scale_guards fs0 :
  Forall (λ it, guard it = target it ∧ dirname (target it) ∉ scale_targets)
         (scale_plan fs0).
Proof.
  unfold scale_plan.
  cbn [flat_map ScaleIcons.DENSITIES scale_items app fmap list_fmap ScaleIcons.icon_names].
  repeat (constructor; [cbn [guard target]; split;
                          [done | apply (bool_decide_unpack _); by vm_compute]|]).
  constructor.
Qed.

Lemma scale_main_refines w :
  icons_ok (scale_plan (fs w)) w →
  ScaleIcons.main w =
  (Ok (), print_lines (apply_items (print_lines w scale_banner) (scale_plan (fs w)))
                      scale_footer).
Proof.
  intros Hok.
  unfold ScaleIcons.main. unfold mbind, M_bind, print. cbn [fs stdout].
  fold (print_lines w scale_banner).
  rewrite (for_each_apply _ _ (scale_items (fs w))).
  { unfold print_lines. cbn [fs stdout]. f_equal. f_equal.
    unfold scale_footer. by rewrite <- !app_assoc. }
  intros l1 entry l2 Hl.
  assert (Hin : entry ∈ ScaleIcons.DENSITIES) by (rewrite Hl; set_solver).
  pose proof (scale_guards (fs w)) as Hguards. rewrite Forall_forall in Hguards.
  unfold icons_ok in Hok. rewrite Forall_forall in Hok.
  apply scale_body_refines; [done| |].
  - apply Forall_forall. intros it Hit.
    assert (Hplan : it ∈ scale_plan (fs w)) by (by apply (items_in_plan _ _ entry)).
    destruct (Hguards _ Hplan) as [_ Hdn].
    split.
    + rewrite fs_apply_items_other; [done|].
      apply (prefix_targets_NoDup _ _ _ _ _ _ Hl); [|done].
      fold (scale_plan (fs w)). rewrite targets_scale_plan. apply NoDup_scale_targets.
    + rewrite fs_apply_items_other; [done|].
      apply (prefix_targets _ _ _ _ _ _ Hl).
      fold (scale_plan (fs w)). by rewrite targets_scale_plan.
  - unfold icons_ok. apply Forall_forall. intros it Hit. cbn [fs].
    apply Hok. by apply (items_in_plan _ _ entry).
Qed.

End run_facts.

(** * Properties of the scripts *)

Section properties.
Context `{Imaging}.

Lemma blend_rgba_mask_0 out inp : rgba_bytes out → blend_rgba 0 out inp = out.
Proof.
  intros (Hr & Hg & Hb & Ha). destruct out. unfold blend_rgba. simpl in *.
  by rewrite !BLEND8_mask_0.
Qed.

Lemma blend_rgba_mask_255 out inp : rgba_bytes inp → blend_rgba 255 out inp = inp.
Proof.
  intros (Hr & Hg & Hb & Ha). destruct inp. unfold blend_rgba. simpl in *.
  by rewrite !BLEND8_mask_255.
Qed.

Lemma blend_rgba_clear inp : blend_rgba 0 transparent inp = transparent.
Proof. unfold blend_rgba, transparent. simpl. by rewrite !BLEND8_onto_0. Qed.

Lemma background_pixel_bytes size x y : rgba_bytes (background_pixel size x y).
Proof.
  unfold background_pixel. destruct (ellipse_covers _ x y);
    [apply black_bytes | apply transparent_bytes].
Qed.

(** An image the scripts save decodes to itself. *)
Lemma saved_image_decodes img size :
  wf_image img → mode img = ModeRGBA → width img = size → height img = size →
  1 ≤ size < 2 ^ 31 → decode (png_encode img) = Some img.
Proof. intros Hwf Hm Hw Hh Hs. apply png_roundtrip; try done; lia. Qed.

(** What [create_circular_icon] saves, for either variant. *)
Lemma create_circular_icon_saves source_path output_path size is_round w w' :
  CircularIcons.create_circular_icon source_path output_path size is_round w = (Ok (), w') →
  ∃ b logo img logo_resized,
    let logo_size := (72 * size) `div` 100 in
    fs w !! source_path = Some (File b) ∧ decode b = Some logo ∧
    2 ≤ size ≤ MAX_WIDTH ∧
    Image_resize (convert_RGBA logo) (logo_size, logo_size) = Ok logo_resized ∧
    wf_image logo_resized ∧
    width logo_resized = logo_size ∧ height logo_resized = logo_size ∧
    fs w' = <[output_path := File (png_encode img)]> (fs w) ∧
    decode (png_encode img) = Some img ∧
    mode img = ModeRGBA ∧ width img = size ∧ height img = size ∧
    ∀ x y, 0 ≤ x < size → 0 ≤ y < size →
      pixel img x y =
      (if is_round then round_pixel else standard_pixel)
        logo_resized ((size - logo_size) `div` 2) size x y.
Proof.
  intros Hrun.
  apply create_circular_icon_Ok in Hrun as (b & logo & img & Hsrc & Hdec & Hcomp & _ & _ & ->).
  destruct (decoded_logo b logo Hdec) as (Hwf & Hmode & Hw & Hh).
  apply compose_circular_icon_Ok in Hcomp; try done.
  destruct Hcomp as (logo_resized & Hsize & Hres & Hwfr & Hwr & Hhr & Hwfi & Hmi & Hwi & Hhi & Hpix).
  exists b, logo, img, logo_resized. cbn [fs].
  pose proof MAX_WIDTH_lt.
  split_and!; try done; try lia.
  apply (saved_image_decodes img size); try done. lia.
Qed.

(** C2. For every target size and every source logo, the round icon that
    [create_circular_icon] saves has zero alpha at every pixel of the
    size-by-size output that lies outside the circle inscribed in the
    canvas, and at every pixel the disc drawn for the bounding box of the
    canvas does not cover. *)
Theorem round_icon_clear_outside_circle source_path output_path size w w' :
  CircularIcons.create_circular_icon source_path output_path size true w = (Ok (), w') →
  ∃ img,
    fs w' !! output_path = Some (File (png_encode img)) ∧
    decode (png_encode img) = Some img ∧
    width img = size ∧ height img = size ∧
    ∀ x y, 0 ≤ x < size → 0 ≤ y < size →
      outside_inscribed_circle size x y ∨ ellipse_covers (circle_box size) x y = false →
      alpha (pixel img x y) = 0.
Proof.
  intros Hrun.
  apply create_circular_icon_saves in Hrun
    as (b & logo & img & logo_resized & _ & _ & _ & _ & _ & _ & _ & Hfs & Hdec & _ & Hw & Hh & Hpix).
  exists img. rewrite Hfs, lookup_insert_eq. split_and!; try done.
  intros x y Hx Hy Hout. rewrite Hpix by done.
  assert (Hclear : ellipse_covers (circle_box size) x y = false).
  { destruct Hout as [Hgeo|Hdisc]; [|done].
    destruct (ellipse_covers (circle_box size) x y) eqn:Hcov; [|done].
    unfold circle_box in Hcov.
    apply ellipse_inscribed in Hcov as (_ & _ & Hin); [|done].
    unfold outside_inscribed_circle in Hgeo.
    replace (2 * x - (0 + (size - 1))) with (2 * x + 1 - size) in Hin by lia.
    replace (2 * y - (0 + (size - 1))) with (2 * y + 1 - size) in Hin by lia.
    replace (size - 1 - 0 + 1) with size in Hin by lia. lia. }
  unfold round_pixel. rewrite Hclear. by rewrite blend_rgba_clear.
Qed.

Lemma in_bounds_square {P} (im : image P) n x y :
  width im = n → height im = n →
  in_bounds im x y = bool_decide (0 ≤ x < n ∧ 0 ≤ y < n).
Proof. intros Hw Hh. unfold in_bounds. by rewrite Hw, Hh. Qed.

(** C7. For every target size, [create_circular_icon] builds a square
    canvas of the target size that is transparent where the disc spanning
    it does not reach and opaque black where it does, resamples the logo to
    72% of the edge (rounded down), and pastes it centred under its own
    alpha band: the logo's opaque pixels replace the background, its
    fully transparent pixels leave it, and outside the logo's square the
    background stays.  The standard variant saves this composite; the round
    variant saves it pasted under the disc mask. *)
Theorem circular_icon_composition source_path output_path size is_round w w' :
  CircularIcons.create_circular_icon source_path output_path size is_round w = (Ok (), w') →
  ∃ b logo img logo_resized (composite : Z → Z → rgba),
    let logo_size := (72 * size) `div` 100 in
    let pos := (size - logo_size) `div` 2 in
    fs w !! source_path = Some (File b) ∧ decode b = Some logo ∧
    fs w' !! output_path = Some (File (png_encode img)) ∧
    decode (png_encode img) = Some img ∧
    mode img = ModeRGBA ∧ width img = size ∧ height img = size ∧
    int_mul_float size CircularIcons.LOGO_SCALE = Ok logo_size ∧
    100 * logo_size ≤ 72 * size < 100 * (logo_size + 1) ∧
    Image_resize (convert_RGBA logo) (logo_size, logo_size) = Ok logo_resized ∧
    (logo_resized = resample_LANCZOS (convert_RGBA logo) logo_size logo_size ∨
     logo_resized = convert_RGBA logo) ∧
    width logo_resized = logo_size ∧ height logo_resized = logo_size ∧
    0 ≤ pos ∧ pos ≤ size - logo_size - pos ≤ pos + 1 ∧
    ∀ x y, 0 ≤ x < size → 0 ≤ y < size →
      let background :=
        if ellipse_covers (0, 0, size - 1, size - 1) x y then black else transparent in
      let logo_pixel := pixel logo_resized (x - pos) (y - pos) in
      (pos ≤ x < pos + logo_size ∧ pos ≤ y < pos + logo_size →
         composite x y = blend_rgba (alpha logo_pixel) background logo_pixel ∧
         (alpha logo_pixel = 255 → composite x y = logo_pixel) ∧
         (alpha logo_pixel = 0 → composite x y = background)) ∧
      (¬ (pos ≤ x < pos + logo_size ∧ pos ≤ y < pos + logo_size) →
         composite x y = background) ∧
      pixel img x y =
        if is_round
        then blend_rgba (if ellipse_covers (0, 0, size - 1, size - 1) x y then 255 else 0)
                        transparent (composite x y)
        else composite x y.
Proof.
  intros Hrun.
  apply create_circular_icon_saves in Hrun
    as (b & logo & img & logo_resized & Hsrc & Hdec & Hsize & Hres & Hwfr & Hwr & Hhr
        & Hfs & Hdi & Hmi & Hwi & Hhi & Hpix).
  set (logo_size := (72 * size) `div` 100) in *.
  set (pos := (size - logo_size) `div` 2) in *.
  exists b, logo, img, logo_resized, (standard_pixel logo_resized pos size).
  pose proof MAX_WIDTH_lt as HMW.
  assert (Hls : 100 * logo_size ≤ 72 * size < 100 * (logo_size + 1)).
  { pose proof (Z.div_mod (72 * size) 100 ltac:(lia)) as Hdm.
    pose proof (Z.mod_pos_bound (72 * size) 100 ltac:(lia)). fold logo_size in Hdm. lia. }
  assert (Hpos : 0 ≤ pos ∧ pos ≤ size - logo_size - pos ≤ pos + 1).
  { pose proof (Z.div_mod (size - logo_size) 2 ltac:(lia)) as Hdm.
    pose proof (Z.mod_pos_bound (size - logo_size) 2 ltac:(lia)). fold pos in Hdm. lia. }
  cbv zeta. rewrite Hfs, lookup_insert_eq.
  split_and!; try done; try lia.
  - apply int_mul_float_LOGO_SCALE. lia.
  - unfold Image_resize in Hres. case_bool_decide; [right; by simplify_eq|].
    repeat (case_bool_decide; [done|]). left. by simplify_eq.
  - subst pos logo_size. intros x y Hx Hy.
    set (logo_size := (72 * size) `div` 100) in *.
    set (pos := (size - logo_size) `div` 2) in *.
    assert (Hpx : rgba_bytes (pixel logo_resized (x - pos) (y - pos)))
      by (by apply pixel_bytes).
    pose proof (background_pixel_bytes size x y) as Hbg.
    unfold standard_pixel, background_pixel, circle_box in *.
    rewrite (in_bounds_square logo_resized logo_size) by done.
    split_and!.
    + intros Hin. rewrite bool_decide_eq_true_2 by lia. split_and!; [done| |].
      * intros ->. by apply blend_rgba_mask_255.
      * intros ->. by apply blend_rgba_mask_0.
    + intros Hout. by rewrite bool_decide_eq_false_2 by lia.
    + rewrite Hpix by done. destruct is_round.
      * unfold round_pixel, standard_pixel, background_pixel, circle_box.
        by rewrite (in_bounds_square logo_resized logo_size) by done.
      * by rewrite (in_bounds_square logo_resized logo_size) by done.
Qed.

(** C9, as amended.  For every target size and every source logo, the
    standard icon that [create_circular_icon] saves is transparent at every
    pixel outside the drawn disc that lies outside the square the logo is
    pasted into, or at which the resampled logo has zero alpha.  (A pixel of
    the logo with non-zero alpha that falls outside the disc is pasted all
    the same: see [standard_icon_opaque_outside_circle].) *)
Theorem standard_icon_clear_outside_circle_and_logo source_path output_path size w w' :
  CircularIcons.create_circular_icon source_path output_path size false w = (Ok (), w') →
  ∃ b logo img logo_resized,
    let logo_size := (72 * size) `div` 100 in
    let pos := (size - logo_size) `div` 2 in
    fs w !! source_path = Some (File b) ∧ decode b = Some logo ∧
    Image_resize (convert_RGBA logo) (logo_size, logo_size) = Ok logo_resized ∧
    fs w' !! output_path = Some (File (png_encode img)) ∧
    decode (png_encode img) = Some img ∧
    width img = size ∧ height img = size ∧
    ∀ x y, 0 ≤ x < size → 0 ≤ y < size →
      ellipse_covers (circle_box size) x y = false →
      ¬ (pos ≤ x < pos + logo_size ∧ pos ≤ y < pos + logo_size) ∨
        alpha (pixel logo_resized (x - pos) (y - pos)) = 0 →
      pixel img x y = transparent.
Proof.
  intros Hrun.
  apply create_circular_icon_saves in Hrun
    as (b & logo & img & logo_resized & Hsrc & Hdec & Hsize & Hres & Hwfr & Hwr & Hhr
        & Hfs & Hdi & Hmi & Hwi & Hhi & Hpix).
  exists b, logo, img, logo_resized. cbv zeta. rewrite Hfs, lookup_insert_eq.
  split_and!; try done.
  intros x y Hx Hy Hout Hlogo. rewrite Hpix by done.
  unfold standard_pixel, background_pixel. rewrite Hout.
  rewrite (in_bounds_square logo_resized ((72 * size) `div` 100)) by done.
  case_bool_decide as Hin; [|done].
  destruct Hlogo as [Hnin|Hclear]; [exfalso; apply Hnin; lia|].
  rewrite Hclear. apply blend_rgba_clear.
Qed.

End properties.

Lemma round_icon_clear_outside_circle_witness :
  let w := example_world in
  let w' := (CircularIcons.create_circular_icon "logo.png" "icon.png" 4 true w).2 in
  ∃ img,
    fs w' !! "icon.png" = Some (File (png_encode img)) ∧
    width img = 4 ∧ height img = 4 ∧
    alpha (pixel img 0 0) = 0 ∧ alpha (pixel img 3 0) = 0 ∧
    alpha (pixel img 0 3) = 0 ∧ alpha (pixel img 3 3) = 0.
Proof.
  intros w w'.
  destruct (round_icon_clear_outside_circle "logo.png" "icon.png" 4 w w')
    as (img & Hfile & _ & Hw & Hh & Hpix).
  - vm_compute. reflexivity.
  - exists img. split_and!; try assumption;
      (apply Hpix; [lia|lia|left; unfold outside_inscribed_circle; lia]).
Defined.

Lemma circular_icon_composition_witness :
  let w := example_world in
  let run := CircularIcons.create_circular_icon "logo.png" "icon.png" 4 false w in
  run.1 = Ok () ∧
  ∃ img, fs run.2 !! "icon.png" = Some (File (png_encode img)) ∧
         width img = 4 ∧ height img = 4.
Proof.
  intros w run. split; [by vm_compute|].
  destruct (circular_icon_composition "logo.png" "icon.png" 4 false w run.2)
    as (b & logo & img & logo_resized & composite & _ & _ & Hfile & _ & _ & Hw & Hh & _).
  - vm_compute. reflexivity.
  - exists img. split_and!; assumption.
Defined.

Lemma standard_icon_clear_outside_circle_and_logo_witness :
  let w := example_world in
  let run := CircularIcons.create_circular_icon "logo.png" "icon.png" 4 false w in
  run.1 = Ok () ∧
  ∃ img, fs run.2 !! "icon.png" = Some (File (png_encode img)) ∧
         pixel img 0 0 = transparent.
Proof.
  intros w run. split; [by vm_compute|].
  destruct (standard_icon_clear_outside_circle_and_logo "logo.png" "icon.png" 4 w run.2)
    as (b & logo & img & logo_resized & _ & _ & _ & Hfile & _ & _ & _ & Hpix).
  - vm_compute. reflexivity.
  - exists img. split; [assumption|].
    apply Hpix; [lia | lia | by vm_compute |].
    left. intros [[Hle _] _]. vm_compute in Hle. by apply Hle.
Defined.

(** C9, as stated, fails: on the 192-pixel canvas the opaque white logo is
    pasted with its corner at (27, 27), a pixel the disc does not cover, and
    the saved standard icon is opaque there. *)
Lemma standard_icon_opaque_outside_circle :
  ∃ w' img,
    CircularIcons.create_circular_icon "logo.png" "icon.png" 192 false example_world
      = (Ok (), w') ∧
    fs w' !! "icon.png" = Some (File (png_encode img)) ∧
    ellipse_covers (circle_box 192) 27 27 = false ∧
    alpha (pixel img 27 27) = 255.
Proof.
  destruct (compose_circular_icon_total (convert_RGBA example_logo) 192 false)
    as [img Himg].
  { apply reference_convert_spec. apply wf_tabulate; [lia..|].
    intros. unfold rgba_bytes, is_byte. simpl. lia. }
  { done. }
  { simpl. lia. }
  { simpl. lia. }
  { split; [lia|]. by vm_compute. }
  eexists _, img. split_and!.
  - apply (create_circular_icon_run _ _ _ _ _ (Reference.encode example_logo) example_logo img).
    + by vm_compute.
    + by vm_compute.
    + exact Himg.
    + by vm_compute.
    + left. by vm_compute.
  - cbn [fs]. apply lookup_insert_eq.
  - by vm_compute.
  - apply compose_circular_icon_Ok in Himg
      as (logo_resized & _ & Hres & _ & Hwr & Hhr & _ & _ & _ & _ & Hpix).
    + rewrite Hpix by lia.
      change ((72 * 192) `div` 100) with 138 in *.
      change ((192 - 138) `div` 2) with 27 in *.
      unfold standard_pixel.
      rewrite (in_bounds_square logo_resized 138) by done.
      change (27 - 27) with 0. rewrite bool_decide_eq_true_2 by lia.
      unfold Image_resize in Hres.
      rewrite bool_decide_eq_false_2 in Hres by (simpl; lia).
      rewrite !bool_decide_eq_false_2 in Hres by (by vm_compute MAX_WIDTH; lia).
      injection Hres as <-.
      assert (Hl : pixel (Reference.resample (Reference.convert_RGBA example_logo) 138 138) 0 0
                   = white).
      { unfold pixel, Reference.resample.
        rewrite pixel_at_tabulate by lia. by vm_compute. }
      rewrite Hl. by vm_compute.
    + apply reference_convert_spec. apply wf_tabulate; [lia..|].
      intros. unfold rgba_bytes, is_byte. simpl. lia.
    + done.
    + simpl. lia.
    + simpl. lia.
Qed.

(** * Further properties: a source that is missing or is no image *)

Section source_errors.
Context `{Imaging}.

(** X1. When the source logo does not exist, the circular icon generator
    prints its error line and returns: nothing else is printed and the file
    system is left as it was. *)
Theorem circular_main_missing_source home w :
  fs w !! CircularIcons.SOURCE_LOGO home = None →
  CircularIcons.main home w =
  (Ok (), World (fs w) (stdout w ++ [CircularIcons.source_error home])).
Proof.
  intros Hsrc. unfold CircularIcons.main, mbind, M_bind, path_exists.
  rewrite Hsrc, bool_decide_eq_false_2 by (by intros [? ?]). done.
Qed.

(** X2. When the source logo does not exist, the splash logo generator
    prints its error line and returns: nothing else is printed and the file
    system is left as it was. *)
Theorem splash_main_missing_source home w :
  fs w !! SplashScreens.SOURCE_LOGO home = None →
  SplashScreens.main home w =
  (Ok (), World (fs w) (stdout w ++ [SplashScreens.source_error home])).
Proof.
  intros Hsrc. unfold SplashScreens.main, mbind, M_bind, path_exists.
  rewrite Hsrc, bool_decide_eq_false_2 by (by intros [? ?]). done.
Qed.

Lemma Image_open_world p w : (Image_open p w).2 = w.
Proof.
  unfold Image_open. destruct (fs w !! p) as [[|b]|]; try done. by destruct (decode b).
Qed.

Lemma Image_open_fs p w1 w2 :
  fs w1 = fs w2 → (Image_open p w1).1 = (Image_open p w2).1.
Proof.
  intros Hfs. unfold Image_open. rewrite Hfs.
  destruct (fs w2 !! p) as [[|b]|]; try done. by destruct (decode b).
Qed.

Lemma Image_open_Raise p w e :
  (Image_open p w).1 = Raise e → Image_open p w = (Raise e, w).
Proof.
  intros Hr. pose proof (Image_open_world p w) as Hw.
  destruct (Image_open p w) as [r w']. cbn [fst snd] in *. by subst.
Qed.

(** A loop whose body leaves the file system alone, prints [lines a] and
    raises [e] on the elements [stop] selects: it raises at the first of
    them, having printed the lines of the elements up to it. *)
Lemma for_each_abort {A} (l : list A) (body : A → M unit) (stop : A → bool)
    (lines : A → list string) e (fs0 : gmap string node) w :
  fs w = fs0 →
  (∀ a w, a ∈ l → fs w = fs0 →
     body a w = (if stop a then Raise e else Ok (), World fs0 (stdout w ++ lines a))) →
  for_each l body w =
  (if existsb stop l then Raise e else Ok (),
   World fs0 (stdout w ++ flat_map lines (up_to_first stop l))).
Proof.
  revert w. induction l as [|a l IH]; intros w Hw Hbody.
  - cbn. destruct w as [f out]. cbn [fs stdout] in *. subst. by rewrite app_nil_r.
  - cbn [for_each existsb up_to_first flat_map]. unfold mbind, M_bind.
    rewrite (Hbody a w) by (done || apply list_elem_of_here).
    destruct (stop a); cbn [orb].
    + cbn [flat_map]. by rewrite app_nil_r.
    + rewrite IH; [|done|].
      * cbn [stdout]. by rewrite <- app_assoc.
      * intros a' w2 Ha'. apply Hbody. by apply list_elem_of_further.
Qed.

Lemma create_circular_icon_unreadable source_path output_path size is_round w e :
  1 ≤ size ≤ MAX_WIDTH →
  (Image_open source_path w).1 = Raise e →
  CircularIcons.create_circular_icon source_path output_path size is_round w = (Raise e, w).
Proof.
  intros Hsize Hopen. apply Image_open_Raise in Hopen.
  unfold CircularIcons.create_circular_icon, mbind, M_bind, lift.
  rewrite Image_new_square by lia.
  unfold draw_ellipse. rewrite bool_decide_eq_false_2 by lia.
  by rewrite Hopen.
Qed.

Lemma generate_splash_logo_unreadable source_path output_path size w e :
  (Image_open source_path w).1 = Raise e →
  SplashScreens.generate_splash_logo source_path output_path size w = (Raise e, w).
Proof.
  intros Hopen. apply Image_open_Raise in Hopen.
  unfold SplashScreens.generate_splash_logo, mbind, M_bind. by rewrite Hopen.
Qed.

(** X3. When the source logo exists but cannot be opened as an image (it
    is a directory, or its contents do not decode), the circular icon
    generator writes no file.  It prints its opening lines and, in the order
    of the table, the warning of every density whose directory is missing,
    until it reaches the first density whose directory exists: there the
    exception of [Image.open] leaves [main], and nothing more is printed.
    The run returns normally, having printed all five warnings and its
    closing lines, only if no directory exists. *)
Theorem circular_main_unreadable_source home w e :
  is_Some (fs w !! CircularIcons.SOURCE_LOGO home) →
  (Image_open (CircularIcons.SOURCE_LOGO home) w).1 = Raise e →
  let found (entry : string * Z) :=
    bool_decide (is_Some (fs w !! CircularIcons.mipmap_dir entry.1)) in
  CircularIcons.main home w =
  (if existsb found CircularIcons.ICON_SIZES then Raise e else Ok (),
   World (fs w)
     (stdout w ++ circular_banner ++
      flat_map (λ entry, if found entry then []
                         else [CircularIcons.warning (CircularIcons.mipmap_dir entry.1)])
               (up_to_first found CircularIcons.ICON_SIZES) ++
      (if existsb found CircularIcons.ICON_SIZES then [] else circular_footer))).
Proof.
  intros Hsrc Hopen found.
  unfold CircularIcons.main. unfold mbind at 1, M_bind at 1, path_exists.
  rewrite bool_decide_eq_true_2 by done. cbn [negb].
  unfold mbind, M_bind, print. cbn [fs stdout].
  set (w1 := World (fs w) _).
  rewrite (for_each_abort CircularIcons.ICON_SIZES (CircularIcons.main_body home) found
             (λ entry, if found entry then []
                       else [CircularIcons.warning (CircularIcons.mipmap_dir entry.1)])
             e (fs w) w1 eq_refl).
  - destruct (existsb found CircularIcons.ICON_SIZES).
    + f_equal. f_equal. unfold w1, circular_banner. cbn [stdout].
      rewrite app_nil_r. by rewrite <- !app_assoc.
    + cbn [fs stdout]. f_equal. f_equal. unfold w1, circular_banner, circular_footer.
      cbn [stdout]. by rewrite <- !app_assoc.
  - intros entry w0 Hin Hw0.
    pose proof circular_entry_facts as Hfacts. rewrite Forall_forall in Hfacts.
    destruct (Hfacts _ Hin) as (Hsize & _).
    destruct entry as [density size]. cbn [fst snd] in *.
    unfold CircularIcons.main_body, mbind, M_bind, path_exists, print, mret, M_ret.
    unfold found. cbn [fst]. rewrite Hw0.
    destruct (bool_decide (is_Some (fs w !! CircularIcons.mipmap_dir density))) eqn:Hdir.
    + rewrite (create_circular_icon_unreadable _ _ _ _ _ e); [|lia|].
      * destruct w0 as [f out]. cbn [fs stdout] in *. subst. by rewrite app_nil_r.
      * by rewrite (Image_open_fs _ w0 w).
    + cbn [fs stdout]. by rewrite Hw0, Hdir.
Qed.

(** X4. When the source logo exists but cannot be opened as an image, the
    splash logo generator writes no file.  It prints its opening line and,
    in the order of the table, the two warnings of every density neither
    directory of which exists, until it reaches the first density for which
    the light or the dark directory exists: there the exception of
    [Image.open] leaves [main], at the light destination if its directory
    exists, and otherwise at the dark one after the warning for the light
    one.  The run returns normally, having printed all ten warnings and its
    closing lines, only if no directory exists. *)
Theorem splash_main_unreadable_source home w e :
  is_Some (fs w !! SplashScreens.SOURCE_LOGO home) →
  (Image_open (SplashScreens.SOURCE_LOGO home) w).1 = Raise e →
  let light (entry : string * Z) :=
    bool_decide (is_Some (fs w !! SplashScreens.regular_dir entry.1)) in
  let dark (entry : string * Z) :=
    bool_decide (is_Some (fs w !! SplashScreens.dark_dir entry.1)) in
  let found entry := light entry || dark entry in
  SplashScreens.main home w =
  (if existsb found SplashScreens.SPLASH_SIZES then Raise e else Ok (),
   World (fs w)
     (stdout w ++ splash_banner ++
      flat_map (λ entry,
                  if light entry then []
                  else SplashScreens.warning (SplashScreens.regular_dir entry.1) ::
                       (if dark entry then []
                        else [SplashScreens.warning (SplashScreens.dark_dir entry.1)]))
               (up_to_first found SplashScreens.SPLASH_SIZES) ++
      (if existsb found SplashScreens.SPLASH_SIZES then [] else splash_footer))).
Proof.
  intros Hsrc Hopen light dark found.
  unfold SplashScreens.main. unfold mbind at 1, M_bind at 1, path_exists.
  rewrite bool_decide_eq_true_2 by done. cbn [negb].
  unfold mbind, M_bind, print. cbn [fs stdout].
  set (w1 := World (fs w) _).
  rewrite (for_each_abort SplashScreens.SPLASH_SIZES (SplashScreens.main_body home) found
             (λ entry,
                if light entry then []
                else SplashScreens.warning (SplashScreens.regular_dir entry.1) ::
                     (if dark entry then []
                      else [SplashScreens.warning (SplashScreens.dark_dir entry.1)]))
             e (fs w) w1 eq_refl).
  - destruct (existsb found SplashScreens.SPLASH_SIZES).
    + f_equal. f_equal. unfold w1, splash_banner. cbn [stdout].
      rewrite app_nil_r. by rewrite <- !app_assoc.
    + cbn [fs stdout]. f_equal. f_equal. unfold w1, splash_banner, splash_footer.
      cbn [stdout]. by rewrite <- !app_assoc.
  - intros [density size] w0 Hin Hw0.
    unfold SplashScreens.main_body, SplashScreens.destination,
      mbind, M_bind, path_exists, print.
    unfold found, light, dark. cbn [fst]. rewrite Hw0.
    destruct (bool_decide (is_Some (fs w !! SplashScreens.regular_dir density))); cbn [orb].
    + rewrite (generate_splash_logo_unreadable _ _ _ _ e).
      * destruct w0 as [f out]. cbn [fs stdout] in *. subst. by rewrite app_nil_r.
      * by rewrite (Image_open_fs _ w0 w).
    + cbn [fs stdout]. rewrite Hw0.
      destruct (bool_decide (is_Some (fs w !! SplashScreens.dark_dir density))).
      * rewrite (generate_splash_logo_unreadable _ _ _ _ e).
        -- cbn [fs stdout]. by rewrite ?Hw0.
        -- by rewrite <- Hopen; apply Image_open_fs.
      * cbn [fs stdout]. rewrite ?Hw0. by rewrite <- app_assoc.
Qed.

End source_errors.

Lemma circular_main_missing_source_witness :
  CircularIcons.main None (World ∅ []) =
  (Ok (), World ∅ [CircularIcons.source_error None]).
Proof. apply (circular_main_missing_source None (World ∅ [])). reflexivity. Defined.

Lemma splash_main_missing_source_witness :
  SplashScreens.main None (World ∅ []) =
  (Ok (), World ∅ [SplashScreens.source_error None]).
Proof. apply (splash_main_missing_source None (World ∅ [])). reflexivity. Defined.

Lemma circular_main_unreadable_source_witness :
  CircularIcons.main example_home broken_tree =
  (Raise UnidentifiedImageError,
   World (fs broken_tree)
     (circular_banner ++ [CircularIcons.warning (CircularIcons.mipmap_dir "mdpi")])).
Proof.
  rewrite (circular_main_unreadable_source example_home broken_tree UnidentifiedImageError).
  - vm_compute. reflexivity.
  - apply (bool_decide_unpack _). by vm_compute.
  - by vm_compute.
Defined.

Lemma splash_main_unreadable_source_witness :
  SplashScreens.main example_home broken_tree =
  (Raise UnidentifiedImageError,
   World (fs broken_tree)
     (splash_banner ++
      [SplashScreens.warning (SplashScreens.regular_dir "mdpi");
       SplashScreens.warning (SplashScreens.dark_dir "mdpi");
       SplashScreens.warning (SplashScreens.regular_dir "hdpi")])).
Proof.
  rewrite (splash_main_unreadable_source example_home broken_tree UnidentifiedImageError).
  - vm_compute. reflexivity.
  - apply (bool_decide_unpack _). by vm_compute.
  - by vm_compute.
Defined.

(** * Further properties: what the runs leave alone *)

Section frame_facts.
Context `{Imaging}.

Lemma only_writes_refl ps w : only_writes ps w w.
Proof. intros p. by left. Qed.

Lemma only_writes_same_fs ps w w' : fs w' = fs w → only_writes ps w w'.
Proof. intros Hfs p. left. by rewrite Hfs. Qed.

Lemma only_writes_trans ps w1 w2 w3 :
  only_writes ps w1 w2 → only_writes ps w2 w3 → only_writes ps w1 w3.
Proof.
  intros H12 H23 p. destruct (H23 p) as [Heq|?]; [|by right].
  rewrite Heq. apply H12.
Qed.

Lemma only_writes_insert ps w p b out :
  p ∈ ps → only_writes ps w (World (<[p := File b]> (fs w)) out).
Proof.
  intros Hp q. cbn [fs]. destruct (decide (p = q)) as [<-|Hne].
  - right. split; [done|]. exists b. apply lookup_insert_eq.
  - left. by rewrite lookup_insert_ne.
Qed.

Lemma only_rewrites_refl ps w : only_rewrites ps w w.
Proof. intros p. by left. Qed.

Lemma only_rewrites_same_fs ps w w' : fs w' = fs w → only_rewrites ps w w'.
Proof. intros Hfs p. left. by rewrite Hfs. Qed.

Lemma only_rewrites_trans ps w1 w2 w3 :
  only_rewrites ps w1 w2 → only_rewrites ps w2 w3 → only_rewrites ps w1 w3.
Proof.
  intros H12 H23 p. destruct (H23 p) as [Heq|(Hp & [b0 Hb0] & Hb)].
  - rewrite Heq. apply H12.
  - right. split; [done|]. split; [|done].
    destruct (H12 p) as [Heq|(_ & Hold & _)]; [|done].
    exists b0. by rewrite <- Heq.
Qed.

Lemma only_rewrites_insert ps w p b0 b out :
  p ∈ ps → fs w !! p = Some (File b0) →
  only_rewrites ps w (World (<[p := File b]> (fs w)) out).
Proof.
  intros Hp Hold q. cbn [fs]. destruct (decide (p = q)) as [<-|Hne].
  - right. split; [done|]. split; [by exists b0|]. exists b. apply lookup_insert_eq.
  - left. by rewrite lookup_insert_ne.
Qed.

(** A relation on worlds that is reflexive and transitive holds across a
    sequence of steps when it holds across each. *)
Lemma bind_preserves {A B} (R : world → world → Prop) (c : M A) (f : A → M B) :
  (∀ w1 w2 w3, R w1 w2 → R w2 w3 → R w1 w3) →
  (∀ w r w', c w = (r, w') → R w w') →
  (∀ a w r w', f a w = (r, w') → R w w') →
  ∀ w r w', (c ≫= f) w = (r, w') → R w w'.
Proof.
  intros Htrans Hc Hf w r w'. unfold mbind, M_bind.
  destruct (c w) as [[a|e] w1] eqn:Ec; intros Hrun.
  - eapply Htrans; [by eapply Hc | by eapply Hf].
  - injection Hrun as <- <-. by eapply Hc.
Qed.

Lemma for_each_preserves {A} (R : world → world → Prop) (l : list A) (body : A → M unit) :
  (∀ w, R w w) →
  (∀ w1 w2 w3, R w1 w2 → R w2 w3 → R w1 w3) →
  (∀ a w r w', a ∈ l → body a w = (r, w') → R w w') →
  ∀ w r w', for_each l body w = (r, w') → R w w'.
Proof.
  intros Hrefl Htrans. induction l as [|a l IH]; intros Hbody.
  - intros w r w' [= <- <-]. apply Hrefl.
  - cbn [for_each]. apply bind_preserves; [done| |].
    + intros w r w'. apply Hbody. apply list_elem_of_here.
    + intros _. apply IH. intros a' w r w' Ha'. apply Hbody. by apply list_elem_of_further.
Qed.

Lemma print_same_fs line w r w' : print line w = (r, w') → fs w' = fs w.
Proof. unfold print. by intros [= <- <-]. Qed.

Lemma create_circular_icon_only_writes ps source_path output_path size is_round w r w' :
  output_path ∈ ps →
  CircularIcons.create_circular_icon source_path output_path size is_round w = (r, w') →
  only_writes ps w w'.
Proof.
  intros Hout Hrun. destruct r as [[]|e].
  - apply create_circular_icon_Ok in Hrun as (b & logo & img & _ & _ & _ & _ & _ & ->).
    by apply only_writes_insert.
  - apply create_circular_icon_Raise in Hrun as ->. apply only_writes_refl.
Qed.

Lemma generate_splash_logo_only_writes ps source_path output_path size w r w' :
  output_path ∈ ps →
  SplashScreens.generate_splash_logo source_path output_path size w = (r, w') →
  only_writes ps w w'.
Proof.
  intros Hout Hrun. destruct r as [[]|e].
  - apply generate_splash_logo_Ok in Hrun as (b & logo & img & _ & _ & _ & _ & _ & ->).
    by apply only_writes_insert.
  - apply generate_splash_logo_Raise in Hrun as ->. apply only_writes_refl.
Qed.

Lemma scale_icon_only_rewrites ps path canvas_size w r w' :
  path ∈ ps →
  ScaleIcons.scale_icon path path canvas_size w = (r, w') →
  only_rewrites ps w w'.
Proof.
  intros Hout Hrun. destruct r as [[]|e].
  - apply scale_icon_Ok in Hrun as (b & logo & img & Hold & _ & _ & _ & _ & ->).
    by apply (only_rewrites_insert _ _ _ b).
  - apply scale_icon_Raise in Hrun as ->. apply only_rewrites_refl.
Qed.

Lemma circular_main_only_writes home w r w' :
  CircularIcons.main home w = (r, w') → only_writes circular_targets w w'.
Proof.
  revert w r w'. unfold CircularIcons.main.
  apply bind_preserves; [apply only_writes_trans|by intros w r w' [= <- <-]; apply only_writes_refl|].
  intros found.
  destruct (negb found); [intros w r w' Hp; eapply only_writes_same_fs, print_same_fs, Hp|].
  repeat (apply bind_preserves;
    [apply only_writes_trans
    |intros w r w' Hp; eapply only_writes_same_fs, print_same_fs, Hp
    |intros _]).
  apply bind_preserves; [apply only_writes_trans| |intros _].
  - apply for_each_preserves; [apply only_writes_refl|apply only_writes_trans|].
    intros entry w r w' Hin.
    pose proof circular_entry_facts as Hfacts. rewrite Forall_forall in Hfacts.
    destruct (Hfacts _ Hin) as (_ & _ & _ & _ & _ & _ & _ & Hts & Htr).
    destruct entry as [density size]. cbn [fst] in *. revert w r w'.
    unfold CircularIcons.main_body.
    apply bind_preserves; [apply only_writes_trans| |intros _].
    + apply bind_preserves; [apply only_writes_trans
        |by intros w r w' [= <- <-]; apply only_writes_refl|].
      intros [|] w r w'; [by apply create_circular_icon_only_writes|].
      intros Hp; eapply only_writes_same_fs, print_same_fs, Hp.
    + apply bind_preserves; [apply only_writes_trans
        |by intros w r w' [= <- <-]; apply only_writes_refl|].
      intros [|] w r w'; [by apply create_circular_icon_only_writes|].
      intros [= <- <-]. apply only_writes_refl.
  - repeat (apply bind_preserves;
      [apply only_writes_trans
      |intros w r w' Hp; eapply only_writes_same_fs, print_same_fs, Hp
      |intros _]).
    intros w r w' Hp; eapply only_writes_same_fs, print_same_fs, Hp.
Qed.

Lemma splash_main_only_writes home w r w' :
  SplashScreens.main home w = (r, w') → only_writes splash_targets w w'.
Proof.
  revert w r w'. unfold SplashScreens.main.
  apply bind_preserves; [apply only_writes_trans|by intros w r w' [= <- <-]; apply only_writes_refl|].
  intros found.
  destruct (negb found); [intros w r w' Hp; eapply only_writes_same_fs, print_same_fs, Hp|].
  repeat (apply bind_preserves;
    [apply only_writes_trans
    |intros w r w' Hp; eapply only_writes_same_fs, print_same_fs, Hp
    |intros _]).
  apply bind_preserves; [apply only_writes_trans| |intros _].
  - apply for_each_preserves; [apply only_writes_refl|apply only_writes_trans|].
    intros entry w r w' Hin.
    pose proof splash_entry_facts as Hfacts. rewrite Forall_forall in Hfacts.
    destruct (Hfacts _ Hin) as (_ & _ & _ & _ & _ & Htr & Htd).
    destruct entry as [density size]. cbn [fst] in *. revert w r w'.
    unfold SplashScreens.main_body, SplashScreens.destination.
    apply bind_preserves; [apply only_writes_trans| |intros _].
    + apply bind_preserves; [apply only_writes_trans
        |by intros w r w' [= <- <-]; apply only_writes_refl|].
      intros [|] w r w'; [by apply generate_splash_logo_only_writes|].
      intros Hp; eapply only_writes_same_fs, print_same_fs, Hp.
    + apply bind_preserves; [apply only_writes_trans
        |by intros w r w' [= <- <-]; apply only_writes_refl|].
      intros [|] w r w'; [by apply generate_splash_logo_only_writes|].
      intros Hp; eapply only_writes_same_fs, print_same_fs, Hp.
  - repeat (apply bind_preserves;
      [apply only_writes_trans
      |intros w r w' Hp; eapply only_writes_same_fs, print_same_fs, Hp
      |intros _]).
    intros w r w' Hp; eapply only_writes_same_fs, print_same_fs, Hp.
Qed.

Lemma scale_main_only_rewrites w r w' :
  ScaleIcons.main w = (r, w') → only_rewrites scale_targets w w'.
Proof.
  revert w r w'. unfold ScaleIcons.main.
  apply bind_preserves; [apply only_rewrites_trans
    |intros w r w' Hp; eapply only_rewrites_same_fs, print_same_fs, Hp|intros _].
  apply bind_preserves; [apply only_rewrites_trans| |intros _].
  - apply for_each_preserves; [apply only_rewrites_refl|apply only_rewrites_trans|].
    intros [density size] w r w' Hin. revert w r w'.
    unfold ScaleIcons.main_body.
    apply for_each_preserves; [apply only_rewrites_refl|apply only_rewrites_trans|].
    intros name w r w' Hname. revert w r w'.
    assert (Htarget : ScaleIcons.icon_path density name ∈ scale_targets).
    { apply list_elem_of_In, in_flat_map. exists (density, size).
      split; [by apply list_elem_of_In|].
      apply list_elem_of_In. cbn [fst]. by apply list_elem_of_fmap_2. }
    unfold ScaleIcons.icon_body.
    apply bind_preserves; [apply only_rewrites_trans
      |by intros w r w' [= <- <-]; apply only_rewrites_refl|].
    intros [|] w r w'; [by apply scale_icon_only_rewrites|].
    intros Hp; eapply only_rewrites_same_fs, print_same_fs, Hp.
  - apply bind_preserves; [apply only_rewrites_trans
      |intros w r w' Hp; eapply only_rewrites_same_fs, print_same_fs, Hp|intros _].
    intros w r w' Hp; eapply only_rewrites_same_fs, print_same_fs, Hp.
Qed.

(** X5. Whatever the file system holds and however the run ends, the
    circular icon generator changes no path other than the ten icon paths
    of its table, and a path it changes holds a file afterwards; the source
    logo is never written. *)
Theorem circular_main_writes_only_icons home w :
  only_writes circular_targets w (CircularIcons.main home w).2 ∧
  fs (CircularIcons.main home w).2 !! CircularIcons.SOURCE_LOGO home
    = fs w !! CircularIcons.SOURCE_LOGO home.
Proof.
  destruct (CircularIcons.main home w) as [r w'] eqn:Hrun. cbn [snd].
  apply circular_main_only_writes in Hrun. split; [done|].
  destruct (Hrun (CircularIcons.SOURCE_LOGO home)) as [Heq|[Hin _]]; [done|].
  by apply circular_source_not_target in Hin.
Qed.

(** X6. Whatever the file system holds and however the run ends, the
    splash logo generator changes no path other than the ten
    [splashscreen_logo.png] paths of its table, and a path it changes holds
    a file afterwards; the source logo is never written. *)
Theorem splash_main_writes_only_logos home w :
  only_writes splash_targets w (SplashScreens.main home w).2 ∧
  fs (SplashScreens.main home w).2 !! SplashScreens.SOURCE_LOGO home
    = fs w !! SplashScreens.SOURCE_LOGO home.
Proof.
  destruct (SplashScreens.main home w) as [r w'] eqn:Hrun. cbn [snd].
  apply splash_main_only_writes in Hrun. split; [done|].
  destruct (Hrun (SplashScreens.SOURCE_LOGO home)) as [Heq|[Hin _]]; [done|].
  by apply splash_source_not_target in Hin.
Qed.

(** X7. Whatever the file system holds and however the run ends, the icon
    upscaler only replaces the contents of icon files of its table that
    were files before: it creates no path and removes none. *)
Theorem scale_main_rewrites_only_icons w :
  only_rewrites scale_targets w (ScaleIcons.main w).2 ∧
  dom (fs (ScaleIcons.main w).2) = dom (fs w).
Proof.
  destruct (ScaleIcons.main w) as [r w'] eqn:Hrun. cbn [snd].
  apply scale_main_only_rewrites in Hrun. split; [done|].
  apply set_eq. intros p. rewrite !elem_of_dom.
  destruct (Hrun p) as [Heq|(_ & [b0 Hb0] & [b Hb])]; [by rewrite Heq|].
  rewrite Hb0, Hb. split; eauto.
Qed.

End frame_facts.

(** * Further properties: sizes, offsets and pixels *)

Section function_facts.
Context `{Imaging}.

(** X8. For every canvas size that fits a C [int], the binary64 product
    [size * 0.72] truncates to the exact [72 * size / 100] rounded down: the
    rounding of [0.72] and of the product never reaches the integer part.
    The logo then fits the canvas, and the margins [(size - logo_size) // 2]
    leaves on the two sides differ by at most one pixel. *)
Theorem logo_size_is_72_percent_rounded_down size :
  0 ≤ size < 2 ^ 31 →
  ∃ logo_size,
    int_mul_float size CircularIcons.LOGO_SCALE = Ok logo_size ∧
    logo_size = (72 * size) `div` 100 ∧
    0 ≤ logo_size ≤ size ∧
    let position := (size - logo_size) `div` 2 in
    0 ≤ position ∧ position + logo_size ≤ size ∧
    position ≤ size - logo_size - position ≤ position + 1.
Proof.
  intros Hsize. exists ((72 * size) `div` 100).
  split; [by apply int_mul_float_LOGO_SCALE|]. split; [done|].
  pose proof (Z.div_mod (72 * size) 100 ltac:(lia)) as Hdm.
  pose proof (Z.mod_pos_bound (72 * size) 100 ltac:(lia)) as Hm.
  set (logo_size := (72 * size) `div` 100) in *.
  pose proof (Z.div_mod (size - logo_size) 2 ltac:(lia)) as Hdm2.
  pose proof (Z.mod_pos_bound (size - logo_size) 2 ltac:(lia)) as Hm2.
  cbv zeta. set (position := (size - logo_size) `div` 2) in *. lia.
Qed.

(** X9. For every canvas size that fits a C [int], [int(canvas_size * 2.0)]
    is exactly twice the canvas size, and the offset
    [(canvas_size - new_size) // 2] is the negative of half the canvas size
    rounded up: the scaled icon covers the canvas and sticks out on all four
    sides as soon as the canvas has two pixels. *)
Theorem scaled_size_is_double canvas_size :
  0 ≤ canvas_size < 2 ^ 31 →
  ∃ new_size,
    int_mul_float canvas_size ScaleIcons.SCALE_FACTOR = Ok new_size ∧
    new_size = 2 * canvas_size ∧
    let offset := (canvas_size - new_size) `div` 2 in
    offset = - ((canvas_size + 1) `div` 2) ∧
    offset ≤ 0 ∧ canvas_size ≤ offset + new_size ∧
    (2 ≤ canvas_size → offset < 0 ∧ canvas_size < offset + new_size).
Proof.
  intros Hsize. exists (2 * canvas_size).
  split; [by apply int_mul_float_SCALE_FACTOR|]. split; [done|].
  cbv zeta.
  pose proof (Z.div_mod (canvas_size - 2 * canvas_size) 2 ltac:(lia)) as Hdm.
  pose proof (Z.mod_pos_bound (canvas_size - 2 * canvas_size) 2 ltac:(lia)) as Hm.
  pose proof (Z.div_mod (canvas_size + 1) 2 ltac:(lia)) as Hdm2.
  pose proof (Z.mod_pos_bound (canvas_size + 1) 2 ltac:(lia)) as Hm2.
  lia.
Qed.

(** What [scale_icon] saves. *)
Lemma scale_icon_saves input_path output_path canvas_size w w' :
  ScaleIcons.scale_icon input_path output_path canvas_size w = (Ok (), w') →
  ∃ b icon img_scaled img,
    let shift := (canvas_size + 1) `div` 2 in
    fs w !! input_path = Some (File b) ∧ decode b = Some icon ∧
    1 ≤ canvas_size ≤ MAX_WIDTH ∧
    Image_resize (convert_RGBA icon) (2 * canvas_size, 2 * canvas_size) = Ok img_scaled ∧
    wf_image img_scaled ∧
    width img_scaled = 2 * canvas_size ∧ height img_scaled = 2 * canvas_size ∧
    fs w' = <[output_path := File (png_encode img)]> (fs w) ∧
    decode (png_encode img) = Some img ∧
    mode img = ModeRGBA ∧ width img = canvas_size ∧ height img = canvas_size ∧
    ∀ x y, 0 ≤ x < canvas_size → 0 ≤ y < canvas_size →
      pixel img x y =
      blend_rgba (alpha (pixel img_scaled (x + shift) (y + shift))) transparent
                 (pixel img_scaled (x + shift) (y + shift)).
Proof.
  intros Hrun.
  apply scale_icon_Ok in Hrun as (b & icon & img & Hsrc & Hdec & Hcomp & _ & _ & ->).
  destruct (decoded_logo b icon Hdec) as (Hwf & Hmode & Hw & Hh).
  apply compose_scaled_icon_Ok in Hcomp; try done.
  destruct Hcomp as (img_scaled & Hsize & _ & Hres & Hwfs & Hws & Hhs & Hwfi & Hmi & Hwi & Hhi & Hpix).
  exists b, icon, img_scaled, img. cbn [fs].
  pose proof MAX_WIDTH_lt.
  assert (Hdi : decode (png_encode img) = Some img).
  { apply (saved_image_decodes img canvas_size); try done. lia. }
  split_and!; try done; try lia.
  intros x y Hx Hy. rewrite Hpix by done. unfold scaled_pixel.
  pose proof (Z.div_mod (canvas_size - 2 * canvas_size) 2 ltac:(lia)) as Hdm.
  pose proof (Z.mod_pos_bound (canvas_size - 2 * canvas_size) 2 ltac:(lia)) as Hm.
  pose proof (Z.div_mod (canvas_size + 1) 2 ltac:(lia)) as Hdm2.
  pose proof (Z.mod_pos_bound (canvas_size + 1) 2 ltac:(lia)) as Hm2.
  assert (Hoff : (canvas_size - 2 * canvas_size) `div` 2 = - ((canvas_size + 1) `div` 2))
    by lia.
  rewrite Hoff.
  replace (x - - ((canvas_size + 1) `div` 2)) with (x + (canvas_size + 1) `div` 2) by lia.
  replace (y - - ((canvas_size + 1) `div` 2)) with (y + (canvas_size + 1) `div` 2) by lia.
  rewrite in_bounds_true; [done|lia..].
Qed.

(** X10. A successful [scale_icon] resamples the icon to twice the canvas
    size in each direction and saves an ['RGBA'] image of the canvas size in
    which pixel [(x, y)] is the pixel [(x + shift, y + shift)] of the scaled
    icon, for [shift] half the canvas size rounded up, blended onto
    transparent under its own alpha: the canvas shows the central window of
    the scaled icon and what lies around it is cut off. *)
Theorem scale_icon_saves_central_window input_path output_path canvas_size w w' :
  ScaleIcons.scale_icon input_path output_path canvas_size w = (Ok (), w') →
  ∃ b icon img_scaled img,
    let new_size := 2 * canvas_size in
    let shift := (canvas_size + 1) `div` 2 in
    fs w !! input_path = Some (File b) ∧ decode b = Some icon ∧
    int_mul_float canvas_size ScaleIcons.SCALE_FACTOR = Ok new_size ∧
    Image_resize (convert_RGBA icon) (new_size, new_size) = Ok img_scaled ∧
    width img_scaled = new_size ∧ height img_scaled = new_size ∧
    (canvas_size - new_size) `div` 2 = - shift ∧ 1 ≤ shift ∧
    shift + canvas_size ≤ new_size ∧
    fs w' !! output_path = Some (File (png_encode img)) ∧
    decode (png_encode img) = Some img ∧
    mode img = ModeRGBA ∧ width img = canvas_size ∧ height img = canvas_size ∧
    ∀ x y, 0 ≤ x < canvas_size → 0 ≤ y < canvas_size →
      pixel img x y =
      blend_rgba (alpha (pixel img_scaled (x + shift) (y + shift))) transparent
                 (pixel img_scaled (x + shift) (y + shift)).
Proof.
  intros Hrun.
  apply scale_icon_saves in Hrun
    as (b & icon & img_scaled & img & Hsrc & Hdec & Hsize & Hres & Hwfs & Hws & Hhs
        & Hfs & Hdi & Hmi & Hwi & Hhi & Hpix).
  exists b, icon, img_scaled, img. cbv zeta. rewrite Hfs, lookup_insert_eq.
  pose proof MAX_WIDTH_lt.
  pose proof (Z.div_mod (canvas_size - 2 * canvas_size) 2 ltac:(lia)) as Hdm.
  pose proof (Z.mod_pos_bound (canvas_size - 2 * canvas_size) 2 ltac:(lia)) as Hm.
  pose proof (Z.div_mod (canvas_size + 1) 2 ltac:(lia)) as Hdm2.
  pose proof (Z.mod_pos_bound (canvas_size + 1) 2 ltac:(lia)) as Hm2.
  split_and!; try done; try lia.
  apply int_mul_float_SCALE_FACTOR. lia.
Qed.

Lemma BLEND8_onto_0_le a c : is_byte a → is_byte c → BLEND8 a 0 c ≤ c.
Proof.
  intros Ha Hc.
  apply (bool_decide_eq_true_1 (BLEND8 a 0 c ≤ c)).
  revert a Ha. apply (byte_cases (λ a, bool_decide (BLEND8 a 0 c ≤ c))).
  revert c Hc.
  apply (byte_cases (λ c, forallb (λ a, bool_decide (BLEND8 a 0 c ≤ c)) (seqZ 0 256))).
  by vm_compute.
Qed.

Lemma BLEND8_alpha_squared a :
  is_byte a → 0 < a < 255 → BLEND8 a 0 a < a.
Proof.
  intros Ha Hlt.
  enough (bool_decide (0 < a < 255 → BLEND8 a 0 a < a) = true) as He
    by (apply bool_decide_eq_true_1 in He; by apply He).
  clear Hlt. revert a Ha.
  apply (byte_cases (λ a, bool_decide (0 < a < 255 → BLEND8 a 0 a < a))).
  by vm_compute.
Qed.

(** X11. In the image a successful [scale_icon] saves, no channel of a
    pixel exceeds the channel of the scaled icon's pixel it comes from: an
    opaque pixel is copied, a fully transparent one gives [(0, 0, 0, 0)],
    and a pixel of partial opacity comes out strictly less opaque, since
    its alpha is blended under itself as the mask. *)
Theorem scale_icon_fades_partial_opacity input_path output_path canvas_size w w' :
  ScaleIcons.scale_icon input_path output_path canvas_size w = (Ok (), w') →
  ∃ b icon img_scaled img,
    let shift := (canvas_size + 1) `div` 2 in
    fs w !! input_path = Some (File b) ∧ decode b = Some icon ∧
    Image_resize (convert_RGBA icon) (2 * canvas_size, 2 * canvas_size) = Ok img_scaled ∧
    fs w' !! output_path = Some (File (png_encode img)) ∧
    ∀ x y, 0 ≤ x < canvas_size → 0 ≤ y < canvas_size →
      let p := pixel img_scaled (x + shift) (y + shift) in
      let q := pixel img x y in
      red q ≤ red p ∧ green q ≤ green p ∧ blue q ≤ blue p ∧ alpha q ≤ alpha p ∧
      (alpha p = 255 → q = p) ∧
      (alpha p = 0 → q = transparent) ∧
      (0 < alpha p < 255 → alpha q < alpha p).
Proof.
  intros Hrun.
  apply scale_icon_saves in Hrun
    as (b & icon & img_scaled & img & Hsrc & Hdec & Hsize & Hres & Hwfs & Hws & Hhs
        & Hfs & Hdi & Hmi & Hwi & Hhi & Hpix).
  exists b, icon, img_scaled, img. cbv zeta. rewrite Hfs, lookup_insert_eq.
  split_and!; try done.
  intros x y Hx Hy. rewrite Hpix by done.
  set (p := pixel img_scaled _ _).
  assert (Hp : rgba_bytes p) by (by apply pixel_bytes).
  clearbody p. destruct Hp as (Hr & Hg & Hb & Ha).
  unfold blend_rgba, transparent. cbn [red green blue alpha].
  split_and!; try (by apply BLEND8_onto_0_le).
  - intros Hop. rewrite Hop, !BLEND8_mask_255 by (unfold is_byte in *; lia).
    destruct p as [pr pg pb pa]. cbn [alpha red green blue] in *. by subst.
  - intros Hcl. rewrite Hcl. by rewrite !BLEND8_onto_0.
  - by apply BLEND8_alpha_squared.
Qed.

(** X12. A canvas size below two never yields an icon:
    [create_circular_icon] raises and leaves the world as it was, whatever
    the source and the output path are.  With a source that opens the
    exception is a [ValueError]: at size one the logo size [int(1 * 0.72)]
    is zero and [resize] refuses it, and below one the canvas or the ellipse
    is refused. *)
Theorem create_circular_icon_tiny_size source_path output_path size is_round w :
  size < 2 →
  ∃ e,
    CircularIcons.create_circular_icon source_path output_path size is_round w
      = (Raise e, w) ∧
    ((∃ b logo, fs w !! source_path = Some (File b) ∧ decode b = Some logo) →
     e = ValueError).
Proof.
  intros Hsize. pose proof MAX_WIDTH_lt as HM.
  assert (HM1 : 1 ≤ MAX_WIDTH) by (by vm_compute).
  unfold CircularIcons.create_circular_icon, mbind, M_bind, lift.
  destruct (decide (size < 0)) as [Hneg|Hnn].
  { unfold Image_new. rewrite bool_decide_eq_true_2 by lia. by exists ValueError. }
  rewrite Image_new_square by lia. unfold draw_ellipse.
  destruct (decide (size = 0)) as [->|Hnz].
  { rewrite bool_decide_eq_true_2 by lia. by exists ValueError. }
  assert (size = 1) as -> by lia.
  rewrite bool_decide_eq_false_2 by lia.
  unfold Image_open.
  destruct (fs w !! source_path) as [[|b]|] eqn:Hsrc.
  - exists IsADirectoryError. split; [done|]. by intros (? & ? & ? & ?).
  - destruct (decode b) as [logo|] eqn:Hdec.
    + destruct (decoded_logo b logo Hdec) as (_ & _ & Hw & Hh).
      rewrite int_mul_float_LOGO_SCALE by lia.
      change ((72 * 1) `div` 100) with 0. unfold Image_resize.
      rewrite !bool_decide_eq_false_2 by lia.
      rewrite bool_decide_eq_true_2 by lia. by exists ValueError.
    + exists UnidentifiedImageError. split; [done|].
      intros (? & ? & ? & ?). congruence.
  - exists FileNotFoundError. split; [done|]. by intros (? & ? & ? & ?).
Qed.

(** X13. The file a successful [generate_splash_logo] saves holds an
    ['RGBA'] image of [size] by [size] pixels: the source converted to
    ['RGBA'] and resampled, or the converted source itself when it has that
    size already.  The test on the mode changes nothing: converting an
    ['RGBA'] source copies it. *)
Theorem generate_splash_logo_saves_square source_path output_path size w w' :
  SplashScreens.generate_splash_logo source_path output_path size w = (Ok (), w') →
  ∃ b src img,
    fs w !! source_path = Some (File b) ∧ decode b = Some src ∧
    1 ≤ size ∧
    SplashScreens.resize_splash_logo src size = Image_resize (convert_RGBA src) (size, size) ∧
    (img = resample_LANCZOS (convert_RGBA src) size size ∨
     (width src = size ∧ height src = size ∧ img = convert_RGBA src)) ∧
    fs w' !! output_path = Some (File (png_encode img)) ∧
    mode img = ModeRGBA ∧ width img = size ∧ height img = size ∧
    (size < 2 ^ 31 → decode (png_encode img) = Some img).
Proof.
  intros Hrun.
  apply generate_splash_logo_Ok in Hrun as (b & src & img & Hsrc & Hdec & Hres & _ & _ & ->).
  pose proof (decode_wf b src Hdec) as (Hwf & Hw & Hh).
  pose proof (resize_splash_logo_Ok src size img Hwf Hw Hh Hres) as (Hsize & Hwfi & Hmi & Hwi & Hhi).
  destruct (convert_RGBA_spec src Hwf) as (_ & _ & Hcw & Hch).
  assert (Hsame : SplashScreens.resize_splash_logo src size
                  = Image_resize (convert_RGBA src) (size, size)).
  { unfold SplashScreens.resize_splash_logo. case_bool_decide as Hmode; [done|].
    rewrite convert_RGBA_id; [done|]. by destruct (decide (mode src = ModeRGBA)). }
  exists b, src, img. cbn [fs]. rewrite lookup_insert_eq.
  split_and!; try done.
  - rewrite Hsame in Hres. unfold Image_resize in Hres.
    case_bool_decide as Hsz.
    + right. injection Hres as <-. by rewrite <- Hcw, <- Hch.
    + repeat (case_bool_decide; [done|]). left. by injection Hres as <-.
  - intros Hlt. apply (saved_image_decodes img size); try done.
Qed.

(** X14. With a source that opens, [generate_splash_logo] refuses a size
    below one and nothing is written or printed: [resize] raises
    [ValueError] for a size that fits a C [int], and the conversion of the
    size raises [OverflowError] for a size below [-2^31]. *)
Theorem generate_splash_logo_empty_size source_path output_path size w b src :
  fs w !! source_path = Some (File b) → decode b = Some src → size < 1 →
  SplashScreens.generate_splash_logo source_path output_path size w =
  (Raise (if bool_decide (- 2 ^ 31 ≤ size) then ValueError else OverflowError), w).
Proof.
  intros Hsrc Hdec Hsize.
  pose proof (decode_wf b src Hdec) as (Hwf & Hw & Hh).
  destruct (convert_RGBA_spec src Hwf) as (_ & _ & Hcw & Hch).
  unfold SplashScreens.generate_splash_logo, mbind, M_bind, lift, Image_open.
  rewrite Hsrc, Hdec. unfold Image_resize.
  destruct (bool_decide (mode src ≠ ModeRGBA)).
  - rewrite bool_decide_eq_false_2 by lia. case_bool_decide as Hfit.
    + by rewrite bool_decide_eq_false_2 by lia.
    + rewrite bool_decide_eq_true_2 by lia. by rewrite bool_decide_eq_true_2 by lia.
  - rewrite bool_decide_eq_false_2 by lia. case_bool_decide as Hfit.
    + by rewrite bool_decide_eq_false_2 by lia.
    + rewrite bool_decide_eq_true_2 by lia. by rewrite bool_decide_eq_true_2 by lia.
Qed.

(** X15. For one source and one size, the round icon and the standard
    icon [create_circular_icon] saves are images of that size which agree
    at every pixel the disc covers; outside the disc the round icon is
    [(0, 0, 0, 0)]. *)
Theorem round_icon_is_standard_icon_inside_circle
    source_path standard_path round_path size w ws wr :
  CircularIcons.create_circular_icon source_path standard_path size false w = (Ok (), ws) →
  CircularIcons.create_circular_icon source_path round_path size true w = (Ok (), wr) →
  ∃ std rnd,
    fs ws !! standard_path = Some (File (png_encode std)) ∧
    fs wr !! round_path = Some (File (png_encode rnd)) ∧
    decode (png_encode std) = Some std ∧ decode (png_encode rnd) = Some rnd ∧
    width std = size ∧ height std = size ∧ width rnd = size ∧ height rnd = size ∧
    ∀ x y, 0 ≤ x < size → 0 ≤ y < size →
      pixel rnd x y =
      if ellipse_covers (0, 0, size - 1, size - 1) x y then pixel std x y else transparent.
Proof.
  intros Hs Hr.
  apply create_circular_icon_saves in Hs
    as (b & logo & std & ls & Hsrc & Hdec & Hsize & Hres & Hwfr & Hwr & Hhr
        & Hfs & Hdi & Hmi & Hwi & Hhi & Hpix).
  apply create_circular_icon_saves in Hr
    as (b' & logo' & rnd & lr & Hsrc' & Hdec' & _ & Hres' & _ & _ & _
        & Hfs' & Hdi' & Hmi' & Hwi' & Hhi' & Hpix').
  assert (b' = b) as -> by congruence.
  assert (logo' = logo) as -> by congruence.
  assert (lr = ls) as -> by congruence.
  exists std, rnd. rewrite Hfs, Hfs', !lookup_insert_eq.
  split_and!; try done.
  intros x y Hx Hy. rewrite Hpix, Hpix' by done.
  unfold round_pixel, circle_box. destruct (ellipse_covers _ x y).
  - apply blend_rgba_mask_255. unfold standard_pixel.
    destruct (in_bounds _ _ _); [apply blend_rgba_bytes|apply background_pixel_bytes].
  - apply blend_rgba_clear.
Qed.

Lemma BLEND8_onto_opaque a : is_byte a → 0 < a < 255 → BLEND8 a 255 a < 255.
Proof.
  intros Ha Hlt.
  enough (bool_decide (0 < a < 255 → BLEND8 a 255 a < 255) = true) as He
    by (apply bool_decide_eq_true_1 in He; by apply He).
  clear Hlt. revert a Ha.
  apply (byte_cases (λ a, bool_decide (0 < a < 255 → BLEND8 a 255 a < 255))).
  by vm_compute.
Qed.

(** X16. In the standard icon [create_circular_icon] saves, a pixel the
    disc covers and the logo's square contains is fully opaque where the
    resampled logo is fully opaque or fully transparent, and is not where the
    logo has partial opacity: the logo's alpha is blended into the alpha of
    the black disc like a colour, so the smoothed edges of the logo come out
    translucent. *)
Theorem standard_icon_translucent_at_logo_edges source_path output_path size w w' :
  CircularIcons.create_circular_icon source_path output_path size false w = (Ok (), w') →
  ∃ b logo logo_resized img,
    let logo_size := (72 * size) `div` 100 in
    let pos := (size - logo_size) `div` 2 in
    fs w !! source_path = Some (File b) ∧ decode b = Some logo ∧
    Image_resize (convert_RGBA logo) (logo_size, logo_size) = Ok logo_resized ∧
    fs w' !! output_path = Some (File (png_encode img)) ∧
    ∀ x y, pos ≤ x < pos + logo_size → pos ≤ y < pos + logo_size →
      ellipse_covers (0, 0, size - 1, size - 1) x y = true →
      let a := alpha (pixel logo_resized (x - pos) (y - pos)) in
      alpha (pixel img x y) = BLEND8 a 255 a ∧
      (a = 0 ∨ a = 255 → alpha (pixel img x y) = 255) ∧
      (0 < a < 255 → alpha (pixel img x y) < 255).
Proof.
  intros Hrun.
  apply create_circular_icon_saves in Hrun
    as (b & logo & img & logo_resized & Hsrc & Hdec & Hsize & Hres & Hwfr & Hwr & Hhr
        & Hfs & Hdi & Hmi & Hwi & Hhi & Hpix).
  exists b, logo, logo_resized, img. cbv zeta. rewrite Hfs, lookup_insert_eq.
  split_and!; try done.
  intros x y Hx Hy Hin.
  pose proof (Z.div_mod (72 * size) 100 ltac:(lia)) as Hdm.
  pose proof (Z.mod_pos_bound (72 * size) 100 ltac:(lia)) as Hm.
  set (logo_size := (72 * size) `div` 100) in *.
  pose proof (Z.div_mod (size - logo_size) 2 ltac:(lia)) as Hdm2.
  pose proof (Z.mod_pos_bound (size - logo_size) 2 ltac:(lia)) as Hm2.
  set (pos := (size - logo_size) `div` 2) in *.
  rewrite Hpix by lia.
  unfold standard_pixel, background_pixel, circle_box. rewrite Hin.
  rewrite in_bounds_true by lia.
  assert (Hp : rgba_bytes (pixel logo_resized (x - pos) (y - pos))) by (by apply pixel_bytes).
  destruct Hp as (_ & _ & _ & Ha).
  unfold blend_rgba, black. cbn [alpha].
  set (a := alpha (pixel logo_resized (x - pos) (y - pos))) in *. clearbody a.
  split_and!; [done| |by apply BLEND8_onto_opaque].
  intros [->| ->]; by vm_compute.
Qed.

End function_facts.

Lemma logo_size_is_72_percent_rounded_down_witness :
  int_mul_float 48 CircularIcons.LOGO_SCALE = Ok 34.
Proof.
  destruct (logo_size_is_72_percent_rounded_down 48) as (logo_size & Hint & -> & _).
  - lia.
  - exact Hint.
Defined.

Lemma scaled_size_is_double_witness :
  int_mul_float 48 ScaleIcons.SCALE_FACTOR = Ok 96.
Proof.
  destruct (scaled_size_is_double 48) as (new_size & Hint & -> & _).
  - lia.
  - exact Hint.
Defined.

Lemma scale_icon_saves_central_window_witness :
  let p := "android/app/src/main/res/mipmap-mdpi/ic_launcher.png" in
  let w' := (ScaleIcons.scale_icon p p 2 example_tree).2 in
  ∃ img, fs w' !! p = Some (File (png_encode img)) ∧ width img = 2 ∧ height img = 2.
Proof.
  intros p w'.
  destruct (scale_icon_saves_central_window p p 2 example_tree w')
    as (b & icon & img_scaled & img & _ & _ & _ & _ & _ & _ & _ & _ & _ & Hfile & _ & _
        & Hw & Hh & _).
  - vm_compute. reflexivity.
  - exists img. split_and!; assumption.
Defined.

Lemma scale_icon_fades_partial_opacity_witness :
  let p := "android/app/src/main/res/mipmap-mdpi/ic_launcher.png" in
  let w' := (ScaleIcons.scale_icon p p 2 example_tree).2 in
  ∃ img, fs w' !! p = Some (File (png_encode img)).
Proof.
  intros p w'.
  destruct (scale_icon_fades_partial_opacity p p 2 example_tree w')
    as (b & icon & img_scaled & img & _ & _ & _ & Hfile & _).
  - vm_compute. reflexivity.
  - exists img. assumption.
Defined.

Lemma create_circular_icon_tiny_size_witness :
  CircularIcons.create_circular_icon "logo.png" "icon.png" 1 false example_world
  = (Raise ValueError, example_world).
Proof.
  destruct (create_circular_icon_tiny_size "logo.png" "icon.png" 1 false example_world)
    as (e & Hrun & He).
  - lia.
  - rewrite Hrun. f_equal. f_equal. apply He.
    exists (Reference.encode example_logo), example_logo. by vm_compute.
Defined.

Lemma generate_splash_logo_saves_square_witness :
  let w' := (SplashScreens.generate_splash_logo "logo.png" "splash.png" 3 example_world).2 in
  ∃ img, fs w' !! "splash.png" = Some (File (png_encode img)) ∧
         width img = 3 ∧ height img = 3.
Proof.
  intros w'.
  destruct (generate_splash_logo_saves_square "logo.png" "splash.png" 3 example_world w')
    as (b & src & img & _ & _ & _ & _ & _ & Hfile & _ & Hw & Hh & _).
  - vm_compute. reflexivity.
  - exists img. split_and!; assumption.
Defined.

Lemma generate_splash_logo_empty_size_witness :
  SplashScreens.generate_splash_logo "logo.png" "splash.png" 0 example_world
    = (Raise ValueError, example_world) ∧
  SplashScreens.generate_splash_logo "logo.png" "splash.png" (- 2 ^ 31 - 1) example_world
    = (Raise OverflowError, example_world).
Proof.
  split.
  - rewrite (generate_splash_logo_empty_size "logo.png" "splash.png" 0 example_world
               (Reference.encode example_logo) example_logo).
    + reflexivity.
    + by vm_compute.
    + by vm_compute.
    + lia.
  - rewrite (generate_splash_logo_empty_size "logo.png" "splash.png" (- 2 ^ 31 - 1)
               example_world (Reference.encode example_logo) example_logo).
    + reflexivity.
    + by vm_compute.
    + by vm_compute.
    + lia.
Defined.

Lemma round_icon_is_standard_icon_inside_circle_witness :
  let ws := (CircularIcons.create_circular_icon "logo.png" "icon.png" 4 false example_world).2 in
  let wr := (CircularIcons.create_circular_icon "logo.png" "round.png" 4 true example_world).2 in
  ∃ std rnd,
    fs ws !! "icon.png" = Some (File (png_encode std)) ∧
    fs wr !! "round.png" = Some (File (png_encode rnd)) ∧
    pixel rnd 0 0 = transparent ∧ pixel rnd 1 1 = pixel std 1 1.
Proof.
  intros ws wr.
  destruct (round_icon_is_standard_icon_inside_circle "logo.png" "icon.png" "round.png" 4
              example_world ws wr)
    as (std & rnd & Hs & Hr & _ & _ & _ & _ & _ & _ & Hpix).
  - vm_compute. reflexivity.
  - vm_compute. reflexivity.
  - exists std, rnd. split_and!; [assumption|assumption| |].
    + rewrite Hpix by lia. by vm_compute.
    + rewrite Hpix by lia. by vm_compute.
Defined.

Lemma standard_icon_translucent_at_logo_edges_witness :
  let w' := (CircularIcons.create_circular_icon "logo.png" "icon.png" 4 false faint_world).2 in
  ∃ img, fs w' !! "icon.png" = Some (File (png_encode img)) ∧
         alpha (pixel img 1 1) < 255 ∧ alpha (pixel img 2 2) < 255.
Proof.
  intros w'.
  destruct (standard_icon_translucent_at_logo_edges "logo.png" "icon.png" 4 faint_world w')
    as (b & logo & logo_resized & img & Hsrc & Hdec & Hres & Hfile & Hpix).
  - vm_compute. reflexivity.
  - vm_compute in Hsrc. injection Hsrc as <-.
    vm_compute in Hdec. injection Hdec as <-.
    vm_compute in Hres. injection Hres as <-.
    exists img. split; [assumption|].
    split; (apply Hpix; [by vm_compute|by vm_compute|by vm_compute|by vm_compute]).
Defined.

(** * Further properties: whole runs *)

Section run_properties.
Context `{Imaging}.

Lemma fs_print_lines acc lines : fs (print_lines acc lines) = fs acc.
Proof. done. Qed.

Lemma stdout_print_lines acc lines x :
  x ∈ stdout acc → x ∈ stdout (print_lines acc lines).
Proof. intros Hx. unfold print_lines. cbn [stdout]. apply elem_of_app. by left. Qed.

Lemma fs_apply_items_ext acc acc' l :
  fs acc = fs acc' → fs (apply_items acc l) = fs (apply_items acc' l).
Proof.
  revert acc acc'. induction l as [|it l IH]; intros acc acc' Hfs; [done|].
  rewrite !apply_items_cons. apply IH. unfold apply_item. rewrite Hfs.
  by case_bool_decide.
Qed.

(** X17. With a source that opens and a resource tree in which every
    [mipmap] path is absent or a directory, the circular icon generator ends
    normally, and what happens to a density of the table depends on its own
    directory only.  If the directory exists, both icon files hold the icons
    composed for the density's size, images of that size, and both
    confirmation lines are printed.  If not, both icon paths are left as they
    were and the warning is printed: the other densities are processed all the
    same. *)
Theorem circular_main_per_density home w logo density size :
  source_decodes (CircularIcons.SOURCE_LOGO home) w logo →
  tree_ok (circular_plan logo) w →
  (density, size) ∈ CircularIcons.ICON_SIZES →
  ∃ w' std rnd,
    CircularIcons.main home w = (Ok (), w') ∧
    CircularIcons.compose_circular_icon (convert_RGBA logo) size false = Ok std ∧
    CircularIcons.compose_circular_icon (convert_RGBA logo) size true = Ok rnd ∧
    width std = size ∧ height std = size ∧ width rnd = size ∧ height rnd = size ∧
    if bool_decide (is_Some (fs w !! CircularIcons.mipmap_dir density))
    then fs w' !! CircularIcons.standard_path density = Some (File (png_encode std)) ∧
         fs w' !! CircularIcons.round_path density = Some (File (png_encode rnd)) ∧
         CircularIcons.created_message (CircularIcons.standard_path density) size false
           ∈ stdout w' ∧
         CircularIcons.created_message (CircularIcons.round_path density) size true
           ∈ stdout w'
    else fs w' !! CircularIcons.standard_path density
           = fs w !! CircularIcons.standard_path density ∧
         fs w' !! CircularIcons.round_path density
           = fs w !! CircularIcons.round_path density ∧
         CircularIcons.warning (CircularIcons.mipmap_dir density) ∈ stdout w'.
Proof.
  intros Hsrc Htree Hin.
  pose proof Hsrc as (b & Hfile & Hdec).
  destruct (decoded_logo b logo Hdec) as (Hwf & Hmode & Hw & Hh).
  pose proof circular_entry_facts as Hfacts. rewrite Forall_forall in Hfacts.
  destruct (Hfacts _ Hin) as (Hsize & _). cbn [fst snd] in Hsize.
  destruct (compose_circular_icon_total (convert_RGBA logo) size false) as [std Hcs]; try done.
  destruct (compose_circular_icon_total (convert_RGBA logo) size true) as [rnd Hcr]; try done.
  pose proof (compose_circular_icon_Ok _ _ _ _ Hwf Hmode Hw Hh Hcs)
    as (? & _ & _ & _ & _ & _ & _ & _ & Hws & Hhs & _).
  pose proof (compose_circular_icon_Ok _ _ _ _ Hwf Hmode Hw Hh Hcr)
    as (? & _ & _ & _ & _ & _ & _ & _ & Hwr & Hhr & _).
  eexists _, std, rnd. split; [by apply circular_main_refines|].
  split_and!; try done.
  set (acc := print_lines w circular_banner).
  pose proof NoDup_circular_targets as Hnd. rewrite <- (targets_circular_plan logo) in Hnd.
  pose proof (circular_guards logo) as Hguards. rewrite Forall_forall in Hguards.
  assert (Hit1 : Item (CircularIcons.mipmap_dir density) (CircularIcons.standard_path density)
            (icon_file logo size false)
            (CircularIcons.created_message (CircularIcons.standard_path density) size false)
            [CircularIcons.warning (CircularIcons.mipmap_dir density)] ∈ circular_plan logo).
  { apply (items_in_plan _ _ (density, size)); [done|]. apply list_elem_of_here. }
  assert (Hit2 : Item (CircularIcons.mipmap_dir density) (CircularIcons.round_path density)
            (icon_file logo size true)
            (CircularIcons.created_message (CircularIcons.round_path density) size true)
            [] ∈ circular_plan logo).
  { apply (items_in_plan _ _ (density, size)); [done|].
    apply list_elem_of_further, list_elem_of_here. }
  destruct (Hguards _ Hit1) as (Hg1 & _). destruct (Hguards _ Hit2) as (Hg2 & _).
  rewrite <- (targets_circular_plan logo) in Hg1, Hg2.
  pose proof (fs_apply_items_target acc _ _ Hnd Hit1 (or_introl Hg1)) as Hf1.
  pose proof (fs_apply_items_target acc _ _ Hnd Hit2 (or_introl Hg2)) as Hf2.
  cbn [guard target payload] in Hf1, Hf2. unfold icon_file in Hf1, Hf2.
  rewrite Hcs in Hf1. rewrite Hcr in Hf2.
  rewrite !fs_print_lines. rewrite Hf1, Hf2. change (fs acc) with (fs w).
  destruct (decide (is_Some (fs w !! CircularIcons.mipmap_dir density))) as [Hdir|Hdir].
  - rewrite !bool_decide_eq_true_2 by done.
    split_and!; [done|done| |]; apply stdout_print_lines.
    + by apply (done_line_printed acc _ _ Hnd Hit1 (or_introl Hg1)).
    + by apply (done_line_printed acc _ _ Hnd Hit2 (or_introl Hg2)).
  - rewrite !bool_decide_eq_false_2 by done.
    split_and!; [done|done|]. apply stdout_print_lines.
    apply (skip_lines_printed acc _ _ _ Hnd Hit1 (or_introl Hg1)).
    + cbn [guard]. change (fs acc) with (fs w).
      destruct (fs w !! CircularIcons.mipmap_dir density) eqn:E; [|done].
      exfalso. apply Hdir. by eexists.
    + apply list_elem_of_here.
Qed.

Lemma tree_ok_after w acc l :
  fs acc = fs w →
  Forall (λ it, guard it ∉ target <$> l) l →
  tree_ok l w → tree_ok l (apply_items acc l).
Proof.
  intros Hacc Hguards Htree. unfold tree_ok in *.
  rewrite Forall_forall in *. intros it Hit.
  specialize (Hguards it Hit). specialize (Htree it Hit).
  rewrite (fs_apply_items_other acc l (guard it)) by done. rewrite Hacc.
  destruct Htree as [Hnone|[Hdir Hnd]]; [by left|right].
  split; [done|]. apply not_Dir_apply_items. by rewrite Hacc.
Qed.

Lemma tree_ok_print_lines l w lines : tree_ok l w → tree_ok l (print_lines w lines).
Proof. intros Ht. exact Ht. Qed.

Lemma source_decodes_after source_path l w acc lines img :
  fs acc = fs w → source_path ∉ target <$> l →
  source_decodes source_path w img →
  source_decodes source_path (print_lines (apply_items acc l) lines) img.
Proof.
  intros Hacc Hnt (b & Hfile & Hdec). exists b. split; [|done].
  rewrite fs_print_lines, fs_apply_items_other by done. by rewrite Hacc.
Qed.

(** Two runs of a list of guarded writes, with lines printed around them. *)
Lemma fs_plan_twice l w banner footer :
  NoDup (target <$> l) → Forall (λ it, guard it ∉ target <$> l) l →
  fs (print_lines
        (apply_items
           (print_lines (print_lines (apply_items (print_lines w banner) l) footer) banner) l)
        footer)
  = fs (print_lines (apply_items (print_lines w banner) l) footer).
Proof.
  intros Hnd Hguards. rewrite !fs_print_lines.
  rewrite (fs_apply_items_ext _ (apply_items (print_lines w banner) l)).
  - by apply apply_items_twice.
  - by rewrite !fs_print_lines.
Qed.

(** X18. With a source that opens and a resource tree in which every
    [mipmap] path is absent or a directory, a second run of the circular icon
    generator on what the first run left ends normally too and leaves every
    file as the first run left it. *)
Theorem circular_main_twice home w logo :
  source_decodes (CircularIcons.SOURCE_LOGO home) w logo →
  tree_ok (circular_plan logo) w →
  ∃ w1 w2,
    CircularIcons.main home w = (Ok (), w1) ∧
    CircularIcons.main home w1 = (Ok (), w2) ∧
    fs w2 = fs w1.
Proof.
  intros Hsrc Htree.
  pose proof NoDup_circular_targets as Hnd. rewrite <- (targets_circular_plan logo) in Hnd.
  assert (Hguards : Forall (λ it, guard it ∉ target <$> circular_plan logo) (circular_plan logo)).
  { eapply Forall_impl; [apply circular_guards|]. intros it (Hg & _).
    by rewrite targets_circular_plan. }
  eexists _, _. split; [apply (circular_main_refines home w logo Hsrc Htree)|].
  split.
  - apply (circular_main_refines home _ logo).
    + apply (source_decodes_after _ _ w); [apply fs_print_lines| |exact Hsrc].
      rewrite targets_circular_plan. apply circular_source_not_target.
    + apply tree_ok_print_lines, (tree_ok_after w);
        [apply fs_print_lines|exact Hguards|exact Htree].
  - apply fs_plan_twice; [exact Hnd|exact Hguards].
Qed.


(** X19. With a source that opens and a resource tree in which every
    [drawable] path is absent or a directory, the splash logo generator ends
    normally, and each of the two destinations of a density of the table is
    decided by its own directory: if it exists, the file holds the source
    resized to the density's size and the confirmation line is printed; if
    not, the file is left as it was and the warning is printed.  Both
    destinations get the same bytes. *)
Theorem splash_main_per_density home w src density size :
  source_decodes (SplashScreens.SOURCE_LOGO home) w src →
  tree_ok (splash_plan src) w →
  (density, size) ∈ SplashScreens.SPLASH_SIZES →
  ∃ w' img,
    SplashScreens.main home w = (Ok (), w') ∧
    SplashScreens.resize_splash_logo src size = Ok img ∧
    width img = size ∧ height img = size ∧
    (if bool_decide (is_Some (fs w !! SplashScreens.regular_dir density))
     then fs w' !! SplashScreens.regular_path density = Some (File (png_encode img)) ∧
          SplashScreens.generated_message (SplashScreens.regular_path density) size
            ∈ stdout w'
     else fs w' !! SplashScreens.regular_path density
            = fs w !! SplashScreens.regular_path density ∧
          SplashScreens.warning (SplashScreens.regular_dir density) ∈ stdout w') ∧
    (if bool_decide (is_Some (fs w !! SplashScreens.dark_dir density))
     then fs w' !! SplashScreens.dark_path density = Some (File (png_encode img)) ∧
          SplashScreens.generated_message (SplashScreens.dark_path density) size
            ∈ stdout w'
     else fs w' !! SplashScreens.dark_path density
            = fs w !! SplashScreens.dark_path density ∧
          SplashScreens.warning (SplashScreens.dark_dir density) ∈ stdout w').
Proof.
  intros Hsrc Htree Hin.
  pose proof Hsrc as (b & Hfile & Hdec).
  pose proof (decode_wf b src Hdec) as (Hwf & Hw & Hh).
  pose proof splash_entry_facts as Hfacts. rewrite Forall_forall in Hfacts.
  destruct (Hfacts _ Hin) as (Hsize & _). cbn [fst snd] in Hsize.
  destruct (resize_splash_logo_total src size Hsize) as [img Hres].
  pose proof (resize_splash_logo_Ok src size img Hwf Hw Hh Hres) as (_ & _ & _ & Hwi & Hhi).
  eexists _, img. split; [by apply splash_main_refines|].
  split_and!; try done.
  - set (acc := print_lines w splash_banner).
    pose proof NoDup_splash_targets as Hnd. rewrite <- (targets_splash_plan src) in Hnd.
    pose proof (splash_guards src) as Hguards. rewrite Forall_forall in Hguards.
    assert (Hit : Item (SplashScreens.regular_dir density) (SplashScreens.regular_path density)
              (splash_file src size)
              (SplashScreens.generated_message (SplashScreens.regular_path density) size)
              [SplashScreens.warning (SplashScreens.regular_dir density)] ∈ splash_plan src).
    { apply (items_in_plan _ _ (density, size)); [done|]. apply list_elem_of_here. }
    destruct (Hguards _ Hit) as (Hg & _).
    rewrite <- (targets_splash_plan src) in Hg.
    pose proof (fs_apply_items_target acc _ _ Hnd Hit (or_introl Hg)) as Hf.
    cbn [guard target payload] in Hf. unfold splash_file in Hf. rewrite Hres in Hf.
    rewrite !fs_print_lines. rewrite Hf. change (fs acc) with (fs w).
    destruct (decide (is_Some (fs w !! SplashScreens.regular_dir density))) as [Hdir|Hdir].
    + rewrite !bool_decide_eq_true_2 by done. split; [done|].
      apply stdout_print_lines.
      by apply (done_line_printed acc _ _ Hnd Hit (or_introl Hg)).
    + rewrite !bool_decide_eq_false_2 by done. split; [done|].
      apply stdout_print_lines.
      apply (skip_lines_printed acc _ _ _ Hnd Hit (or_introl Hg)).
      * cbn [guard]. change (fs acc) with (fs w).
        destruct (fs w !! SplashScreens.regular_dir density) eqn:E; [|done].
        exfalso. apply Hdir. by eexists.
      * apply list_elem_of_here.
  - set (acc := print_lines w splash_banner).
    pose proof NoDup_splash_targets as Hnd. rewrite <- (targets_splash_plan src) in Hnd.
    pose proof (splash_guards src) as Hguards. rewrite Forall_forall in Hguards.
    assert (Hit : Item (SplashScreens.dark_dir density) (SplashScreens.dark_path density)
              (splash_file src size)
              (SplashScreens.generated_message (SplashScreens.dark_path density) size)
              [SplashScreens.warning (SplashScreens.dark_dir density)] ∈ splash_plan src).
    { apply (items_in_plan _ _ (density, size)); [done|].
      apply list_elem_of_further, list_elem_of_here. }
    destruct (Hguards _ Hit) as (Hg & _).
    rewrite <- (targets_splash_plan src) in Hg.
    pose proof (fs_apply_items_target acc _ _ Hnd Hit (or_introl Hg)) as Hf.
    cbn [guard target payload] in Hf. unfold splash_file in Hf. rewrite Hres in Hf.
    rewrite !fs_print_lines. rewrite Hf. change (fs acc) with (fs w).
    destruct (decide (is_Some (fs w !! SplashScreens.dark_dir density))) as [Hdir|Hdir].
    + rewrite !bool_decide_eq_true_2 by done. split; [done|].
      apply stdout_print_lines.
      by apply (done_line_printed acc _ _ Hnd Hit (or_introl Hg)).
    + rewrite !bool_decide_eq_false_2 by done. split; [done|].
      apply stdout_print_lines.
      apply (skip_lines_printed acc _ _ _ Hnd Hit (or_introl Hg)).
      * cbn [guard]. change (fs acc) with (fs w).
        destruct (fs w !! SplashScreens.dark_dir density) eqn:E; [|done].
        exfalso. apply Hdir. by eexists.
      * apply list_elem_of_here.
Qed.

(** X20. With a source that opens and a resource tree in which every
    [drawable] path is absent or a directory, a second run of the splash logo
    generator on what the first run left ends normally too and leaves every
    file as the first run left it. *)
Theorem splash_main_twice home w src :
  source_decodes (SplashScreens.SOURCE_LOGO home) w src →
  tree_ok (splash_plan src) w →
  ∃ w1 w2,
    SplashScreens.main home w = (Ok (), w1) ∧
    SplashScreens.main home w1 = (Ok (), w2) ∧
    fs w2 = fs w1.
Proof.
  intros Hsrc Htree.
  pose proof NoDup_splash_targets as Hnd. rewrite <- (targets_splash_plan src) in Hnd.
  assert (Hguards : Forall (λ it, guard it ∉ target <$> splash_plan src) (splash_plan src)).
  { eapply Forall_impl; [apply splash_guards|]. intros it (Hg & _).
    by rewrite targets_splash_plan. }
  eexists _, _. split; [apply (splash_main_refines home w src Hsrc Htree)|].
  split.
  - apply (splash_main_refines home _ src).
    + apply (source_decodes_after _ _ w); [apply fs_print_lines| |exact Hsrc].
      rewrite targets_splash_plan. apply splash_source_not_target.
    + apply tree_ok_print_lines, (tree_ok_after w);
        [apply fs_print_lines|exact Hguards|exact Htree].
  - apply fs_plan_twice; [exact Hnd|exact Hguards].
Qed.


(** X21. With a resource tree in which every icon path of the table is
    absent, or a file that opens and lies in a directory, the icon upscaler
    ends normally and treats every icon on its own: an icon that exists is
    replaced in place by its upscaled composition, an image of the density's
    size, and the confirmation line is printed; for an icon that does not
    exist nothing is created and the warning is printed. *)
Theorem scale_main_per_icon w density size name :
  icons_ok (scale_plan (fs w)) w →
  (density, size) ∈ ScaleIcons.DENSITIES → name ∈ ScaleIcons.icon_names →
  ∃ w',
    ScaleIcons.main w = (Ok (), w') ∧
    if bool_decide (is_Some (fs w !! ScaleIcons.icon_path density name))
    then ∃ b icon img,
           fs w !! ScaleIcons.icon_path density name = Some (File b) ∧
           decode b = Some icon ∧
           ScaleIcons.compose_scaled_icon (convert_RGBA icon) size = Ok img ∧
           width img = size ∧ height img = size ∧
           fs w' !! ScaleIcons.icon_path density name = Some (File (png_encode img)) ∧
           ScaleIcons.scaled_message (ScaleIcons.icon_path density name) size ∈ stdout w'
    else fs w' !! ScaleIcons.icon_path density name = None ∧
         ScaleIcons.warning (ScaleIcons.icon_path density name) ∈ stdout w'.
Proof.
  intros Hok Hin Hname.
  eexists. split; [by apply scale_main_refines|].
  set (path := ScaleIcons.icon_path density name).
  set (acc := print_lines w scale_banner).
  pose proof scale_entry_facts as Hfacts. rewrite Forall_forall in Hfacts.
  destruct (Hfacts _ Hin) as (Hsize & _). cbn [fst snd] in Hsize.
  pose proof NoDup_scale_targets as Hnd. rewrite <- (targets_scale_plan (fs w)) in Hnd.
  assert (Hit : Item path path (scaled_file (fs w !! path) size)
                     (ScaleIcons.scaled_message path size) [ScaleIcons.warning path]
                ∈ scale_plan (fs w)).
  { apply (items_in_plan _ _ (density, size)); [done|].
    unfold scale_items. apply list_elem_of_fmap. by exists name. }
  unfold icons_ok in Hok. rewrite Forall_forall in Hok.
  pose proof (Hok _ Hit) as Hicon. cbn [target] in Hicon.
  pose proof (fs_apply_items_target acc _ _ Hnd Hit (or_intror eq_refl)) as Hf.
  cbn [guard target payload] in Hf.
  rewrite fs_print_lines, Hf. change (fs acc) with (fs w).
  destruct Hicon as [Hnone|[(b & icon & Hfile & Hdec) _]].
  - rewrite !bool_decide_eq_false_2 by (rewrite Hnone; by intros [? ?]).
    split; [done|]. apply stdout_print_lines.
    apply (skip_lines_printed acc _ _ _ Hnd Hit (or_intror eq_refl)); [done|].
    apply list_elem_of_here.
  - rewrite !bool_decide_eq_true_2 by (rewrite Hfile; by eexists).
    destruct (decoded_logo b icon Hdec) as (Hwf & Hmode & Hw & Hh).
    destruct (compose_scaled_icon_total (convert_RGBA icon) size Hsize) as [img Hcomp].
    pose proof (compose_scaled_icon_Ok _ _ _ Hwf Hmode Hw Hh Hcomp)
      as (? & _ & _ & _ & _ & _ & _ & _ & _ & Hwi & Hhi & _).
    exists b, icon, img. unfold scaled_file. rewrite Hfile, Hdec, Hcomp.
    split_and!; try done.
    apply stdout_print_lines.
    apply (done_line_printed acc _ _ Hnd Hit (or_intror eq_refl)).
    cbn [guard]. change (fs acc) with (fs w). rewrite Hfile. by eexists.
Qed.

Lemma uniform_wf m w h c : 0 ≤ w → 0 ≤ h → rgba_bytes c → wf_image (uniform m w h c).
Proof. intros Hw Hh Hc. by apply wf_tabulate. Qed.

Lemma pixel_uniform m w h c x y :
  0 ≤ x < w → 0 ≤ y < h → pixel (uniform m w h c) x y = c.
Proof. intros Hx Hy. unfold pixel, uniform. by rewrite pixel_at_tabulate. Qed.

(** The upscaler's composition on an icon of one black colour of opacity
    [a]: the icon of that colour with [a] blended under itself. *)
Lemma compose_scaled_uniform canvas_size a :
  1 ≤ canvas_size ∧ 2 * canvas_size ≤ MAX_WIDTH → is_byte a →
  ScaleIcons.compose_scaled_icon (uniform ModeRGBA canvas_size canvas_size (Rgba 0 0 0 a))
                                 canvas_size
  = Ok (uniform ModeRGBA canvas_size canvas_size
          (blend_rgba a transparent (Rgba 0 0 0 a))).
Proof.
  intros Hsize Ha. pose proof MAX_WIDTH_lt as HM.
  unfold ScaleIcons.compose_scaled_icon.
  rewrite int_mul_float_SCALE_FACTOR by lia.
  unfold Image_resize. cbn [uniform width height].
  rewrite !bool_decide_eq_false_2 by lia.
  fold (uniform ModeRGBA canvas_size canvas_size (Rgba 0 0 0 a)).
  rewrite resample_uniform by (done || lia).
  rewrite Image_new_square by lia.
  unfold paste_mask_RGBA. rewrite bool_decide_eq_true_2 by done.
  unfold paste_core, uniform. cbn [mode width height fst snd]. do 2 f_equal.
  apply tabulate_ext. intros x y Hx Hy.
  pose proof (Z.div_mod (canvas_size - 2 * canvas_size) 2 ltac:(lia)) as Hdm.
  pose proof (Z.mod_pos_bound (canvas_size - 2 * canvas_size) 2 ltac:(lia)) as Hm.
  set (offset := (canvas_size - 2 * canvas_size) `div` 2) in *.
  fold (uniform ModeRGBA (2 * canvas_size) (2 * canvas_size) (Rgba 0 0 0 a)).
  rewrite in_bounds_true by (cbn [uniform width height]; lia).
  rewrite pixel_uniform by lia.
  unfold pixel. rewrite pixel_at_tabulate by lia. done.
Qed.

(** X22. An icon of one black colour of opacity 128 and of a size of the
    table, upscaled twice in place at that size: both runs succeed, the
    first leaves the icon with opacity 64 and the second with opacity 16, so
    the second run changes the file the first one wrote. *)
Theorem scale_icon_twice_compounds path density canvas_size w :
  (density, canvas_size) ∈ ScaleIcons.DENSITIES →
  fs w !! path
    = Some (File (png_encode (uniform ModeRGBA canvas_size canvas_size (Rgba 0 0 0 128)))) →
  dirname path = EmptyString ∨ fs w !! dirname path = Some Dir →
  ∃ w1 w2,
    ScaleIcons.scale_icon path path canvas_size w = (Ok (), w1) ∧
    ScaleIcons.scale_icon path path canvas_size w1 = (Ok (), w2) ∧
    fs w1 !! path
      = Some (File (png_encode (uniform ModeRGBA canvas_size canvas_size (Rgba 0 0 0 64)))) ∧
    fs w2 !! path
      = Some (File (png_encode (uniform ModeRGBA canvas_size canvas_size (Rgba 0 0 0 16)))) ∧
    fs w2 !! path ≠ fs w1 !! path.
Proof.
  intros Hin Hfile Hdir. pose proof MAX_WIDTH_lt as HM.
  pose proof scale_entry_facts as Hfacts. rewrite Forall_forall in Hfacts.
  destruct (Hfacts _ Hin) as (Hsize & _). cbn [fst snd] in Hsize.
  assert (Hround : ∀ a, is_byte a →
            decode (png_encode (uniform ModeRGBA canvas_size canvas_size (Rgba 0 0 0 a)))
            = Some (uniform ModeRGBA canvas_size canvas_size (Rgba 0 0 0 a))).
  { intros a Ha. apply png_roundtrip; [|done|cbn [uniform width]; lia|cbn [uniform height]; lia].
    apply uniform_wf; [lia..|]. unfold rgba_bytes, is_byte in *. cbn [red green blue alpha]. lia. }
  assert (Hstep : ∀ a w0, is_byte a →
            fs w0 !! path
              = Some (File (png_encode (uniform ModeRGBA canvas_size canvas_size (Rgba 0 0 0 a)))) →
            dirname path = EmptyString ∨ fs w0 !! dirname path = Some Dir →
            ScaleIcons.scale_icon path path canvas_size w0 =
            (Ok (), World (<[path := File (png_encode
                             (uniform ModeRGBA canvas_size canvas_size
                                (blend_rgba a transparent (Rgba 0 0 0 a))))]> (fs w0))
                          (stdout w0 ++ [ScaleIcons.scaled_message path canvas_size]))).
  { intros a w0 Ha Hf Hd.
    apply (scale_icon_run _ _ _ _ _ _ _ Hf (Hround a Ha)); [|by rewrite Hf|done].
    rewrite convert_RGBA_id by done. by apply compose_scaled_uniform. }
  assert (H128 : is_byte 128) by (unfold is_byte; lia).
  assert (H64 : is_byte 64) by (unfold is_byte; lia).
  assert (H16 : is_byte 16) by (unfold is_byte; lia).
  pose proof (Hstep 128 w H128 Hfile Hdir) as Hrun1.
  change (blend_rgba 128 transparent (Rgba 0 0 0 128)) with (Rgba 0 0 0 64) in Hrun1.
  eexists _, _. split; [exact Hrun1|].
  match type of Hrun1 with _ = (_, ?w1) => pose proof (Hstep 64 w1 H64) as Hrun2 end.
  change (blend_rgba 64 transparent (Rgba 0 0 0 64)) with (Rgba 0 0 0 16) in Hrun2.
  split; [apply Hrun2|].
  - cbn [fs]. apply lookup_insert_eq.
  - cbn [fs]. destruct Hdir as [?|Hd]; [by left|right].
    rewrite lookup_insert_ne; [done|]. intros Heq. rewrite <- Heq in Hd. congruence.
  - cbn [fs]. rewrite !lookup_insert_eq. split_and!; [done|done|].
    intros Heq. injection Heq as Heq.
    pose proof (Hround 16 H16) as Hd16. rewrite Heq, (Hround 64 H64) in Hd16.
    injection Hd16 as Hd16.
    assert (Hp : pixel (uniform ModeRGBA canvas_size canvas_size (Rgba 0 0 0 64)) 0 0
                 = pixel (uniform ModeRGBA canvas_size canvas_size (Rgba 0 0 0 16)) 0 0).
    { unfold uniform. by rewrite Hd16. }
    rewrite !pixel_uniform in Hp by lia. discriminate.
Qed.

End run_properties.

Lemma example_tree_circular_ok : tree_ok (circular_plan example_logo) example_tree.
Proof.
  unfold tree_ok, circular_plan. cbn [flat_map CircularIcons.ICON_SIZES circular_items app].
  repeat (constructor; [cbn [guard target]; first [left; by vm_compute|right; by vm_compute]|]).
  constructor.
Qed.

Lemma circular_main_per_density_witness :
  ∃ w', CircularIcons.main example_home example_tree = (Ok (), w') ∧
        CircularIcons.warning (CircularIcons.mipmap_dir "hdpi") ∈ stdout w'.
Proof.
  destruct (circular_main_per_density example_home example_tree example_logo "hdpi" 72)
    as (w' & std & rnd & Hrun & _ & _ & _ & _ & _ & _ & Hcase).
  - exists (Reference.encode example_logo). by vm_compute.
  - exact example_tree_circular_ok.
  - apply list_elem_of_further, list_elem_of_here.
  - exists w'. split; [exact Hrun|].
    rewrite bool_decide_eq_false_2 in Hcase by (vm_compute; by intros [? ?]).
    apply Hcase.
Defined.

Lemma circular_main_twice_witness :
  ∃ w1 w2,
    CircularIcons.main example_home example_tree = (Ok (), w1) ∧
    CircularIcons.main example_home w1 = (Ok (), w2) ∧
    fs w2 = fs w1.
Proof.
  apply (circular_main_twice example_home example_tree example_logo).
  - exists (Reference.encode example_logo). by vm_compute.
  - exact example_tree_circular_ok.
Defined.

Lemma example_tree_splash_ok : tree_ok (splash_plan example_logo) example_tree.
Proof.
  unfold tree_ok, splash_plan. cbn [flat_map SplashScreens.SPLASH_SIZES splash_items app].
  repeat (constructor; [cbn [guard target]; first [left; by vm_compute|right; by vm_compute]|]).
  constructor.
Qed.

Lemma splash_main_per_density_witness :
  ∃ w', SplashScreens.main example_home example_tree = (Ok (), w') ∧
        fs w' !! SplashScreens.regular_path "mdpi" = fs w' !! SplashScreens.dark_path "mdpi".
Proof.
  destruct (splash_main_per_density example_home example_tree example_logo "mdpi" 300)
    as (w' & img & Hrun & _ & _ & _ & Hreg & Hdark).
  - exists (Reference.encode example_logo). by vm_compute.
  - exact example_tree_splash_ok.
  - apply list_elem_of_here.
  - exists w'. split; [exact Hrun|].
    rewrite bool_decide_eq_true_2 in Hreg by (apply (bool_decide_unpack _); by vm_compute).
    rewrite bool_decide_eq_true_2 in Hdark by (apply (bool_decide_unpack _); by vm_compute).
    destruct Hreg as [-> _]. by destruct Hdark as [-> _].
Defined.

Lemma splash_main_twice_witness :
  ∃ w1 w2,
    SplashScreens.main example_home example_tree = (Ok (), w1) ∧
    SplashScreens.main example_home w1 = (Ok (), w2) ∧
    fs w2 = fs w1.
Proof.
  apply (splash_main_twice example_home example_tree example_logo).
  - exists (Reference.encode example_logo). by vm_compute.
  - exact example_tree_splash_ok.
Defined.

Lemma example_tree_icons_ok : icons_ok (scale_plan (fs example_tree)) example_tree.
Proof.
  unfold icons_ok, scale_plan.
  cbn [flat_map ScaleIcons.DENSITIES scale_items ScaleIcons.icon_names fmap list_fmap app].
  repeat (constructor;
    [cbn [guard target];
     first [left; by vm_compute
           |right; split; [exists (Reference.encode example_icon), example_icon|];
            by vm_compute]|]).
  constructor.
Qed.

Lemma scale_main_per_icon_witness :
  ∃ w', ScaleIcons.main example_tree = (Ok (), w') ∧
        ScaleIcons.warning (ScaleIcons.icon_path "mdpi" "ic_launcher_round.png") ∈ stdout w'.
Proof.
  destruct (scale_main_per_icon example_tree "mdpi" 48 "ic_launcher_round.png")
    as (w' & Hrun & Hcase).
  - exact example_tree_icons_ok.
  - apply list_elem_of_here.
  - apply list_elem_of_further, list_elem_of_here.
  - exists w'. split; [exact Hrun|].
    rewrite bool_decide_eq_false_2 in Hcase by (vm_compute; by intros [? ?]).
    apply Hcase.
Defined.

Lemma scale_icon_twice_compounds_witness :
  let path := "android/app/src/main/res/mipmap-mdpi/ic_launcher.png" in
  ∃ w1 w2,
    ScaleIcons.scale_icon path path 48 launcher_tree = (Ok (), w1) ∧
    ScaleIcons.scale_icon path path 48 w1 = (Ok (), w2) ∧
    fs w2 !! path ≠ fs w1 !! path.
Proof.
  intros path.
  destruct (scale_icon_twice_compounds path "mdpi" 48 launcher_tree)
    as (w1 & w2 & Hrun1 & Hrun2 & _ & _ & Hne).
  - apply list_elem_of_here.
  - by vm_compute.
  - right. by vm_compute.
  - exists w1, w2. split_and!; assumption.
Defined.

(** * Further properties: what the runs print *)

Section console.
Context `{Imaging}.

(** The lines one item adds to the console. *)
Lemma stdout_apply_item acc it :
  stdout (apply_item acc it) =
  stdout acc ++ (if bool_decide (is_Some (fs acc !! guard it))
                 then [done_line it] else skip_lines it).
Proof. unfold apply_item. by case_bool_decide. Qed.

(** Applying an item changes the existence of no guard, when a guard that
    is another item's target is that item's own guard. *)
Lemma guard_exists_apply_item acc it g :
  (g = target it → guard it = target it) →
  bool_decide (is_Some (fs (apply_item acc it) !! g))
  = bool_decide (is_Some (fs acc !! g)).
Proof.
  intros Hg. unfold apply_item.
  destruct (decide (is_Some (fs acc !! guard it))) as [Hex|Hex].
  - rewrite (bool_decide_eq_true_2 _ Hex). cbn [fs].
    destruct (decide (target it = g)) as [Heq|Hne].
    + rewrite <- Heq, lookup_insert_eq. rewrite <- Hg by done.
      rewrite !bool_decide_eq_true_2; [done..|by eexists].
    + by rewrite lookup_insert_ne.
  - by rewrite (bool_decide_eq_false_2 _ Hex).
Qed.

Lemma flat_map_ext_elem {A B} (f g : A → list B) (l : list A) :
  (∀ a, a ∈ l → f a = g a) → flat_map f l = flat_map g l.
Proof.
  induction l as [|a l IH]; intros Hfg; [done|]. cbn [flat_map].
  rewrite (Hfg a) by apply list_elem_of_here. f_equal.
  apply IH. intros a' Ha'. apply Hfg. by apply list_elem_of_further.
Qed.

Lemma stdout_apply_items_eq acc l :
  (∀ it it', it ∈ l → it' ∈ l → guard it' = target it → guard it = target it) →
  stdout (apply_items acc l) =
  stdout acc ++ flat_map (λ it, if bool_decide (is_Some (fs acc !! guard it))
                                then [done_line it] else skip_lines it) l.
Proof.
  revert acc. induction l as [|it l IH]; intros acc Hg.
  - cbn. by rewrite app_nil_r.
  - rewrite apply_items_cons, IH.
    2:{ intros a a' Ha Ha'. apply Hg; by apply list_elem_of_further. }
    rewrite stdout_apply_item. cbn [flat_map]. rewrite <- app_assoc. do 2 f_equal.
    apply flat_map_ext_elem. intros it' Hit'.
    rewrite guard_exists_apply_item; [done|].
    intros Heq. apply (Hg it it'); [apply list_elem_of_here|by apply list_elem_of_further|done].
Qed.

Lemma flat_map_flat_map {A B C} (f : A → list B) (g : B → list C) (l : list A) :
  flat_map g (flat_map f l) = flat_map (λ a, flat_map g (f a)) l.
Proof.
  induction l as [|a l IH]; [done|]. cbn [flat_map]. by rewrite flat_map_app, IH.
Qed.

(** X23. With a source that opens and a resource tree in which every
    [mipmap] path is absent or a directory, the circular icon generator
    prints its five opening lines, then for each density in the order of the
    table the two confirmation lines (standard, then round) if the density's
    directory exists and one warning if not, then its seven closing lines. *)
Theorem circular_main_prints home w logo :
  source_decodes (CircularIcons.SOURCE_LOGO home) w logo →
  tree_ok (circular_plan logo) w →
  stdout (CircularIcons.main home w).2 =
  stdout w ++ circular_banner ++
  flat_map (λ entry : string * Z,
      if bool_decide (is_Some (fs w !! CircularIcons.mipmap_dir entry.1))
      then [CircularIcons.created_message (CircularIcons.standard_path entry.1) entry.2 false;
            CircularIcons.created_message (CircularIcons.round_path entry.1) entry.2 true]
      else [CircularIcons.warning (CircularIcons.mipmap_dir entry.1)])
    CircularIcons.ICON_SIZES ++
  circular_footer.
Proof.
  intros Hsrc Htree. rewrite (circular_main_refines home w logo Hsrc Htree).
  cbn [snd]. unfold print_lines at 1. cbn [stdout].
  rewrite stdout_apply_items_eq.
  - unfold print_lines. cbn [fs stdout]. rewrite <- !app_assoc. do 2 f_equal.
    f_equal. unfold circular_plan. rewrite flat_map_flat_map.
    apply flat_map_ext. intros [density size]. cbn [circular_items flat_map guard done_line
      skip_lines fst snd].
    by case_bool_decide.
  - intros it it' Hit Hit' Heq. exfalso.
    pose proof (circular_guards logo) as Hguards. rewrite Forall_forall in Hguards.
    destruct (Hguards _ Hit') as (Hg & _). apply Hg.
    rewrite Heq, <- (targets_circular_plan logo). by apply list_elem_of_fmap_2.
Qed.

(** X24. With a source that opens and a resource tree in which every
    [drawable] path is absent or a directory, the splash logo generator prints
    its opening line, then for each density in the order of the table one line
    for the light destination and one for the dark one, each a confirmation if
    the destination's directory exists and a warning if not, then its three
    closing lines. *)
Theorem splash_main_prints home w src :
  source_decodes (SplashScreens.SOURCE_LOGO home) w src →
  tree_ok (splash_plan src) w →
  stdout (SplashScreens.main home w).2 =
  stdout w ++ splash_banner ++
  flat_map (λ entry : string * Z,
      [if bool_decide (is_Some (fs w !! SplashScreens.regular_dir entry.1))
       then SplashScreens.generated_message (SplashScreens.regular_path entry.1) entry.2
       else SplashScreens.warning (SplashScreens.regular_dir entry.1);
       if bool_decide (is_Some (fs w !! SplashScreens.dark_dir entry.1))
       then SplashScreens.generated_message (SplashScreens.dark_path entry.1) entry.2
       else SplashScreens.warning (SplashScreens.dark_dir entry.1)])
    SplashScreens.SPLASH_SIZES ++
  splash_footer.
Proof.
  intros Hsrc Htree. rewrite (splash_main_refines home w src Hsrc Htree).
  cbn [snd]. unfold print_lines at 1. cbn [stdout].
  rewrite stdout_apply_items_eq.
  - unfold print_lines. cbn [fs stdout]. rewrite <- !app_assoc. do 2 f_equal.
    f_equal. unfold splash_plan. rewrite flat_map_flat_map.
    apply flat_map_ext. intros [density size]. cbn [splash_items flat_map guard done_line
      skip_lines fst snd app].
    by do 2 case_bool_decide.
  - intros it it' Hit Hit' Heq. exfalso.
    pose proof (splash_guards src) as Hguards. rewrite Forall_forall in Hguards.
    destruct (Hguards _ Hit') as (Hg & _). apply Hg.
    rewrite Heq, <- (targets_splash_plan src). by apply list_elem_of_fmap_2.
Qed.

(** X25. With a resource tree in which every icon path of the table is
    absent, or a file that opens and lies in a directory, the icon upscaler
    prints its opening line, then for each density in the order of the table
    and for [ic_launcher.png], then [ic_launcher_round.png], a confirmation
    if the icon exists and a warning if not, then its two closing lines. *)
Theorem scale_main_prints w :
  icons_ok (scale_plan (fs w)) w →
  stdout (ScaleIcons.main w).2 =
  stdout w ++ scale_banner ++
  flat_map (λ entry : string * Z,
      (λ name, if bool_decide (is_Some (fs w !! ScaleIcons.icon_path entry.1 name))
               then ScaleIcons.scaled_message (ScaleIcons.icon_path entry.1 name) entry.2
               else ScaleIcons.warning (ScaleIcons.icon_path entry.1 name))
      <$> ScaleIcons.icon_names)
    ScaleIcons.DENSITIES ++
  scale_footer.
Proof.
  intros Hok. rewrite (scale_main_refines w Hok).
  cbn [snd]. unfold print_lines at 1. cbn [stdout].
  rewrite stdout_apply_items_eq.
  - unfold print_lines. cbn [fs stdout]. rewrite <- !app_assoc. do 2 f_equal.
    f_equal. unfold scale_plan. rewrite flat_map_flat_map.
    apply flat_map_ext. intros [density size].
    cbn [scale_items ScaleIcons.icon_names fmap list_fmap flat_map guard done_line
      skip_lines fst snd app].
    by do 2 case_bool_decide.
  - intros it it' Hit Hit' Heq.
    pose proof (scale_guards (fs w)) as Hguards. rewrite Forall_forall in Hguards.
    by destruct (Hguards _ Hit) as (Hg & _).
Qed.

End console.

Lemma circular_main_prints_witness :
  length (stdout (CircularIcons.main example_home example_tree).2) = 18%nat.
Proof.
  rewrite (circular_main_prints example_home example_tree example_logo).
  - by vm_compute.
  - exists (Reference.encode example_logo). by vm_compute.
  - exact example_tree_circular_ok.
Defined.

Lemma splash_main_prints_witness :
  length (stdout (SplashScreens.main example_home example_tree).2) = 14%nat.
Proof.
  rewrite (splash_main_prints example_home example_tree example_logo).
  - by vm_compute.
  - exists (Reference.encode example_logo). by vm_compute.
  - exact example_tree_splash_ok.
Defined.

Lemma scale_main_prints_witness :
  length (stdout (ScaleIcons.main example_tree).2) = 13%nat.
Proof.
  rewrite (scale_main_prints example_tree).
  - by vm_compute.
  - exact example_tree_icons_ok.
Defined.
